(** * SCB API client: usage window, selection translation and validation,
      JSON-stat2 decoding

    Shallow embedding of [src/src/api-client.ts] (class [SCBApiClient], the
    later of the two class bodies in that file) and the properties of it
    that the specification states.

    Conventions of the embedding.
    - A JavaScript [Date] is its [getTime()] value: an integer number of
      milliseconds, in [Z].  Counters and server-advertised limits are
      integers in [Z].
    - A JavaScript string is a [string]; the source file is UTF-8, so the
      Swedish keys of the tables are the byte sequences of their UTF-8
      encoding.
    - A JavaScript object used as a record of string keys ([Record<string,T>])
      is an association list in the order [Object.keys] enumerates it, with
      at most one entry per key; [get] reads an own property.  The client's
      tables of names and values are read under keys the caller typed, and
      those reads go through the prototype chain ([read]): a key that names
      a member of [Object.prototype] finds the inherited function or object.
      The objects parsed from the API's answers (dimensions, categories,
      labels) are read under their own keys.
    - A number of the payload is a binary64 floating-point number
      ([float]), added as JavaScript adds.
    - A call either completes normally or throws: [completion].  What the
      outside world answers (the clock, the HTTP transport, the schema
      parser) is an explicit argument of the operation that consults it. *)

From Stdlib Require Import Floats.PrimFloat.
From Stdlib Require Import ZArith List String Ascii Bool Lia Arith Sorted.
From Stdlib Require Import Numbers.DecimalString.
Import ListNotations.

Open Scope string_scope.
Open Scope Z_scope.

(* ================================================================== *)
(** * JavaScript runtime notions used by the client *)
(* ================================================================== *)

Module Js.

(** What a [throw] carries: an [Error] object with its message, or any
    other value, kept as what [String(value)] renders. *)
Inductive thrown : Type :=
| ErrorObject (message : string)
| OtherValue (rendered : string).

(** [error instanceof Error ? error.message : String(error)] *)
Definition describe (e : thrown) : string :=
  match e with
  | ErrorObject m => m
  | OtherValue s => s
  end.

Inductive completion (A : Type) : Type :=
| Normal (a : A)
| Throw (e : thrown).
Arguments Normal {A} a.
Arguments Throw {A} e.

(** Number to string, for integers. *)
Definition numberToString (z : Z) : string :=
  NilZero.string_of_int (Z.to_int z).

(** [Math.ceil(a / b)] for an integer [a] and a positive integer [b]. *)
Definition ceilDiv (a b : Z) : Z := - ((- a) / b).

(** ** Strings *)

Definition isUpperAscii (c : ascii) : bool :=
  let n := nat_of_ascii c in (65 <=? n)%nat && (n <=? 90)%nat.

Definition isDigit (c : ascii) : bool :=
  let n := nat_of_ascii c in (48 <=? n)%nat && (n <=? 57)%nat.

Definition lowerAscii (c : ascii) : ascii :=
  if isUpperAscii c then ascii_of_nat (nat_of_ascii c + 32) else c.

(** Second byte of a two-byte UTF-8 sequence led by 0xC3: the capital
    letters U+00C0..U+00DE, without the multiplication sign U+00D7. *)
Definition isUpperLatin1Tail (c : ascii) : bool :=
  let n := nat_of_ascii c in
  (128 <=? n)%nat && (n <=? 158)%nat && negb (n =? 151)%nat.

(** A string of bytes given by their numbers. *)
Definition bytes (codes : list nat) : string :=
  fold_right (fun code s => String (ascii_of_nat code) s) EmptyString codes.

(** [String.prototype.toLowerCase] on every code point whose lower-case
    form has a Basic Latin or Latin-1 character in it: the capital letters
    of these two blocks, and U+0130 (to [i] and U+0307), U+0178 (to
    U+00FF), U+1E9E (to U+00DF), U+212A (to [k]) and U+212B (to U+00E5).
    The other cased letters (Greek, Cyrillic, ...) are left as they are.
    Their lower-case forms have no character in common with the keys and
    the keywords of the client, which are Basic Latin and Latin-1 text, so
    a lower-cased string is one of those keys, or contains one of those
    keywords, exactly when its JavaScript lower-case form is or does.
    Where two free texts are compared in lower case (a name of the caller
    with a name or label of the payload), the comparison is JavaScript's
    for texts of these two blocks and of uncased scripts. *)
Fixpoint toLowerCase (s : string) : string :=
  match s with
  | EmptyString => EmptyString
  | String c rest =>
      let plain := String (lowerAscii c) (toLowerCase rest) in
      match rest with
      | String d rest' =>
          let lead := nat_of_ascii c in
          let second := nat_of_ascii d in
          if (lead =? 195)%nat && isUpperLatin1Tail d
          then String c (String (ascii_of_nat (second + 32)) (toLowerCase rest'))
          else if (lead =? 196)%nat && (second =? 176)%nat
          then bytes [105; 204; 135]%nat ++ toLowerCase rest'
          else if (lead =? 197)%nat && (second =? 184)%nat
          then bytes [195; 191]%nat ++ toLowerCase rest'
          else
            match rest' with
            | String e rest'' =>
                let third := nat_of_ascii e in
                if (lead =? 226)%nat && (second =? 132)%nat && (third =? 170)%nat
                then bytes [107]%nat ++ toLowerCase rest''
                else if (lead =? 226)%nat && (second =? 132)%nat && (third =? 171)%nat
                then bytes [195; 165]%nat ++ toLowerCase rest''
                else if (lead =? 225)%nat && (second =? 186)%nat && (third =? 158)%nat
                then bytes [195; 159]%nat ++ toLowerCase rest''
                else plain
            | EmptyString => plain
            end
      | EmptyString => plain
      end
  end.

(** [s.startsWith(p)] *)
Definition startsWith (s p : string) : bool := prefix p s.

(** [s.includes(sub)] *)
Fixpoint includes (s sub : string) : bool :=
  prefix sub s ||
  match s with
  | EmptyString => false
  | String _ rest => includes rest sub
  end.

(** [xs.join(sep)] *)
Fixpoint join (sep : string) (xs : list string) : string :=
  match xs with
  | [] => EmptyString
  | [x] => x
  | x :: rest => x ++ sep ++ join sep rest
  end.

(** [xs.includes(x)] on an array of strings *)
Definition arrayIncludes (xs : list string) (x : string) : bool :=
  existsb (String.eqb x) xs.

(** [value.replace(from, to)] with one-character strings: only the first
    occurrence is replaced. *)
Fixpoint replaceFirst (from to : ascii) (s : string) : string :=
  match s with
  | EmptyString => EmptyString
  | String c rest =>
      if Ascii.eqb c from then String to rest
      else String c (replaceFirst from to rest)
  end.

(** ** Objects with string keys *)

Definition object (A : Type) : Type := list (string * A).

(** [Object.keys(o)] and [Object.entries(o)] *)
Definition keys {A} (o : object A) : list string := map fst o.
Definition entries {A} (o : object A) : list (string * A) := o.

(** [o[k]]: [None] is [undefined]. *)
Fixpoint get {A} (o : object A) (k : string) : option A :=
  match o with
  | [] => None
  | (k', v) :: rest => if String.eqb k' k then Some v else get rest k
  end.

(** [o[k] = v]: an existing key keeps its place, a new key goes last.
    JavaScript enumerates keys that are canonical array indices first, in
    ascending order, whenever they were added.  The client fills the
    fields of a decoded record, whose names are no array indices, and
    otherwise fills an object only while it enumerates another one, under
    the enumerated key or its translation, which leaves an array index as
    it is: the new keys arrive in enumeration order, and going last is
    where JavaScript puts them. *)
Fixpoint set {A} (o : object A) (k : string) (v : A) : object A :=
  match o with
  | [] => [(k, v)]
  | (k', v') :: rest =>
      if String.eqb k' k then (k, v) :: rest else (k', v') :: set rest k v
  end.

(** [o[k] = v] under a key the caller typed.  Under the key [__proto__] the
    assignment reaches the setter that [Object.prototype] defines: it
    replaces the prototype of [o] (the values assigned here are arrays)
    and adds no property. *)
Definition assign {A} (o : object A) (k : string) (v : A) : object A :=
  if String.eqb k "__proto__" then o else set o k v.

(** [a || b] where [a] is a string or [undefined]: the empty string is
    falsy. *)
Definition orElse (a : option string) (b : string) : string :=
  match a with
  | Some s => if String.eqb s EmptyString then b else s
  | None => b
  end.

(** ** Reads through the prototype chain *)

(** The members of [Object.prototype], which every object literal
    inherits. *)
Definition objectPrototype : list string :=
  [ "constructor"; "__defineGetter__"; "__defineSetter__"; "hasOwnProperty";
    "__lookupGetter__"; "__lookupSetter__"; "isPrototypeOf"; "propertyIsEnumerable";
    "toString"; "valueOf"; "__proto__"; "toLocaleString" ].

(** What an expression of static type [string] holds at run time once it
    has passed through a table: a string, or the member of
    [Object.prototype] a read has found (a function; under [__proto__] the
    prototype object itself). *)
Inductive Value : Type :=
| Text (s : string)
| Inherited (member : string).

Definition isText (v : Value) : bool :=
  match v with
  | Text _ => true
  | Inherited _ => false
  end.

(** [table[k]] on an object literal of strings. *)
Definition read (table : object string) (k : string) : option Value :=
  match get table k with
  | Some v => Some (Text v)
  | None => if arrayIncludes objectPrototype k then Some (Inherited k) else None
  end.

(** [a || b]: an inherited member is truthy, the empty string is not. *)
Definition orValue (a : option Value) (b : Value) : Value :=
  match a with
  | Some (Text s) => if String.eqb s EmptyString then b else Text s
  | Some (Inherited member) => Inherited member
  | None => b
  end.

(** [String(v)], which is also the property key [v] stands for in
    [o[v]]. *)
Definition toText (v : Value) : string :=
  match v with
  | Text s => s
  | Inherited member =>
      if String.eqb member "__proto__" then "[object Object]"
      else "function " ++ (if String.eqb member "constructor" then "Object" else member)
           ++ "() { [native code] }"
  end.

(** The strings of a list that holds strings only. *)
Fixpoint texts (values : list Value) : option (list string) :=
  match values with
  | [] => Some []
  | Text s :: rest =>
      match texts rest with
      | Some ss => Some (s :: ss)
      | None => None
      end
  | Inherited _ :: _ => None
  end.

(** ** Loops whose body may throw *)

(** [xs.map(f)] *)
Fixpoint mapM {A B} (f : A -> completion B) (xs : list A) : completion (list B) :=
  match xs with
  | [] => Normal []
  | x :: rest =>
      match f x with
      | Normal y =>
          match mapM f rest with
          | Normal ys => Normal (y :: ys)
          | Throw e => Throw e
          end
      | Throw e => Throw e
      end
  end.

(** [for (const x of xs) { a = f(a, x) }] *)
Fixpoint foldM {A B} (f : A -> B -> completion A) (xs : list B) (a : A) : completion A :=
  match xs with
  | [] => Normal a
  | x :: rest =>
      match f a x with
      | Normal a' => foldM f rest a'
      | Throw e => Throw e
      end
  end.

(** ** Numbers *)

Definition number : Type := float.

(** A number is falsy when it is [0], [-0] or [NaN]. *)
Definition falsyNumber (n : number) : bool :=
  PrimFloat.eqb n 0%float || negb (PrimFloat.eqb n n).

End Js.

Import Js.

(* ================================================================== *)
(** * The usage window (rate limiting) *)
(* ================================================================== *)

(** [RateLimitInfo] of [types.ts]; [resetTime] in milliseconds,
    [timeWindow] in seconds. *)
Record RateLimitInfo : Type := mkRateLimitInfo {
  remaining : Z;
  resetTime : Z;
  maxCalls : Z;
  timeWindow : Z
}.

(** The mutable fields of [SCBApiClient]. *)
Record Client : Type := mkClient {
  rateLimitInfo : option RateLimitInfo;
  requestCount : Z;
  windowStartTime : Z
}.

(** Field initialisers and constructor: [windowStartTime = new Date()]. *)
Definition newClient (constructedAt : Z) : Client :=
  {| rateLimitInfo := None; requestCount := 0; windowStartTime := constructedAt |}.

(** An operation of the client: it reads and writes the client's fields and
    completes normally or throws. *)
Definition Op (A : Type) : Type := Client -> completion A * Client.

Definition ret {A} (a : A) : Op A := fun c => (Normal a, c).
Definition throw {A} (e : thrown) : Op A := fun c => (Throw e, c).
Definition bind {A B} (m : Op A) (k : A -> Op B) : Op B :=
  fun c =>
    match m c with
    | (Normal a, c') => k a c'
    | (Throw e, c') => (Throw e, c')
    end.
Definition tryCatch {A} (body : Op A) (handler : thrown -> Op A) : Op A :=
  fun c =>
    match body c with
    | (Normal a, c') => (Normal a, c')
    | (Throw e, c') => handler e c'
    end.
Definition modify (f : Client -> Client) : Op unit := fun c => (Normal tt, f c).
(** Lifting what the outside world answered into an operation. *)
Definition await {A} (r : completion A) : Op A := fun c => (r, c).
(** A computation that leaves the client's fields alone. *)
Definition local {A} (r : completion A) : Op A := fun c => (r, c).

Notation "x <- m ;; k" := (bind m (fun x => k))
  (at level 61, m at next level, right associativity).
Notation "m ;;; k" := (bind m (fun _ => k))
  (at level 61, right associativity).

(** What the unauthenticated [/config] request of [initializeRateLimit]
    comes back with. *)
Inductive ConfigFetch : Type :=
| ConfigThrows      (* fetch, response.json() or ConfigResponseSchema.parse throws *)
| ConfigNotOk       (* !response.ok *)
| ConfigParsed (maxCallsPerTimeWindow timeWindowSeconds : Z).

(** What one admission check observes of the world: the answer to the
    config request and [Date.now()] inside [initializeRateLimit] (both
    consulted only when the limits are not yet known), and [new Date()]
    inside [checkRateLimit]. *)
Record Clock : Type := mkClock {
  configFetch : ConfigFetch;
  initNow : Z;
  checkNow : Z
}.

Definition defaultRateLimit (dateNow : Z) : RateLimitInfo :=
  {| remaining := 30; resetTime := dateNow + 10000; maxCalls := 30; timeWindow := 10 |}.

Definition initializeRateLimit (cfg : ConfigFetch) (dateNow : Z) (c : Client) : Client :=
  match rateLimitInfo c with
  | Some _ => c
  | None =>
      let info :=
        match cfg with
        | ConfigNotOk => defaultRateLimit dateNow
        | ConfigParsed maxCallsPerTimeWindow timeWindowSeconds =>
            {| remaining := maxCallsPerTimeWindow;
               resetTime := dateNow + timeWindowSeconds * 1000;
               maxCalls := maxCallsPerTimeWindow;
               timeWindow := timeWindowSeconds |}
        | ConfigThrows => defaultRateLimit dateNow
        end in
      {| rateLimitInfo := Some info;
         requestCount := requestCount c;
         windowStartTime := windowStartTime c |}
  end.

(** The reset branch of [checkRateLimit]. *)
Definition resetWindow (now : Z) (info : RateLimitInfo) (c : Client) : Client :=
  {| requestCount := 0;
     windowStartTime := now;
     rateLimitInfo :=
       Some {| remaining := maxCalls info;
               resetTime := now + timeWindow info * 1000;
               maxCalls := maxCalls info;
               timeWindow := timeWindow info |} |}.

Definition rateLimitMessage (waitTime used limit : Z) : string :=
  "Rate limit exceeded. Try again in " ++ numberToString (ceilDiv waitTime 1000)
  ++ " seconds. Current usage: " ++ numberToString used ++ "/" ++ numberToString limit.

Definition checkRateLimit (w : Clock) : Op unit :=
  fun c =>
    let c1 :=
      match rateLimitInfo c with
      | None => initializeRateLimit (configFetch w) (initNow w) c
      | Some _ => c
      end in
    let now := checkNow w in
    match rateLimitInfo c1 with
    | None => (Throw (ErrorObject "Cannot read properties of null (reading 'resetTime')"), c1)
    | Some info =>
        let c2 := if resetTime info <=? now then resetWindow now info c1 else c1 in
        match rateLimitInfo c2 with
        | None => (Throw (ErrorObject "Cannot read properties of null (reading 'maxCalls')"), c2)
        | Some info2 =>
            if maxCalls info2 <=? requestCount c2
            then (Throw (ErrorObject
                           (rateLimitMessage (resetTime info2 - now)
                                             (requestCount c2) (maxCalls info2))), c2)
            else (Normal tt, c2)
        end
    end.

(** [this.requestCount++] followed by the update of [remaining], as it
    stands after the fetch in [makeRequest] and in [getTableData]. *)
Definition recordCall (c : Client) : Client :=
  let n := requestCount c + 1 in
  {| requestCount := n;
     windowStartTime := windowStartTime c;
     rateLimitInfo :=
       match rateLimitInfo c with
       | Some info =>
           Some {| remaining := Z.max 0 (maxCalls info - n);
                   resetTime := resetTime info;
                   maxCalls := maxCalls info;
                   timeWindow := timeWindow info |}
       | None => None
       end |}.

(** [getUsageInfo] *)
Definition getUsageInfo (c : Client) : Z * Z * option RateLimitInfo :=
  (requestCount c, windowStartTime c, rateLimitInfo c).

(* ================================================================== *)
(** * Transport and the JSON-stat2 data model *)
(* ================================================================== *)

(** [Dataset] of [types.ts], with the fields the client reads.  [None]
    stands for a field that is [null] or absent (the client tests both
    with [!field]). *)
Record Category : Type := mkCategory {
  index : object Z;
  cat_label : option (object string)
}.

Record Dimension : Type := mkDimension {
  dim_label : string;
  category : Category
}.

Record Dataset : Type := mkDataset {
  id : option (list string);
  label : string;
  source : option string;
  updated : option string;
  size : list Z;
  dimension : option (object Dimension);
  value : option (list (option number))
}.

(** What the client reads of a [fetch] response.  [text] is the outcome of
    [await response.text()], [parsed] the outcome of
    [schema.parse(await response.json())]. *)
Record Response (T : Type) : Type := mkResponse {
  ok : bool;
  status : Z;
  statusText : string;
  contentType : option string;
  text : completion string;
  parsed : completion T
}.
Arguments mkResponse {T}.
Arguments ok {T}.
Arguments status {T}.
Arguments statusText {T}.
Arguments contentType {T}.
Arguments text {T}.
Arguments parsed {T}.

Inductive FetchOutcome (T : Type) : Type :=
| Rejected (e : thrown)
| Resolved (r : Response T).
Arguments Rejected {T}.
Arguments Resolved {T}.

Definition awaitFetch {T} (f : FetchOutcome T) : Op (Response T) :=
  match f with
  | Rejected e => throw e
  | Resolved r => ret r
  end.

Definition makeRequest {T} (w : Clock) (f : FetchOutcome T) : Op T :=
  checkRateLimit w ;;;
  response <- awaitFetch f ;;
  modify recordCall ;;;
  if negb (ok response) then
    if status response =? 429 then
      throw (ErrorObject "Rate limit exceeded (429). Wait and try again.")
    else
      let errorDetails :=
        match text response with
        | Normal errorText =>
            if includes errorText "<!DOCTYPE html" || includes errorText "<html"
            then " (Server returned HTML error page)"
            else ": " ++ substring 0 100 errorText
        | Throw _ => EmptyString
        end in
      throw (ErrorObject ("API request failed: " ++ numberToString (status response)
                          ++ " " ++ statusText response ++ errorDetails))
  else
    let isJson :=
      match contentType response with
      | Some ct => negb (String.eqb ct EmptyString) && includes ct "application/json"
      | None => false
      end in
    if negb isJson then
      responseText <- await (text response) ;;
      throw (ErrorObject ("Expected JSON response but got "
                          ++ match contentType response with Some ct => ct | None => "null" end
                          ++ ". Response: " ++ substring 0 100 responseText ++ "..."))
    else
      await (parsed response).

Definition getTableMetadata (tableId lang : string)
    (w : Clock) (f : FetchOutcome Dataset) : Op Dataset :=
  makeRequest w f.

(* ================================================================== *)
(** * Name and value translation *)
(* ================================================================== *)

Definition Selection : Type := object (list string).

Definition variableMapping : object string :=
  [ ("år", "Tid"); ("månad", "Tid"); ("kön", "Kon"); ("ålder", "Alder");
    ("län", "Region"); ("kommun", "Region"); ("utbildning", "UtbildningsNiva");
    ("sysselsättning", "Sysselsattning"); ("inkomst", "Inkomst");
    ("familjetyp", "Familjetyp"); ("civilstånd", "Civilstand");
    ("year", "Tid"); ("time", "Tid"); ("month", "Tid"); ("sex", "Kon");
    ("gender", "Kon"); ("age", "Alder"); ("county", "Region");
    ("municipality", "Region"); ("education", "UtbildningsNiva");
    ("employment", "Sysselsattning"); ("income", "Inkomst");
    ("family_type", "Familjetyp"); ("marital_status", "Civilstand");
    ("region", "Region"); ("alder", "Alder"); ("kon", "Kon"); ("tid", "Tid");
    ("utbildningsniva", "UtbildningsNiva"); ("sysselsattning", "Sysselsattning");
    ("civilstand", "Civilstand"); ("contentscode", "ContentsCode");
    ("observations", "ContentsCode"); ("contents", "ContentsCode") ].

(** [variableMapping[key] || variableMapping[key.toLowerCase()] || key], as
    the property key it is then used for.  A key that names a member of
    [Object.prototype], as it is or in lower case, finds that member, and
    the property key is the text of the function. *)
Definition mappedKey (key : string) : string :=
  toText (orValue (read variableMapping key)
                  (orValue (read variableMapping (toLowerCase key)) (Text key))).

(** The key assigned to is never [__proto__] (lemma
    [mappedKey_not_inherited]), so the assignment adds or replaces a
    property. *)
Definition translateCommonVariables (selection : Selection) (lang : string) : Selection :=
  fold_left (fun translatedSelection '(key, values) =>
               set translatedSelection (mappedKey key) values)
            (entries selection) [].

Definition valueMapping : object (object string) :=
  [ ("Alder", [ ("total", "tot"); ("all", "tot"); ("totalt", "tot"); ("totals", "TotSA") ]);
    ("Tid",   [ ("latest", "2024"); ("recent", "2024"); ("current", "2024") ]);
    ("Kon",   [ ("total", "tot"); ("all", "tot"); ("male", "1"); ("female", "2");
                ("men", "1"); ("women", "2"); ("man", "1"); ("woman", "2") ]);
    ("*",     [ ("total", "tot"); ("all", "*"); ("totalt", "tot"); ("alla", "*") ]) ].

(** [m && m[k]] as a condition, and the value it then returns: a missing
    table, a missing entry and an empty string are all falsy; an inherited
    member is truthy. *)
Definition truthyEntry (m : option (object string)) (k : string) : option Value :=
  match m with
  | Some table =>
      match read table k with
      | Some (Text v) => if String.eqb v EmptyString then None else Some (Text v)
      | Some (Inherited member) => Some (Inherited member)
      | None => None
      end
  | None => None
  end.

(** [/^\d{4}$/] *)
Definition matchesYear (s : string) : bool :=
  match s with
  | String a (String b (String c (String d EmptyString))) =>
      isDigit a && isDigit b && isDigit c && isDigit d
  | _ => false
  end.

(** [/^\d{4}-\d{2}$/] *)
Definition matchesYearMonth (s : string) : bool :=
  match s with
  | String a (String b (String c (String d (String h (String e (String f EmptyString)))))) =>
      isDigit a && isDigit b && isDigit c && isDigit d
      && Ascii.eqb h "-" && isDigit e && isDigit f
  | _ => false
  end.

(** The callback of [values.map] in [translateCommonValues], on a string.
    [valueMapping[variableName]] is read as an own property: the method is
    private, and the variable names the client passes to it are keys of a
    translated selection, none of which names a member of
    [Object.prototype] (lemma [mappedKey_not_inherited]). *)
Definition translateText (variableName value : string) : Value :=
  match truthyEntry (get valueMapping variableName) (toLowerCase value) with
  | Some v => v
  | None =>
      match truthyEntry (get valueMapping "*") (toLowerCase value) with
      | Some v => v
      | None =>
          if String.eqb variableName "Tid" && matchesYear value then Text value
          else if String.eqb variableName "Tid" && matchesYearMonth value
               then Text (replaceFirst "-" "M" value)
               else Text value
      end
  end.

(** The callback on whatever the list holds.  Its first use of the value is
    [value.toLowerCase()] (the general table is always there), a method
    only a string has. *)
Definition translateValue (variableName : string) (value : Value) : completion Value :=
  match value with
  | Text s => Normal (translateText variableName s)
  | Inherited _ => Throw (ErrorObject "value.toLowerCase is not a function")
  end.

Definition translateCommonValues (values : list Value) (variableName : string)
    : completion (list Value) :=
  mapM (translateValue variableName) values.

(** The codes the name table translates to, and the tables of the value
    mapping. *)
Definition canonicalCodes : list string := map snd variableMapping.
Definition valueTables : list (object string) := map snd valueMapping.

(** A value no table has an entry for (under its lower-case form) and that
    is not of the form YYYY-MM: translation leaves it as it is under every
    variable name (lemma [settled_fixed]). *)
Definition settled (v : string) : bool :=
  forallb (fun table => match truthyEntry (Some table) (toLowerCase v) with
                        | Some _ => false
                        | None => true
                        end) valueTables
  && negb (matchesYearMonth v).

(** A selection as [validateSelection] holds it after translation: the
    value lists are those the value translation returned. *)
Definition Translated : Type := object (list Value).

(** A selection of strings, as a selection of values. *)
Definition asTranslated (selection : Selection) : Translated :=
  map (fun '(key, values) => (key, map Text values)) selection.

(* ================================================================== *)
(** * Selection validation *)
(* ================================================================== *)

Record ValidationResult : Type := mkValidationResult {
  isValid : bool;
  errors : list string;
  suggestions : list string;
  translatedSelection : option Translated
}.

(** The double quote character, and a string between double quotes. *)
Definition dquote : string := String (ascii_of_nat 34) EmptyString.
Definition quoted (s : string) : string := dquote ++ s ++ dquote.

(** The line feed of a template literal. *)
Definition newline : string := String (ascii_of_nat 10) EmptyString.

(** [xs.push(x)] *)
Definition push {A} (xs : list A) (x : A) : list A := app xs [x].

(** The messages gathered so far: [errors] and [suggestions], each in the
    order of its [push] calls. *)
Definition Messages : Type := (list string * list string)%type.

(** [availableVariables.filter(v => !selectedVariables.includes(v))] *)
Definition missingVariables (availableVariables selectedVariables : list string) : list string :=
  filter (fun varName => negb (arrayIncludes selectedVariables varName)) availableVariables.

Definition checkMissing (missing : list string) (m : Messages) : Messages :=
  let '(errors, suggestions) := m in
  match missing with
  | [] => m
  | first :: _ =>
      (push errors ("Missing mandatory variables: " ++ join ", " missing),
       push (push suggestions
               ("SCB tables require all dimensions to be specified. Add these variables to your selection: "
                ++ join ", " missing))
            ("Use " ++ quoted "*" ++ " as value to select all values for a dimension, e.g. {"
             ++ quoted first ++ ": [" ++ quoted "*" ++ "]}"))
  end.

(** The body of the loop over the values of one known variable, on a
    string. *)
Definition checkText (tableId varCode : string) (availableValues : list string)
    (m : Messages) (value : string) : Messages :=
  let '(errors, suggestions) := m in
  if String.eqb value "*" || startsWith value "TOP(" || startsWith value "BOTTOM("
     || startsWith value "RANGE("
  then m
  else if negb (arrayIncludes availableValues value) then
    let similarValues :=
      firstn 3 (filter (fun v => includes (toLowerCase v) (toLowerCase value))
                       availableValues) in
    (push errors ("Value " ++ quoted value ++ " not found for variable " ++ quoted varCode),
     push suggestions
       (match similarValues with
        | _ :: _ => "For " ++ quoted varCode ++ ", did you mean: "
                    ++ join ", " similarValues ++ "?"
        | [] => "Use scb_get_table_variables with tableId=" ++ quoted tableId
                ++ " and variableName=" ++ quoted varCode ++ " to see all values"
        end))
  else m.

(** The body of that loop on whatever the list holds: a value that is no
    string is not ["*"], and has no [startsWith] to call. *)
Definition checkValue (tableId varCode : string) (availableValues : list string)
    (m : Messages) (value : Value) : completion Messages :=
  match value with
  | Text s => Normal (checkText tableId varCode availableValues m s)
  | Inherited _ => Throw (ErrorObject "value.startsWith is not a function")
  end.

(** The body of the loop over the entries of the translated selection.
    [dimension[varCode]] is found exactly when [availableVariables] includes
    [varCode] (lemma [get_keys_includes]), and [dimension[v]] for an
    enumerated key [v] is that entry's definition. *)
Definition checkVariable (tableId : string) (dimension : object Dimension)
    (m : Messages) (entry : string * list Value) : completion Messages :=
  let '(varCode, values) := entry in
  let '(errors, suggestions) := m in
  let availableVariables := keys dimension in
  match get dimension varCode with
  | None =>
      let similar :=
        map fst
          (filter (fun '(v, def) =>
                     includes (toLowerCase v) (toLowerCase varCode)
                     || includes (toLowerCase (dim_label def)) (toLowerCase varCode))
                  (entries dimension)) in
      Normal
        (push errors ("Variable " ++ quoted varCode ++ " not found in table"),
         push suggestions
           (match similar with
            | _ :: _ => "Did you mean: " ++ join ", " (map quoted similar) ++ "?"
            | [] => "Available variables: " ++ join ", " availableVariables
            end))
  | Some varDef =>
      let availableValues := keys (index (category varDef)) in
      foldM (checkValue tableId varCode availableValues) values m
  end.

(** The part of [validateSelection] after the metadata has arrived with its
    dimensions. *)
Definition checkSelection (tableId : string) (dimension : object Dimension)
    (translated : Translated) : completion ValidationResult :=
  let availableVariables := keys dimension in
  let selectedVariables := keys translated in
  let missing := missingVariables availableVariables selectedVariables in
  let m0 := checkMissing missing ([], []) in
  match foldM (checkVariable tableId dimension) (entries translated) m0 with
  | Normal (errors, suggestions) =>
      Normal {| isValid := (List.length errors =? 0)%nat;
                errors := errors;
                suggestions := suggestions;
                translatedSelection := Some translated |}
  | Throw e => Throw e
  end.

(** Translation of the names, then of each value list under its translated
    name: the first lines of [validateSelection]. *)
Definition resolveSelection (selection : Selection) (lang : string) : completion Translated :=
  foldM (fun finalSelection '(varName, values) =>
           match translateCommonValues (map Text values) varName with
           | Normal translatedValues => Normal (set finalSelection varName translatedValues)
           | Throw e => Throw e
           end)
        (entries (translateCommonVariables selection lang)) [].

Definition validateBody (tableId : string) (selection : Selection) (lang : string)
    (w : Clock) (f : FetchOutcome Dataset) : Op ValidationResult :=
  translated <- local (resolveSelection selection lang) ;;
  metadata <- getTableMetadata tableId lang w f ;;
  match dimension metadata with
  | None =>
      ret {| isValid := false;
             errors := ["Table metadata not available for validation"];
             suggestions := ["Try using scb_get_table_info first"];
             translatedSelection := None |}
  | Some dims => local (checkSelection tableId dims translated)
  end.

(** The result the [catch] clause of [validateSelection] returns. *)
Definition caught (error : thrown) : ValidationResult :=
  {| isValid := false;
     errors := ["Validation failed: " ++ describe error];
     suggestions := ["Try checking if the table ID is correct with scb_get_table_info"];
     translatedSelection := None |}.

Definition validateSelection (tableId : string) (selection : Selection) (lang : string)
    (w : Clock) (f : FetchOutcome Dataset) : Op ValidationResult :=
  tryCatch (validateBody tableId selection lang w f)
    (fun error => ret (caught error)).

(** No value of a variable of the table is other than a string: the value
    loop of [validateSelection] then runs to its end. *)
Definition checkable (dimension : object Dimension) (translated : Translated) : bool :=
  forallb (fun '(varCode, values) =>
             negb (arrayIncludes (keys dimension) varCode) || forallb isText values)
          translated.

(** The message of a 400 answer to the data request: a diagnosis read off
    the response text, followed by its troubleshooting tips. *)
Definition badRequestMessage (errorBody : completion string) : string :=
  let '(errorMessage, troubleshootingTips) :=
    match errorBody with
    | Normal errorText =>
        let lower := toLowerCase errorText in
        if includes lower "variable" || includes lower "variablecode" then
          ("Invalid variable name or code in selection",
           [ "Use scb_get_table_variables to see all available variable names";
             "Check that variable names match exactly (case-sensitive)";
             "Try scb_test_selection to validate your selection first" ])
        else if includes lower "value" || includes lower "valuecode" then
          ("Invalid variable values in selection",
           [ "Use scb_get_table_variables with variableName to see valid values";
             "For time data, try formats like " ++ quoted "2024" ++ " or "
               ++ quoted "2024M12" ++ " for monthly";
             "For regions, verify codes with scb_find_region_code" ])
        else if includes lower "selection" then
          ("Invalid selection format or syntax",
           [ "Use format: {" ++ quoted "VariableName" ++ ": [" ++ quoted "value1" ++ ", "
               ++ quoted "value2" ++ "]}";
             "Ensure variable names use proper case (e.g., " ++ quoted "Region" ++ ", not "
               ++ quoted "region" ++ ")";
             "Test your selection with scb_test_selection first" ])
        else if includes lower "time" || includes lower "date" then
          ("Invalid time/date format in selection",
           [ "For annual data, use " ++ quoted "2024";
             "For monthly data, use " ++ quoted "2024M12" ++ " format";
             "Check available time values with scb_get_table_variables" ])
        else
          ("Bad request (400): " ++ substring 0 150 errorText,
           [ "Use scb_test_selection to validate your selection";
             "Check variable names and values with scb_get_table_variables" ])
    | Throw _ =>
        ("Bad request (400) - Could not parse error details",
         [ "Use scb_test_selection to validate your selection";
           "Check the table and selection format" ])
    end in
  match troubleshootingTips with
  | _ :: _ =>
      errorMessage ++ newline ++ newline ++ "Troubleshooting suggestions:" ++ newline
      ++ join newline (map (fun tip => "• " ++ tip) troubleshootingTips)
  | [] => errorMessage
  end.

(** The reading of the POST response in [getTableData], after the call has
    been recorded. *)
Definition readDataResponse (response : Response Dataset) : Op Dataset :=
  fun c =>
    if negb (ok response) then
      if status response =? 429 then
        throw (ErrorObject "Rate limit exceeded (429). Wait and try again.") c
      else if status response =? 403 then
        let limit :=
          match rateLimitInfo c with
          | Some info => if maxCalls info =? 0 then "unknown" else numberToString (maxCalls info)
          | None => "unknown"
          end in
        throw (ErrorObject ("Request forbidden (403). The query may result in too many data cells (limit: "
                            ++ limit ++ "). Try using more specific selections.")) c
      else if status response =? 400 then
        throw (ErrorObject (badRequestMessage (text response))) c
      else
        throw (ErrorObject ("API request failed: " ++ numberToString (status response)
                            ++ " " ++ statusText response)) c
    else
      await (parsed response) c.

(** [getTableData].  With no selection it is [makeRequest].  With one, the
    selection is validated (one metered metadata request, observing [wv]
    and [fv]); a valid selection leads to the admission check, the POST of
    the translated selection (observing [wd] and [fd]), and the recording of
    the call. *)
Definition getTableData (tableId : string) (selection : option Selection) (lang : string)
    (wv : Clock) (fv : FetchOutcome Dataset)
    (wd : Clock) (fd : FetchOutcome Dataset) : Op Dataset :=
  match selection with
  | None => makeRequest wd fd
  | Some sel =>
      validation <- validateSelection tableId sel lang wv fv ;;
      if negb (isValid validation) then
        throw (ErrorObject
                 ("Selection validation failed:" ++ newline ++ join newline (errors validation)
                  ++ match suggestions validation with
                     | _ :: _ => newline ++ newline ++ "Suggestions:" ++ newline
                                 ++ join newline (suggestions validation)
                     | [] => EmptyString
                     end))
      else
        checkRateLimit wd ;;;
        response <- awaitFetch fd ;;
        modify recordCall ;;;
        readDataResponse response
  end.

(* ================================================================== *)
(** * Decoding a JSON-stat2 dataset into records *)
(* ================================================================== *)

(** The values a record field holds. *)
Inductive jsval : Type :=
| JUndefined
| JString (s : string)
| JNumber (n : number).

Definition JsRecord : Type := object jsval.

Definition nameMapping : object string :=
  [ ("Region", "region"); ("Alder", "age"); ("Kon", "sex"); ("Tid", "year");
    ("UtbildningsNiva", "education_level"); ("ContentsCode", "observation_type");
    ("Sysselsattning", "employment_status"); ("Civilstand", "marital_status");
    ("Familjetyp", "family_type") ].

Definition getDimensionBaseName (dimName : string) : string :=
  orElse (get nameMapping dimName) (toLowerCase dimName).

(** The running [temp] of the index computation is a natural number, or
    [None] once a division by a zero size has made it [NaN] or [Infinity]
    (both stay non-finite under [%] and [Math.floor(_ / _)], and index an
    array to [undefined]). *)
Definition jsMod (temp : option nat) (dimSize : nat) : option nat :=
  match temp with
  | Some t => if (dimSize =? 0)%nat then None else Some (t mod dimSize)%nat
  | None => None
  end.

Definition jsFloorDiv (temp : option nat) (dimSize : nat) : option nat :=
  match temp with
  | Some t => if (dimSize =? 0)%nat then None else Some (t / dimSize)%nat
  | None => None
  end.

Definition ofCode (code : option string) : jsval :=
  match code with
  | Some c => JString c
  | None => JUndefined
  end.

(** [dimDef.category.label ? dimDef.category.label[code] : code]; an
    [undefined] code used as a key is the key ["undefined"]. *)
Definition labelOf (dimDef : Dimension) (code : option string) : option string :=
  match cat_label (category dimDef) with
  | Some labels => get labels (match code with Some c => c | None => "undefined" end)
  | None => code
  end.

(** [label || code] *)
Definition labelOrCode (label code : option string) : jsval :=
  match label with
  | Some l => if String.eqb l EmptyString then ofCode code else JString l
  | None => ofCode code
  end.

(** The two assignments at the end of the loop body. *)
Definition writeDimension (dimName : string) (dimDef : Dimension)
    (code : option string) (record : JsRecord) : JsRecord :=
  let label := labelOf dimDef code in
  let baseName := getDimensionBaseName dimName in
  set (set record (baseName ++ "_code") (ofCode code))
      (baseName ++ "_name") (labelOrCode label code).

(** One turn of the loop [for (let i = dimensions.length - 1; i >= 0; i--)],
    on [dimensions[i]] and [dimensionSizes[i]]. *)
Definition decodeStep (st : option nat * JsRecord)
    (d : (string * Dimension) * nat) : option nat * JsRecord :=
  let '(temp, record) := st in
  let '((dimName, dimDef), dimSize) := d in
  let dimIndex := jsMod temp dimSize in
  let codes := keys (index (category dimDef)) in
  let code :=
    match dimIndex with
    | Some k => nth_error codes k
    | None => None
    end in
  (jsFloorDiv temp dimSize, writeDimension dimName dimDef code record).

Definition dimensionSizes (dimensions : list (string * Dimension)) : list nat :=
  map (fun '(_, dimDef) => List.length (keys (index (category dimDef)))) dimensions.

(** The callback of [value.forEach] for a non-null value. *)
Definition decodeRecord (dimensions : list (string * Dimension))
    (flatIndex : nat) (v : number) : JsRecord :=
  let '(_, record) :=
    fold_left decodeStep
              (rev (combine dimensions (dimensionSizes dimensions)))
              (Some flatIndex, []) in
  set record "value" (JNumber v).

(** [value.forEach((value, flatIndex) => ...)] from index [flatIndex] on:
    the records pushed, in the order they are pushed. *)
Fixpoint decodeFrom (dimensions : list (string * Dimension))
    (flatIndex : nat) (values : list (option number)) : list JsRecord :=
  match values with
  | [] => []
  | None :: rest => decodeFrom dimensions (S flatIndex) rest
  | Some v :: rest =>
      decodeRecord dimensions flatIndex v :: decodeFrom dimensions (S flatIndex) rest
  end.

Record Query : Type := mkQuery {
  q_selection : option Selection;
  table_id : option string;
  requested_at : option string
}.

Record DimensionInfo : Type := mkDimensionInfo {
  di_name : string;
  di_label : string;
  values_count : nat
}.

Record Metadata : Type := mkMetadata {
  md_source : string;
  md_updated : option string;
  table_name : string;
  data_shape : option (list Z);
  md_dimensions : option (list DimensionInfo)
}.

Record Summary : Type := mkSummary {
  total_records : nat;
  non_null_records : option nat;
  total_value : option number;
  has_data : bool
}.

Record StructuredData : Type := mkStructuredData {
  query : Query;
  data : list JsRecord;
  metadata : Metadata;
  summary : Summary
}.

(** [record.value || 0]; the decoder stores a number under [value]. *)
Definition valueOrZero (record : JsRecord) : number :=
  match get record "value" with
  | Some (JNumber n) => if falsyNumber n then 0%float else n
  | _ => 0%float
  end.

(** [r.value !== null && r.value !== undefined] *)
Definition hasValue (record : JsRecord) : bool :=
  match get record "value" with
  | Some JUndefined | None => false
  | Some _ => true
  end.

(** [requestedAt] is [new Date().toISOString()] at the time of the call. *)
Definition transformToStructuredData (jsonStat2Data : Dataset)
    (selection : option Selection) (requestedAt : string) : completion StructuredData :=
  match value jsonStat2Data, dimension jsonStat2Data with
  | Some values, Some dimensionObject =>
      let dimensions := entries dimensionObject in
      let records := decodeFrom dimensions 0 values in
      let totalRecords := List.length records in
      let totalValue :=
        fold_left (fun sum record => (sum + valueOrZero record)%float) records 0%float in
      let nonNullRecords := filter hasValue records in
      Normal
        {| query := {| q_selection := Some match selection with Some s => s | None => [] end;
                       table_id := match id jsonStat2Data with
                                   | Some ids => nth_error ids 0
                                   | None => None
                                   end;
                       requested_at := Some requestedAt |};
           data := records;
           metadata := {| md_source := orElse (source jsonStat2Data) "Statistics Sweden";
                          md_updated := updated jsonStat2Data;
                          table_name := label jsonStat2Data;
                          data_shape := Some (size jsonStat2Data);
                          md_dimensions :=
                            Some (map (fun '(name, def) =>
                                         {| di_name := name;
                                            di_label := dim_label def;
                                            values_count := List.length (keys (index (category def))) |})
                                      dimensions) |};
           summary := {| total_records := totalRecords;
                         non_null_records := Some (List.length nonNullRecords);
                         total_value := Some totalValue;
                         has_data := (0 <? totalRecords)%nat |} |}
  | _, _ =>
      Normal
        {| query := {| q_selection := selection; table_id := None; requested_at := None |};
           data := [];
           metadata := {| md_source := orElse (source jsonStat2Data) "Statistics Sweden";
                          md_updated := updated jsonStat2Data;
                          table_name := label jsonStat2Data;
                          data_shape := None;
                          md_dimensions := None |};
           summary := {| total_records := 0;
                         non_null_records := None;
                         total_value := None;
                         has_data := false |} |}
  end.

(* ------------------------------------------------------------------ *)
(** ** Mixed-radix positions, stated independently of the loop *)
(* ------------------------------------------------------------------ *)

Definition product (sizes : list nat) : nat := fold_right Nat.mul 1%nat sizes.

(** The weight of dimension [i]: the product of the sizes of the dimensions
    after it (the last dimension has weight 1 and varies fastest). *)
Definition stride (sizes : list nat) (i : nat) : nat := product (skipn (S i) sizes).

(** The coordinate of flat index [f] along dimension [i]. *)
Definition coordinate (sizes : list nat) (i f : nat) : nat :=
  ((f / stride sizes i) mod nth i sizes 1)%nat.

(** The flat index of a tuple of coordinates, one per dimension. *)
Fixpoint encode (sizes coords : list nat) : nat :=
  match sizes, coords with
  | _ :: sizes', c :: coords' => (c * product sizes' + encode sizes' coords')%nat
  | _, _ => 0%nat
  end.

(** The code of dimension [i] at flat index [f]. *)
Definition codeAt (dimensions : list (string * Dimension)) (i f : nat) : option string :=
  match nth_error dimensions i with
  | Some (_, dimDef) =>
      nth_error (keys (index (category dimDef)))
                (coordinate (dimensionSizes dimensions) i f)
  | None => None
  end.

(** What dimension [i] writes into the record of flat index [f]: the code
    at its coordinate and the name of that code. *)
Definition writeAt (dimensions : list (string * Dimension)) (f : nat)
    (record : JsRecord) (i : nat) : JsRecord :=
  match nth_error dimensions i with
  | Some (dimName, dimDef) => writeDimension dimName dimDef (codeAt dimensions i f) record
  | None => record
  end.

(** The record of flat index [f]: the writes of the dimensions from last to
    first, then the value. *)
Definition recordAt (dimensions : list (string * Dimension)) (f : nat) (v : number) : JsRecord :=
  set (fold_left (writeAt dimensions f) (rev (seq 0 (List.length dimensions))) [])
      "value" (JNumber v).

(** The non-null entries of the flat array with their indices, ascending. *)
Fixpoint nonNullFrom (flatIndex : nat) (values : list (option number))
    : list (nat * number) :=
  match values with
  | [] => []
  | None :: rest => nonNullFrom (S flatIndex) rest
  | Some v :: rest => (flatIndex, v) :: nonNullFrom (S flatIndex) rest
  end.

(* ================================================================== *)
(** * Histories of the usage window *)
(* ================================================================== *)

(** What happens to the window: an admission check ([checkRateLimit], with
    what it observes of the world) or the recording of a dispatched call
    ([requestCount++]).  An event is a whole check.  A check that finds the
    limits known runs without interruption, so such checks and recordings
    interleave as histories do.  The first check awaits the config answer
    before it goes on; a history describes it when no other check starts
    in between, as is the case when the calls run one after the other. *)
Inductive Event : Type :=
| AdmissionCheck (w : Clock)
| CallRecorded.

Definition step (c : Client) (ev : Event) : Client :=
  match ev with
  | AdmissionCheck w => snd (checkRateLimit w c)
  | CallRecorded => recordCall c
  end.

Definition run (evs : list Event) (c : Client) : Client := fold_left step evs c.

Definition admits (w : Clock) (c : Client) : bool :=
  match fst (checkRateLimit w c) with
  | Normal _ => true
  | Throw _ => false
  end.

(** Histories in which the client's calls run one at a time, as
    [makeRequest] and [getTableData] are written: a call is recorded only
    directly after the admission check that admitted it. *)
Inductive sequential : Client -> list Event -> Prop :=
| sequential_nil : forall c, sequential c []
| sequential_check : forall c w evs,
    sequential (step c (AdmissionCheck w)) evs ->
    sequential c (AdmissionCheck w :: evs)
| sequential_call : forall c w evs,
    admits w c = true ->
    sequential (recordCall (step c (AdmissionCheck w))) evs ->
    sequential c (AdmissionCheck w :: CallRecorded :: evs).

(** The capacity a config answer advertises is not negative. *)
Definition capacityNonNegative (ev : Event) : Prop :=
  match ev with
  | AdmissionCheck w =>
      match configFetch w with
      | ConfigParsed maxCallsPerTimeWindow _ => 0 <= maxCallsPerTimeWindow
      | _ => True
      end
  | CallRecorded => True
  end.

(** [used <= capacity]; before the limits are known nothing has been used. *)
Definition withinQuota (c : Client) : Prop :=
  match rateLimitInfo c with
  | Some info => 0 <= requestCount c <= maxCalls info
  | None => requestCount c = 0
  end.

(** [resetTime] is [windowStartTime] plus [timeWindow] seconds. *)
Definition windowAligned (c : Client) : Prop :=
  match rateLimitInfo c with
  | Some info => resetTime info = windowStartTime c + timeWindow info * 1000
  | None => True
  end.

(** The client as [checkRateLimit] sees it once the limits are known. *)
Definition afterInit (w : Clock) (c : Client) : Client :=
  match rateLimitInfo c with
  | None => initializeRateLimit (configFetch w) (initNow w) c
  | Some _ => c
  end.

(** The history one metered request leaves: its admission check, and the
    recording of the call when the check admitted it and the transport
    answered. *)
Definition historyOf {T} (w : Clock) (f : FetchOutcome T) (c : Client) : list Event :=
  match admits w c, f with
  | true, Resolved _ => [AdmissionCheck w; CallRecorded]
  | _, _ => [AdmissionCheck w]
  end.

(** The public operations that consume quota, each with what it observes of
    the world.  [getConfig], [getNavigation], [searchTables] and
    [getTableMetadata] are [makeRequest] on an endpoint. *)
Inductive Call : Type :=
| RequestCall (T : Type) (w : Clock) (f : FetchOutcome T)
| ValidateCall (tableId : string) (selection : Selection) (lang : string)
    (w : Clock) (f : FetchOutcome Dataset)
| DataCall (tableId : string) (selection : option Selection) (lang : string)
    (wv : Clock) (fv : FetchOutcome Dataset) (wd : Clock) (fd : FetchOutcome Dataset).

(** The client after a call that is run to its end before the next one
    starts. *)
Definition perform (c : Client) (call : Call) : Client :=
  match call with
  | RequestCall T w f => snd (makeRequest w f c)
  | ValidateCall tableId selection lang w f =>
      snd (validateSelection tableId selection lang w f c)
  | DataCall tableId selection lang wv fv wd fd =>
      snd (getTableData tableId selection lang wv fv wd fd c)
  end.

Definition clocksNonNegative (call : Call) : Prop :=
  match call with
  | RequestCall _ w _ => capacityNonNegative (AdmissionCheck w)
  | ValidateCall _ _ _ w _ => capacityNonNegative (AdmissionCheck w)
  | DataCall _ _ _ wv _ wd _ =>
      capacityNonNegative (AdmissionCheck wv) /\ capacityNonNegative (AdmissionCheck wd)
  end.

(** [n] overlapping calls of [makeRequest]: all admission checks are made
    before the first call is recorded. *)
Definition overlappingCalls (n : nat) (w : Clock) : list Event :=
  (repeat (AdmissionCheck w) n ++ repeat CallRecorded n)%list.



(* ================================================================== *)
(** * Concrete clients, histories and payloads used in the examples *)
(* ================================================================== *)

(** The config request fails and the fallback limits (30 calls per 10
    seconds) apply; everything happens at time 0. *)
Definition fallbackClock : Clock :=
  {| configFetch := ConfigThrows; initNow := 0; checkNow := 0 |}.

(** A first call run to its end on a fresh client, which makes the limits
    known, then 30 overlapping calls. *)
Definition overlappingHistory : list Event :=
  AdmissionCheck fallbackClock :: CallRecorded :: overlappingCalls 30 fallbackClock.
Definition overlapped : Client := run overlappingHistory (newClient 0).

(** A client constructed at time 0 whose first admission check happens five
    seconds later. *)
Definition lateFallbackClock : Clock :=
  {| configFetch := ConfigThrows; initNow := 5000; checkNow := 5000 |}.
Definition lateServerClock : Clock :=
  {| configFetch := ConfigParsed 30 10; initNow := 5000; checkNow := 5000 |}.

(** Two calls one after the other, the second after the window elapsed. *)
Definition twoCalls : list Event :=
  [ AdmissionCheck fallbackClock; CallRecorded;
    AdmissionCheck {| configFetch := ConfigThrows; initNow := 0; checkNow := 12000 |};
    CallRecorded ].

(** A request for region 0180 in a table, and a transport that fails. *)
Definition regionSelection : Selection := [ ("region", ["0180"]) ].
Definition networkDown : FetchOutcome Dataset :=
  Rejected (ErrorObject "request to https://api.scb.se failed").

(** Two informal names of the same dimension in one selection. *)
Definition countyAndMunicipality : Selection :=
  [ ("county", ["01"]); ("municipality", ["0180"; "1480"]) ].

(** The table of the specification's examples: regions 1484 and 0180,
    years 2023 and 2024. *)
Definition regionDimension : Dimension :=
  {| dim_label := "region";
     category := {| index := [("1484", 0); ("0180", 1)];
                    cat_label := Some [("1484", "Lysekil"); ("0180", "Stockholm")] |} |}.

Definition tidDimension : Dimension :=
  {| dim_label := "year";
     category := {| index := [("2023", 0); ("2024", 1)];
                    cat_label := Some [("2023", "2023"); ("2024", "2024")] |} |}.

Definition exampleDimensions : object Dimension :=
  [ ("Region", regionDimension); ("Tid", tidDimension) ].

Definition exampleMetadata : Dataset :=
  {| id := Some ["TAB638"]; label := "Population"; source := None; updated := None;
     size := [2; 2]; dimension := Some exampleDimensions; value := None |}.

Definition jsonResponse (body : completion Dataset) : FetchOutcome Dataset :=
  Resolved {| ok := true; status := 200; statusText := "OK";
              contentType := Some "application/json; charset=utf-8";
              text := Normal "{}"; parsed := body |}.

Definition metadataArrives : FetchOutcome Dataset := jsonResponse (Normal exampleMetadata).

(** The selection of the specification's validation example. *)
Definition unknownRegion : Selection := [ ("region", ["9999"]) ].

(** A complete selection with informal names and values. *)
Definition completeSelection : Selection :=
  [ ("municipality", ["0180"]); ("year", ["all"]) ].

(** The payload of the specification's decoding example, and two payloads
    over the same dimensions whose value arrays are too long and too
    short. *)
Definition examplePayload : Dataset :=
  {| id := Some ["TAB638"]; label := "Population"; source := None; updated := None;
     size := [2; 2]; dimension := Some exampleDimensions;
     value := Some [Some 10%float; None; Some 30%float; Some 40%float] |}.

Definition tooLongPayload : Dataset :=
  {| id := Some ["TAB638"]; label := "Population"; source := None; updated := None;
     size := [2; 2]; dimension := Some exampleDimensions;
     value := Some [Some 10%float; None; Some 30%float; Some 40%float; Some 50%float] |}.

Definition tooShortPayload : Dataset :=
  {| id := Some ["TAB638"]; label := "Population"; source := None; updated := None;
     size := [2; 2]; dimension := Some exampleDimensions;
     value := Some [Some 10%float; None; Some 30%float] |}.



Definition exampleRecord (region regionName year : string) (v : number) : JsRecord :=
  [ ("year_code", JString year); ("year_name", JString year);
    ("region_code", JString region); ("region_name", JString regionName);
    ("value", JNumber v) ].

(** Case analysis on the 256 characters. *)
Ltac each_ascii c :=
  destruct c as [[] [] [] [] [] [] [] []].


(* ================================================================== *)
(** * Further notions: the window *)
(* ================================================================== *)

(** [remaining] is what is left of the capacity. *)
Definition remainingAccurate (c : Client) : Prop :=
  match rateLimitInfo c with
  | Some info => remaining info = maxCalls info - requestCount c
  | None => requestCount c = 0
  end.

(** The limits a client knows: capacity and window length. *)
Definition knownLimits (c : Client) : option (Z * Z) :=
  match rateLimitInfo c with
  | Some info => Some (maxCalls info, timeWindow info)
  | None => None
  end.

(** The clock of the first admission check a call makes. *)
Definition firstClock (call : Call) : Clock :=
  match call with
  | RequestCall _ w _ => w
  | ValidateCall _ _ _ w _ => w
  | DataCall _ (Some _) _ wv _ _ _ => wv
  | DataCall _ None _ _ _ wd _ => wd
  end.

(** Three calls on the example table, one after the other: a validation, a
    data request with a selection, a metadata request. *)
Definition exampleCalls : list Call :=
  [ ValidateCall "TAB638" unknownRegion "en" fallbackClock metadataArrives;
    DataCall "TAB638" (Some completeSelection) "en"
      {| configFetch := ConfigThrows; initNow := 0; checkNow := 100 |} metadataArrives
      {| configFetch := ConfigThrows; initNow := 0; checkNow := 200 |}
      (jsonResponse (Normal examplePayload));
    RequestCall Dataset {| configFetch := ConfigThrows; initNow := 0; checkNow := 300 |}
      networkDown ].

(** A client that has used up the fallback quota in the window that ends at
    time 10000. *)
Definition exhaustedClient : Client :=
  {| rateLimitInfo := Some {| remaining := 0; resetTime := 10000;
                              maxCalls := 30; timeWindow := 10 |};
     requestCount := 30;
     windowStartTime := 0 |}.

Definition midWindowClock : Clock :=
  {| configFetch := ConfigParsed 100 60; initNow := 2500; checkNow := 2500 |}.

(* ================================================================== *)
(** * Further notions: selections *)
(* ================================================================== *)

(** The tokens the validator does not look up: the wildcard and the
    expression forms, recognised by their prefix. *)
Definition isExpression (token : string) : bool :=
  String.eqb token "*" || startsWith token "TOP(" || startsWith token "BOTTOM("
  || startsWith token "RANGE(".

(** A value the validator lets through for a variable with these codes: a
    string that is an expression or one of the codes. *)
Definition acceptableValue (availableValues : list string) (token : Value) : bool :=
  match token with
  | Text s => isExpression s || arrayIncludes availableValues s
  | Inherited _ => false
  end.

(** An entry of a selection the validator lets through: a known variable
    with acceptable values only. *)
Definition acceptableEntry (dimensions : object Dimension) (entry : string * list Value) : Prop :=
  exists varDef,
    get dimensions (fst entry) = Some varDef
    /\ forall token, In token (snd entry) ->
         acceptableValue (keys (index (category varDef))) token = true.

(** The number of errors an entry of the selection gives rise to when the
    value loop runs to its end. *)
Definition entryErrors (dimensions : object Dimension) (entry : string * list Value) : nat :=
  match get dimensions (fst entry) with
  | None => 1%nat
  | Some varDef =>
      List.length (filter (fun token =>
                             negb (acceptableValue (keys (index (category varDef))) token))
                          (snd entry))
  end.

(** The selection that asks for every value of every dimension. *)
Definition wildcardSelection (dimensions : object Dimension) : Selection :=
  map (fun code => (code, ["*"])) (keys dimensions).

(** The keys of a selection with their translations, last entry first. *)
Definition translatedEntries (selection : Selection) : Selection :=
  rev (map (fun '(key, values) => (mappedKey key, values)) selection).

(** A table whose time dimension has the code [year]. *)
Definition yearDimensions : object Dimension :=
  [ ("Region", regionDimension); ("year", tidDimension) ].

(** A selection that uses informal names, a wildcard word, an expression
    and a monthly token. *)
Definition informalSelection : Selection :=
  [ ("Municipality", ["0180"; "TOP(3)"]); ("år", ["Latest"; "2023-07"]);
    ("kommun", ["1484"]) ].

(* ================================================================== *)
(** * Further notions: data requests and decoded summaries *)
(* ================================================================== *)

(** The error [getTableData] throws for a selection that did not
    validate. *)
Definition validationFailure (validation : ValidationResult) : thrown :=
  ErrorObject
    ("Selection validation failed:" ++ newline ++ join newline (errors validation)
     ++ match suggestions validation with
        | _ :: _ => newline ++ newline ++ "Suggestions:" ++ newline
                    ++ join newline (suggestions validation)
        | [] => EmptyString
        end).

(** A payload whose sum is rounded: 2^53, then twice 1. *)
Definition roundingPayload : Dataset :=
  {| id := Some ["TAB638"]; label := "Population"; source := None; updated := None;
     size := [2; 2]; dimension := Some exampleDimensions;
     value := Some [Some 9007199254740992%float; None; Some 1%float; Some 1%float] |}.

(** The non-null entries of the flat array, in order. *)
Definition presentValues (values : list (option number)) : list number :=
  map snd (nonNullFrom 0 values).

(** The coordinates of a flat index, one per dimension, first dimension
    first. *)
Definition coordinates (sizes : list nat) (f : nat) : list nat :=
  map (fun i => coordinate sizes i f) (seq 0 (List.length sizes)).

(* ================================================================== *)
(** * The tool handlers of [src/src/index.ts] (class [SCBMCPServer], the
      last of the class bodies in that file)

    A handler's answer is the text [JSON.stringify] makes of an object;
    the model keeps the object. *)
(* ================================================================== *)

(** [xs.slice(0, end)] for an integer [end]: a negative [end] counts from
    the end of the array. *)
Definition sliceTo {A} (stop : Z) (xs : list A) : list A :=
  let len := Z.of_nat (List.length xs) in
  let final := if stop <? 0 then Z.max (len + stop) 0 else Z.min stop len in
  firstn (Z.to_nat final) xs.


(** ** [handlePreviewData]: the limited selection *)

(** The value list a preview asks for: with a wildcard or a [TOP(] or
    [BOTTOM(] expression among the values, every wildcard becomes [TOP(3)];
    otherwise the first three values. *)
Definition previewValues (values : list string) : list string :=
  if existsb (fun v => String.eqb v "*" || startsWith v "TOP(" || startsWith v "BOTTOM(")
             values
  then map (fun v => if String.eqb v "*" then "TOP(3)" else v) values
  else sliceTo 3 values.

(** [previewSelection] as the handler computes it from [selection]; the
    keys assigned to are those the caller typed. *)
Definition previewSelection (selection : option Selection) : option Selection :=
  match selection with
  | Some sel =>
      Some (fold_left (fun preview '(key, values) => assign preview key (previewValues values))
                      (entries sel) [])
  | None => None
  end.

Inductive PreviewOutcome : Type :=
| PreviewData (structured : StructuredData)
    (original_selection preview_selection : option Selection)
| PreviewFailed (message : string).

Definition handlePreviewData (tableId : string) (selection : option Selection)
    (language : string)
    (wv : Clock) (fv : FetchOutcome Dataset) (wd : Clock) (fd : FetchOutcome Dataset)
    (requestedAt : string) : Op PreviewOutcome :=
  tryCatch
    (let limited := previewSelection selection in
     data <- getTableData tableId limited language wv fv wd fd ;;
     structuredData <- await (transformToStructuredData data limited requestedAt) ;;
     ret (PreviewData structuredData selection limited))
    (fun error => ret (PreviewFailed (describe error))).

(** ** [handleSearchTables] *)

(** An entry of [TablesResponse.tables], with the fields the handler
    reads. *)
Record TableEntry : Type := mkTableEntry {
  te_id : string;
  te_label : string;
  te_description : string;
  te_updated : option string;
  te_firstPeriod : option string;
  te_lastPeriod : option string;
  te_category : option string;
  te_variableNames : option (list string);
  te_source : option string;
  te_discontinued : option bool
}.

Record Page : Type := mkPage {
  pageNumber : Z;
  pageSize : Z;
  totalElements : Z;
  totalPages : Z
}.

Record TablesResponse : Type := mkTablesResponse {
  tables : list TableEntry;
  page : Page
}.

(** The arguments of the search tool the handler reads. *)
Record SearchArgs : Type := mkSearchArgs {
  sa_query : option string;
  sa_category : option string;
  sa_pageSize : option Z;
  sa_language : option string
}.

(** [a || b] for an optional string. *)
Definition truthyString (a : option string) : option string :=
  match a with
  | Some s => if String.eqb s EmptyString then None else Some s
  | None => None
  end.

(** The callback of the category filter. *)
Definition inCategory (categoryLower : string) (table : TableEntry) : bool :=
  let labelLower := toLowerCase (te_label table) in
  let variablesLower :=
    match te_variableNames table with
    | Some names => toLowerCase (join " " names)
    | None => EmptyString
    end in
  if String.eqb categoryLower "population" then
    includes labelLower "population" || includes labelLower "befolkning"
    || includes variablesLower "region" || includes labelLower "demographic"
  else if String.eqb categoryLower "labour" then
    includes labelLower "labour" || includes labelLower "employment"
    || includes labelLower "arbete" || includes labelLower "sysselsättning"
  else if String.eqb categoryLower "economy" then
    includes labelLower "gdp" || includes labelLower "income"
    || includes labelLower "ekonomi" || includes labelLower "bnp"
  else if String.eqb categoryLower "housing" then
    includes labelLower "housing" || includes labelLower "dwelling"
    || includes labelLower "boende" || includes labelLower "lägenhet"
  else true.

Definition filteredTables (args : SearchArgs) (result : TablesResponse) : list TableEntry :=
  match truthyString (sa_category args) with
  | Some category => filter (inCategory (toLowerCase category)) (tables result)
  | None => tables result
  end.

(** [args.pageSize || 20] *)
Definition pageSizeOrDefault (args : SearchArgs) : Z :=
  match sa_pageSize args with
  | Some n => if n =? 0 then 20 else n
  | None => 20
  end.

Definition displayTables (args : SearchArgs) (result : TablesResponse) : list TableEntry :=
  sliceTo (pageSizeOrDefault args) (filteredTables args result).

Record TableSummary : Type := mkTableSummary {
  ts_id : string;
  ts_title : string;
  ts_description : option string;
  ts_period : option string * option string;
  ts_variables : list string;
  ts_updated : option string;
  ts_source : option string;
  ts_discontinued : bool;
  ts_category : option string
}.

Definition summarize (table : TableEntry) : TableSummary :=
  {| ts_id := te_id table;
     ts_title := te_label table;
     ts_description := truthyString (Some (te_description table));
     ts_period := (truthyString (te_firstPeriod table), truthyString (te_lastPeriod table));
     ts_variables := match te_variableNames table with Some names => names | None => [] end;
     ts_updated := truthyString (te_updated table);
     ts_source := truthyString (te_source table);
     ts_discontinued := match te_discontinued table with Some b => b | None => false end;
     ts_category := truthyString (te_category table) |}.

Record SearchQuery : Type := mkSearchQuery {
  search_term : option string;
  category_filter : option string;
  page_size : Z;
  page_number : Z;
  sq_language : string
}.

Record SearchOutput : Type := mkSearchOutput {
  so_query : SearchQuery;
  so_tables : list TableSummary;
  so_pagination : Page;
  total_filtered : nat;
  total_unfiltered : nat;
  has_category_filter : bool
}.

Definition searchOutput (args : SearchArgs) (result : TablesResponse) : SearchOutput :=
  {| so_query := {| search_term := truthyString (sa_query args);
                    category_filter := truthyString (sa_category args);
                    page_size := pageSizeOrDefault args;
                    page_number := pageNumber (page result);
                    sq_language := orElse (sa_language args) "en" |};
     so_tables := map summarize (displayTables args result);
     so_pagination := page result;
     total_filtered := List.length (filteredTables args result);
     total_unfiltered := List.length (tables result);
     has_category_filter := match truthyString (sa_category args) with
                            | Some _ => true
                            | None => false
                            end |}.

(** [searchTables] of the client is [makeRequest] on the [/tables]
    endpoint. *)
Definition handleSearchTables (args : SearchArgs)
    (w : Clock) (f : FetchOutcome TablesResponse) : Op SearchOutput :=
  result <- makeRequest w f ;;
  ret (searchOutput args result).

(** ** [handleFindRegionCode] *)



(** [regionLabels[code] || fallback] *)
Definition regionName (regionLabels : object string) (code fallback : string) : string :=
  orElse (get regionLabels code) fallback.







(** ** [handleGetTableVariables] *)

Record VariableValue : Type := mkVariableValue {
  vv_code : string;
  vv_label : string;
  vv_index : Z
}.

Record VariableInfo : Type := mkVariableInfo {
  variable_code : string;
  variable_name : string;
  variable_type : string;
  total_values : nat;
  sample_values : list VariableValue;
  has_more : bool;
  single_value_example : string
}.

Inductive VariablesOutcome : Type :=
| NoVariableInformation
| VariableNotFound (wanted : option string) (available_variables : list (string * string))
| Variables (table_name : string) (variable_filter : option string)
    (described : list VariableInfo) (total_variables filtered_variables : nat)
| VariablesFailed (message : string).

(** The callback of [filteredVariables.map]. *)
Definition describeVariable (entry : string * Dimension) : VariableInfo :=
  let '(varCode, varDef) := entry in
  let values := entries (index (category varDef)) in
  let labels := match cat_label (category varDef) with Some l => l | None => [] end in
  let allValues :=
    map (fun '(code, position) =>
           {| vv_code := code; vv_label := orElse (get labels code) code;
              vv_index := position |}) values in
  {| variable_code := varCode;
     variable_name := dim_label varDef;
     variable_type := toLowerCase varCode;
     total_values := List.length values;
     sample_values := sliceTo 10 allValues;
     has_more := (10 <? List.length values)%nat;
     single_value_example :=
       orElse (match nth_error values 0 with Some (code, _) => Some code | None => None end)
              "value" |}.

Definition describeVariables (variableName : option string) (metadata : Dataset)
    : VariablesOutcome :=
  match dimension metadata with
  | None => NoVariableInformation
  | Some dims =>
      let variables := entries dims in
      let filteredVariables :=
        match truthyString variableName with
        | Some wanted =>
            filter (fun '(code, def) =>
                      String.eqb (toLowerCase code) (toLowerCase wanted)
                      || includes (toLowerCase (dim_label def)) (toLowerCase wanted))
                   variables
        | None => variables
        end in
      match filteredVariables with
      | [] => VariableNotFound variableName
                (map (fun '(code, def) => (code, dim_label def)) variables)
      | _ :: _ =>
          Variables (label metadata) (truthyString variableName)
            (map describeVariable filteredVariables)
            (List.length variables) (List.length filteredVariables)
      end
  end.

Definition handleGetTableVariables (tableId language : string) (variableName : option string)
    (w : Clock) (f : FetchOutcome Dataset) : Op VariablesOutcome :=
  tryCatch
    (metadata <- getTableMetadata tableId language w f ;;
     ret (describeVariables variableName metadata))
    (fun error => ret (VariablesFailed (describe error))).

(** ** Inputs of the examples *)



Definition populationTable : TableEntry :=
  {| te_id := "TAB638"; te_label := "Population by region"; te_description := EmptyString;
     te_updated := None; te_firstPeriod := Some "1968"; te_lastPeriod := Some "2024";
     te_category := Some "public"; te_variableNames := Some ["Region"; "Tid"];
     te_source := None; te_discontinued := None |}.

Definition labourTable : TableEntry :=
  {| te_id := "TAB1000"; te_label := "Employment rate"; te_description := "Labour force";
     te_updated := None; te_firstPeriod := None; te_lastPeriod := None;
     te_category := None; te_variableNames := Some ["Kon"; "Tid"];
     te_source := None; te_discontinued := Some false |}.

Definition searchAnswer : TablesResponse :=
  {| tables := [populationTable; labourTable; populationTable];
     page := {| pageNumber := 1; pageSize := 20; totalElements := 3; totalPages := 1 |} |}.

(** A valid selection that a preview changes: all municipalities, and
    four years. *)
Definition wideSelection : Selection :=
  [ ("municipality", ["*"]); ("year", ["2023"; "2024"; "2023"; "2024"]) ].

(** A selection to preview: a wildcard, five years, a range. *)
Definition longSelection : Selection :=
  [ ("Region", ["*"; "TOP(2)"]);
    ("Tid", ["2019"; "2020"; "2021"; "2022"; "2023"]);
    ("Alder", ["RANGE(20,64)"; "tot"; "0"; "1"]) ].
(* ================================================================== *)
(** * Properties *)
(* ================================================================== *)

(** ** The usage window *)

Section UsageWindow.

Lemma initializeRateLimit_known : forall cfg t c,
  rateLimitInfo (initializeRateLimit cfg t c) <> None.
Proof.
  intros cfg t c. unfold initializeRateLimit.
  destruct (rateLimitInfo c) eqn:E; [rewrite E; discriminate|].
  destruct cfg; simpl; discriminate.
Qed.

Lemma afterInit_known : forall w c, rateLimitInfo (afterInit w c) <> None.
Proof.
  intros w c. unfold afterInit.
  destruct (rateLimitInfo c) eqn:E; [rewrite E; discriminate|].
  apply initializeRateLimit_known.
Qed.

(** [checkRateLimit] in terms of the state after lazy initialisation. *)
Lemma checkRateLimit_unfold : forall w c info,
  rateLimitInfo (afterInit w c) = Some info ->
  checkRateLimit w c =
    let now := checkNow w in
    let c2 := if resetTime info <=? now then resetWindow now info (afterInit w c)
              else afterInit w c in
    match rateLimitInfo c2 with
    | None => (Throw (ErrorObject "Cannot read properties of null (reading 'maxCalls')"), c2)
    | Some info2 =>
        if maxCalls info2 <=? requestCount c2
        then (Throw (ErrorObject (rateLimitMessage (resetTime info2 - now)
                                    (requestCount c2) (maxCalls info2))), c2)
        else (Normal tt, c2)
    end.
Proof.
  intros w c info H. unfold checkRateLimit. fold (afterInit w c).
  rewrite H. reflexivity.
Qed.

Lemma afterInit_withinQuota : forall w c,
  withinQuota c -> capacityNonNegative (AdmissionCheck w) -> withinQuota (afterInit w c).
Proof.
  intros w c Hq Hcap. unfold afterInit, withinQuota in *.
  destruct (rateLimitInfo c) eqn:E.
  - rewrite E. exact Hq.
  - unfold initializeRateLimit. rewrite E. simpl in *.
    destruct (configFetch w); simpl; lia.
Qed.

Lemma checkRateLimit_withinQuota : forall w c,
  withinQuota c -> capacityNonNegative (AdmissionCheck w) ->
  withinQuota (snd (checkRateLimit w c)).
Proof.
  intros w c Hq Hcap.
  pose proof (afterInit_withinQuota w c Hq Hcap) as Hq1.
  destruct (rateLimitInfo (afterInit w c)) as [info|] eqn:E;
    [|exfalso; eapply afterInit_known; eauto].
  rewrite (checkRateLimit_unfold w c info E). cbv zeta.
  unfold withinQuota in Hq1. rewrite E in Hq1.
  destruct (resetTime info <=? checkNow w).
  - simpl. destruct (maxCalls info <=? 0); simpl; unfold withinQuota; simpl; lia.
  - rewrite E. destruct (maxCalls info <=? requestCount (afterInit w c)); simpl;
      unfold withinQuota; rewrite E; lia.
Qed.

(** An admitted check leaves room for one more call. *)
Lemma admitted_has_room : forall w c,
  withinQuota c -> capacityNonNegative (AdmissionCheck w) -> admits w c = true ->
  withinQuota (recordCall (snd (checkRateLimit w c))).
Proof.
  intros w c Hq Hcap Hadm.
  pose proof (afterInit_withinQuota w c Hq Hcap) as Hq1.
  unfold admits in Hadm.
  destruct (rateLimitInfo (afterInit w c)) as [info|] eqn:E;
    [|exfalso; eapply afterInit_known; eauto].
  rewrite (checkRateLimit_unfold w c info E) in *. cbv zeta in *.
  unfold withinQuota in Hq1. rewrite E in Hq1.
  destruct (resetTime info <=? checkNow w).
  - simpl in *. destruct (maxCalls info <=? 0) eqn:L; simpl in *; [discriminate|].
    unfold withinQuota; simpl. lia.
  - rewrite E in *.
    destruct (maxCalls info <=? requestCount (afterInit w c)) eqn:L; simpl in *;
      [discriminate|].
    unfold withinQuota, recordCall; simpl. rewrite E. simpl. lia.
Qed.

(** In a history in which calls run one at a time the bound holds after
    every event. *)
Lemma sequential_prefix : forall c evs,
  sequential c evs -> withinQuota c -> Forall capacityNonNegative evs ->
  forall pre post, evs = (pre ++ post)%list -> withinQuota (run pre c).
Proof.
  intros c evs Hs.
  induction Hs as [c|c w evs Hs IH|c w evs Hadm Hs IH]; intros Hq Hcap pre post Heq.
  - destruct pre; [exact Hq|discriminate].
  - destruct pre as [|e pre]; [exact Hq|].
    inversion Heq; subst. inversion Hcap; subst. simpl.
    eapply IH; eauto. apply checkRateLimit_withinQuota; assumption.
  - inversion Hcap as [|? ? Hw Hrest]; subst. inversion Hrest; subst.
    destruct pre as [|e pre]; [exact Hq|].
    injection Heq as He Htail; subst e.
    destruct pre as [|e' pre].
    + simpl. apply checkRateLimit_withinQuota; assumption.
    + injection Htail as He' Htail; subst e'. simpl. eapply IH; eauto.
      apply admitted_has_room; assumption.
Qed.

End UsageWindow.

Section UsageWindowClaims.

(** When the window has elapsed at an admission check, the check starts a
    new window before it decides. *)
Lemma checkRateLimit_resets : forall w c info,
  rateLimitInfo (afterInit w c) = Some info ->
  resetTime info <= checkNow w ->
  requestCount (snd (checkRateLimit w c)) = 0
  /\ windowStartTime (snd (checkRateLimit w c)) = checkNow w
  /\ rateLimitInfo (snd (checkRateLimit w c)) =
       Some {| remaining := maxCalls info;
               resetTime := checkNow w + timeWindow info * 1000;
               maxCalls := maxCalls info;
               timeWindow := timeWindow info |}
  /\ (admits w c = true <-> 0 < maxCalls info).
Proof.
  intros w c info E Hle. unfold admits.
  rewrite (checkRateLimit_unfold w c info E). cbv zeta.
  apply Z.leb_le in Hle. rewrite Hle. simpl.
  destruct (maxCalls info <=? 0) eqn:L; simpl; repeat split; try reflexivity;
    try discriminate; intros;
    first [apply Z.leb_le in L | apply Z.leb_gt in L]; lia.
Qed.

(** A check made before [resetTime] leaves the window as it is. *)
Lemma checkRateLimit_keeps : forall w c info,
  rateLimitInfo (afterInit w c) = Some info ->
  checkNow w < resetTime info ->
  snd (checkRateLimit w c) = afterInit w c.
Proof.
  intros w c info E Hlt.
  rewrite (checkRateLimit_unfold w c info E). cbv zeta.
  apply Z.leb_gt in Hlt. rewrite Hlt. rewrite E.
  destruct (maxCalls info <=? requestCount (afterInit w c)); reflexivity.
Qed.

(** C1 (as amended).  In every history in which calls run one at a time
    (each call is recorded directly after the admission check that
    admitted it) and no advertised capacity is negative, [requestCount]
    never exceeds [maxCalls]: the bound holds after every event of the
    history.  And whenever the current time is at or past [resetTime] at
    an admission check, the check first sets [requestCount] to 0,
    [windowStartTime] to now and [resetTime] to now plus [timeWindow]
    seconds, and then decides: it admits exactly when the capacity is
    positive. *)
Theorem quota_respected_when_calls_run_one_at_a_time :
  forall (c : Client) (evs : list Event),
    withinQuota c ->
    Forall capacityNonNegative evs ->
    sequential c evs ->
    (forall pre post, evs = (pre ++ post)%list -> withinQuota (run pre c))
    /\ (forall w info,
          rateLimitInfo (afterInit w (run evs c)) = Some info ->
          resetTime info <= checkNow w ->
          requestCount (step (run evs c) (AdmissionCheck w)) = 0
          /\ windowStartTime (step (run evs c) (AdmissionCheck w)) = checkNow w
          /\ rateLimitInfo (step (run evs c) (AdmissionCheck w)) =
               Some {| remaining := maxCalls info;
                       resetTime := checkNow w + timeWindow info * 1000;
                       maxCalls := maxCalls info;
                       timeWindow := timeWindow info |}
          /\ (admits w (run evs c) = true <-> 0 < maxCalls info)).
Proof.
  intros c evs Hq Hcap Hs. split.
  - intros pre post Heq. eapply sequential_prefix; eauto.
  - intros w info E Hle. simpl. apply checkRateLimit_resets; assumption.
Qed.

Lemma twoCalls_sequential : sequential (newClient 0) twoCalls.
Proof.
  unfold twoCalls.
  apply sequential_call; [reflexivity|].
  apply sequential_call; [reflexivity|].
  apply sequential_nil.
Qed.

Lemma quota_respected_witness :
  withinQuota (run twoCalls (newClient 0))
  /\ requestCount (step (run twoCalls (newClient 0)) (AdmissionCheck
       {| configFetch := ConfigThrows; initNow := 0; checkNow := 30000 |})) = 0.
Proof.
  assert (Hq : withinQuota (newClient 0)) by reflexivity.
  assert (Hcap : Forall capacityNonNegative twoCalls)
    by (repeat constructor).
  destruct (quota_respected_when_calls_run_one_at_a_time
              (newClient 0) twoCalls Hq Hcap twoCalls_sequential) as [Hbound Hreset].
  split.
  - apply (Hbound twoCalls []). reflexivity.
  - eapply (Hreset {| configFetch := ConfigThrows; initNow := 0; checkNow := 30000 |}).
    + reflexivity.
    + simpl. lia.
Defined.

(** C1 (as stated) fails: a first call makes the fallback limits known (30
    calls per window); then 30 calls overlap, their admission checks all
    made, and passed at [requestCount = 1], before any of them is recorded.
    Recording them takes [requestCount] to 31 with [maxCalls] at 30, within
    one window. *)
Lemma overlapping_calls_exceed_quota :
  withinQuota (newClient 0)
  /\ Forall capacityNonNegative overlappingHistory
  /\ Forall (fun ev => match ev with
                       | AdmissionCheck w => checkNow w < 10000
                       | CallRecorded => True
                       end) overlappingHistory
  /\ requestCount overlapped = 31
  /\ option_map maxCalls (rateLimitInfo overlapped) = Some 30
  /\ ~ withinQuota overlapped.
Proof.
  assert (Hall : forall P : Event -> Prop,
             P (AdmissionCheck fallbackClock) -> P CallRecorded ->
             Forall P overlappingHistory).
  { intros P Hc Hr. unfold overlappingHistory, overlappingCalls.
    constructor; [exact Hc|]. constructor; [exact Hr|].
    apply Forall_app; split; apply Forall_forall;
      intros ev Hin; apply repeat_spec in Hin; subst ev; assumption. }
  split; [reflexivity|]. split; [apply Hall; exact I|].
  split; [apply Hall; [reflexivity|exact I]|].
  assert (E1 : requestCount overlapped = 31) by (vm_compute; reflexivity).
  assert (E2 : rateLimitInfo overlapped
               = Some {| remaining := 0; resetTime := 10000;
                         maxCalls := 30; timeWindow := 10 |})
    by (vm_compute; reflexivity).
  split; [exact E1|]. split; [rewrite E2; reflexivity|].
  unfold withinQuota. rewrite E2, E1. simpl. lia.
Qed.

(** C7.  A client constructed at time 0 makes its first admission check at
    time 5000.  Lazy initialisation sets [resetTime] from the time of
    initialisation and leaves [windowStartTime] at the time of
    construction: after the check [resetTime] is 15000 while
    [windowStartTime] plus [timeWindow] seconds is 10000, on the fallback
    path and on the server-config path alike. *)
Theorem lazy_initialisation_leaves_window_start :
  checkRateLimit lateFallbackClock (newClient 0) =
    (Normal tt,
     {| rateLimitInfo := Some {| remaining := 30; resetTime := 15000;
                                 maxCalls := 30; timeWindow := 10 |};
        requestCount := 0;
        windowStartTime := 0 |})
  /\ checkRateLimit lateServerClock (newClient 0) =
    (Normal tt,
     {| rateLimitInfo := Some {| remaining := 30; resetTime := 15000;
                                 maxCalls := 30; timeWindow := 10 |};
        requestCount := 0;
        windowStartTime := 0 |})
  /\ ~ windowAligned (snd (checkRateLimit lateFallbackClock (newClient 0)))
  /\ ~ windowAligned (snd (checkRateLimit lateServerClock (newClient 0))).
Proof.
  repeat split; try (intro H; vm_compute in H; discriminate).
Qed.

(** Once a check has reset the window, [resetTime] is [windowStartTime]
    plus [timeWindow] seconds, and recording calls and later checks keep
    it so. *)
Lemma reset_aligns_window : forall w c info,
  rateLimitInfo (afterInit w c) = Some info ->
  resetTime info <= checkNow w ->
  windowAligned (snd (checkRateLimit w c)).
Proof.
  intros w c info E Hle.
  destruct (checkRateLimit_resets w c info E Hle) as (_ & Hs & Hi & _).
  unfold windowAligned. rewrite Hi, Hs. reflexivity.
Qed.

Lemma recordCall_keeps_alignment : forall c,
  windowAligned c -> windowAligned (recordCall c).
Proof.
  intros c H. unfold windowAligned, recordCall in *. simpl.
  destruct (rateLimitInfo c); simpl; auto.
Qed.

Lemma check_keeps_alignment : forall w c,
  rateLimitInfo c <> None -> windowAligned c ->
  windowAligned (snd (checkRateLimit w c)).
Proof.
  intros w c Hk Ha.
  destruct (rateLimitInfo c) as [info|] eqn:E; [|congruence].
  assert (E' : rateLimitInfo (afterInit w c) = Some info)
    by (unfold afterInit; rewrite E; exact E).
  destruct (Z_le_gt_dec (resetTime info) (checkNow w)) as [Hle|Hgt].
  - eapply reset_aligns_window; eauto.
  - rewrite (checkRateLimit_keeps w c info E') by lia.
    unfold afterInit. rewrite E. exact Ha.
Qed.

End UsageWindowClaims.

(** ** Objects *)

Section Objects.

Context {A : Type}.

Lemma get_In : forall (o : object A) k v, get o k = Some v -> In (k, v) o.
Proof.
  induction o as [|[k' v'] o IH]; intros k v H; simpl in *; [discriminate|].
  destruct (String.eqb k' k) eqn:E.
  - apply String.eqb_eq in E. injection H as ->. subst. now left.
  - right. now apply IH.
Qed.

Lemma get_In_values : forall (o : object A) k v, get o k = Some v -> In v (map snd o).
Proof.
  intros o k v H. apply get_In in H. now apply (in_map snd) in H.
Qed.

Lemma get_None_keys : forall (o : object A) k, get o k = None <-> ~ In k (keys o).
Proof.
  induction o as [|[k' v'] o IH]; intros k; simpl.
  - split; auto.
  - destruct (String.eqb k' k) eqn:E.
    + apply String.eqb_eq in E. subst. split; [discriminate|]. intros H. exfalso. auto.
    + apply String.eqb_neq in E. rewrite IH. unfold keys. split.
      * intros H [H1|H1]; auto.
      * intros H H1. apply H. now right.
Qed.

Lemma arrayIncludes_In : forall xs x, arrayIncludes xs x = true <-> In x xs.
Proof.
  intros xs x. unfold arrayIncludes. rewrite existsb_exists. split.
  - intros [y [Hin Heq]]. apply String.eqb_eq in Heq. now subst.
  - intros H. exists x. split; [assumption|apply String.eqb_refl].
Qed.

(** [dimension[varCode]] is defined exactly when
    [Object.keys(dimension).includes(varCode)]. *)
Lemma get_keys_includes : forall (o : object A) k,
  arrayIncludes (keys o) k = false <-> get o k = None.
Proof.
  intros o k. rewrite get_None_keys, <- arrayIncludes_In.
  destruct (arrayIncludes (keys o) k); split; congruence.
Qed.

Lemma get_set_same : forall (o : object A) k v, get (set o k v) k = Some v.
Proof.
  induction o as [|[k' v'] o IH]; intros k v; simpl.
  - now rewrite String.eqb_refl.
  - destruct (String.eqb k' k) eqn:E; simpl.
    + now rewrite String.eqb_refl.
    + rewrite E. apply IH.
Qed.

Lemma get_set_other : forall (o : object A) k k' v,
  k <> k' -> get (set o k v) k' = get o k'.
Proof.
  induction o as [|[k0 v0] o IH]; intros k k' v Hne; simpl.
  - apply String.eqb_neq in Hne. now rewrite Hne.
  - destruct (String.eqb k0 k) eqn:E; simpl.
    + apply String.eqb_eq in E. subst k0.
      apply String.eqb_neq in Hne. now rewrite Hne.
    + destruct (String.eqb k0 k'); [reflexivity|]. now apply IH.
Qed.

Lemma keys_set : forall (o : object A) k v,
  keys (set o k v) = if arrayIncludes (keys o) k then keys o else (keys o ++ [k])%list.
Proof.
  induction o as [|[k0 v0] o IH]; intros k v; simpl; [reflexivity|].
  unfold arrayIncludes in *. simpl. rewrite (String.eqb_sym k k0).
  destruct (String.eqb k0 k) eqn:E; simpl.
  - apply String.eqb_eq in E. now subst.
  - rewrite IH. unfold keys. now destruct (existsb (String.eqb k) (map fst o)).
Qed.

Lemma set_fresh : forall (o : object A) k v,
  ~ In k (keys o) -> set o k v = (o ++ [(k, v)])%list.
Proof.
  induction o as [|[k0 v0] o IH]; intros k v Hn; simpl; [reflexivity|].
  destruct (String.eqb k0 k) eqn:E.
  - apply String.eqb_eq in E. subst. exfalso. apply Hn. now left.
  - rewrite IH; [reflexivity|]. intros H. apply Hn. now right.
Qed.

Lemma NoDup_keys_set : forall (o : object A) k v,
  NoDup (keys o) -> NoDup (keys (set o k v)).
Proof.
  intros o k v H. rewrite keys_set.
  destruct (arrayIncludes (keys o) k) eqn:E; [assumption|].
  apply NoDup_app; [assumption|repeat constructor; intros []|].
  intros x Hx [Hk|[]]. subst x.
  apply arrayIncludes_In in Hx. congruence.
Qed.

(** Copying an object entry by entry into an empty object gives the
    object back. *)
Lemma rebuild_onto : forall (o acc : object A),
  NoDup (keys (acc ++ o)%list) ->
  fold_left (fun r '(k, v) => set r k v) o acc = (acc ++ o)%list.
Proof.
  induction o as [|[k v] o IH]; intros acc Hnd; simpl.
  - now rewrite app_nil_r.
  - assert (Hfresh : ~ In k (keys acc)).
    { unfold keys in *. rewrite map_app in Hnd. simpl in Hnd.
      apply NoDup_remove_2 in Hnd. intros H. apply Hnd. apply in_or_app. now left. }
    rewrite set_fresh by assumption.
    rewrite IH; rewrite <- app_assoc; simpl; [reflexivity|assumption].
Qed.

Lemma rebuild : forall (o : object A),
  NoDup (keys o) -> fold_left (fun r '(k, v) => set r k v) o [] = o.
Proof. intros o H. now rewrite rebuild_onto. Qed.

End Objects.

(** ** Name and value translation *)

Section Translation.

Lemma fold_left_ext_in : forall (A B : Type) (f g : A -> B -> A) (l : list B) (a : A),
  (forall a x, In x l -> f a x = g a x) -> fold_left f l a = fold_left g l a.
Proof.
  intros A B f g l. induction l as [|x l IH]; intros a H; simpl; [reflexivity|].
  rewrite H by now left. apply IH. intros a' y Hy. apply H. now right.
Qed.

Lemma rebuild_with : forall (A B : Type) (g : string -> A -> B) (o : object A) (acc : object B),
  fold_left (fun r '(k, v) => set r k (g k v)) o acc
  = fold_left (fun r '(k, v) => set r k v) (map (fun '(k, v) => (k, g k v)) o) acc.
Proof.
  intros A B g o. induction o as [|[k v] o IH]; intros acc; simpl; [reflexivity|]. apply IH.
Qed.

Lemma keys_map_values : forall (A B : Type) (g : string -> A -> B) (o : object A),
  keys (map (fun '(k, v) => (k, g k v)) o) = keys o.
Proof.
  intros A B g o. unfold keys. rewrite map_map. apply map_ext. now intros [k v].
Qed.

(** A read finds nothing exactly when the table has no such key and
    [Object.prototype] has no such member. *)
Lemma read_None : forall table k,
  read table k = None <-> get table k = None /\ arrayIncludes objectPrototype k = false.
Proof.
  intros table k. unfold read. destruct (get table k) as [v|].
  - split; [discriminate|]. intros [H _]. discriminate.
  - destruct (arrayIncludes objectPrototype k); split; try discriminate; auto.
    intros [_ H]. discriminate.
Qed.

Lemma canonical_fixed : forall v, In v canonicalCodes -> v <> EmptyString /\ mappedKey v = v.
Proof.
  assert (H : forallb (fun v => negb (String.eqb v EmptyString) && String.eqb (mappedKey v) v)
                      canonicalCodes = true) by (vm_compute; reflexivity).
  intros v Hin. rewrite forallb_forall in H. specialize (H v Hin).
  apply andb_true_iff in H. destruct H as [H1 H2].
  apply negb_true_iff, String.eqb_neq in H1. apply String.eqb_eq in H2. auto.
Qed.

(** The text of an inherited member is a key that is translated to
    itself. *)
Lemma inherited_fixed : forall member,
  In member objectPrototype ->
  mappedKey (toText (Inherited member)) = toText (Inherited member).
Proof.
  assert (H : forallb (fun member => String.eqb (mappedKey (toText (Inherited member)))
                                                (toText (Inherited member)))
                      objectPrototype = true) by (vm_compute; reflexivity).
  intros member Hin. rewrite forallb_forall in H. now apply String.eqb_eq, H.
Qed.

(** A key passes through unchanged, is translated to a canonical code of
    the table, or is replaced by the text of an inherited member. *)
Lemma mappedKey_cases : forall key,
  (read variableMapping key = None /\ read variableMapping (toLowerCase key) = None
   /\ mappedKey key = key)
  \/ In (mappedKey key) canonicalCodes
  \/ (exists member, In member objectPrototype /\ mappedKey key = toText (Inherited member)).
Proof.
  assert (Hown : forall k v rest,
             get variableMapping k = Some v ->
             In (toText (orValue (read variableMapping k) rest)) canonicalCodes).
  { intros k v rest E. unfold read. rewrite E. simpl.
    pose proof (get_In_values _ _ _ E) as Hin.
    destruct (canonical_fixed v Hin) as [Hne _].
    apply String.eqb_neq in Hne. now rewrite Hne. }
  intros key. unfold mappedKey.
  destruct (get variableMapping key) as [v|] eqn:E1; [right; left; eapply Hown; eauto|].
  destruct (arrayIncludes objectPrototype key) eqn:P1.
  { right. right. exists key. split; [now apply arrayIncludes_In|].
    unfold read. now rewrite E1, P1. }
  assert (R1 : read variableMapping key = None) by (apply read_None; auto).
  rewrite R1. cbn [orValue].
  destruct (get variableMapping (toLowerCase key)) as [v|] eqn:E2;
    [right; left; eapply Hown; eauto|].
  destruct (arrayIncludes objectPrototype (toLowerCase key)) eqn:P2.
  { right. right. exists (toLowerCase key). split; [now apply arrayIncludes_In|].
    unfold read. now rewrite E2, P2. }
  assert (R2 : read variableMapping (toLowerCase key) = None) by (apply read_None; auto).
  rewrite R2. left. auto.
Qed.

Lemma mappedKey_idempotent : forall key, mappedKey (mappedKey key) = mappedKey key.
Proof.
  intros key. destruct (mappedKey_cases key) as [(_ & _ & H)|[H|(member & Hin & H)]].
  - now rewrite H.
  - now apply canonical_fixed.
  - rewrite H. now apply inherited_fixed.
Qed.

(** Keys that reach the table in lower case: Latin-1 capitals, and the
    Kelvin sign U+212A, whose lower-case form is [k]. *)
Example mappedKey_lower_cases :
  mappedKey "KÖN" = "Kon"
  /\ mappedKey (bytes [226; 132; 170]%nat ++ "on") = "Kon"
  /\ mappedKey "Postnummer" = "Postnummer".
Proof. repeat split; reflexivity. Qed.

(** No translated key names a member of [Object.prototype]; in particular
    none is [__proto__]. *)
Lemma mappedKey_not_inherited : forall key,
  arrayIncludes objectPrototype (mappedKey key) = false.
Proof.
  assert (Hc : forallb (fun v => negb (arrayIncludes objectPrototype v)) canonicalCodes = true)
    by (vm_compute; reflexivity).
  assert (Hi : forallb (fun member =>
                          negb (arrayIncludes objectPrototype (toText (Inherited member))))
                       objectPrototype = true) by (vm_compute; reflexivity).
  intros key. destruct (mappedKey_cases key) as [(R & _ & H)|[H|(member & Hin & H)]].
  - rewrite H. now apply read_None in R.
  - rewrite forallb_forall in Hc. now apply negb_true_iff, Hc.
  - rewrite H. rewrite forallb_forall in Hi. now apply negb_true_iff, Hi.
Qed.

Lemma translated_keys_fixed : forall (sel : Selection) (acc : Selection),
  (forall k, In k (keys acc) -> mappedKey k = k) ->
  forall k,
    In k (keys (fold_left (fun t '(key, values) => set t (mappedKey key) values) sel acc)) ->
    mappedKey k = k.
Proof.
  induction sel as [|[key values] sel IH]; intros acc Hacc k Hk; simpl in Hk.
  - now apply Hacc.
  - eapply IH; [|exact Hk]. intros k' Hk'. rewrite keys_set in Hk'.
    destruct (arrayIncludes (keys acc) (mappedKey key)); [now apply Hacc|].
    apply in_app_or in Hk'. destruct Hk' as [Hk'|[<-|[]]]; [now apply Hacc|].
    apply mappedKey_idempotent.
Qed.

Lemma translated_keys_NoDup : forall (sel : Selection) (acc : Selection),
  NoDup (keys acc) ->
  NoDup (keys (fold_left (fun t '(key, values) => set t (mappedKey key) values) sel acc)).
Proof.
  induction sel as [|[key values] sel IH]; intros acc Hacc; simpl; [assumption|].
  apply IH. now apply NoDup_keys_set.
Qed.


(** *** Values *)

Lemma settled_truthyEntry : forall v variableName,
  settled v = true -> truthyEntry (get valueMapping variableName) (toLowerCase v) = None.
Proof.
  intros v variableName H. unfold settled in H. apply andb_true_iff in H.
  destruct H as [H _]. rewrite forallb_forall in H.
  destruct (get valueMapping variableName) as [table|] eqn:E; [|reflexivity].
  apply get_In_values in E. specialize (H table E).
  destruct (truthyEntry (Some table) (toLowerCase v)); [discriminate|reflexivity].
Qed.

Lemma settled_fixed : forall v variableName,
  settled v = true -> translateText variableName v = Text v.
Proof.
  intros v variableName H. unfold translateText.
  rewrite !settled_truthyEntry by assumption.
  unfold settled in H. apply andb_true_iff in H. destruct H as [_ H].
  apply negb_true_iff in H. rewrite H.
  rewrite andb_false_r. now destruct (String.eqb variableName "Tid" && matchesYear v).
Qed.

Lemma truthyEntry_settled : forall variableName k v,
  truthyEntry (get valueMapping variableName) k = Some (Text v) -> settled v = true.
Proof.
  assert (H : forallb (fun table => forallb settled (map snd table)) valueTables = true)
    by (vm_compute; reflexivity).
  intros variableName k v E. unfold truthyEntry, read in E.
  destruct (get valueMapping variableName) as [table|] eqn:Et; [|discriminate].
  destruct (get table k) as [v'|] eqn:Ev.
  - destruct (String.eqb v' EmptyString); [discriminate|]. injection E as ->.
    rewrite forallb_forall in H. apply get_In_values in Et. specialize (H table Et).
    rewrite forallb_forall in H. apply H. eapply get_In_values; eauto.
  - destruct (arrayIncludes objectPrototype k); discriminate.
Qed.

Lemma digit_not_hyphen : forall c, isDigit c = true -> Ascii.eqb c "-" = false.
Proof. intros c. each_ascii c; vm_compute; congruence. Qed.

Lemma toLowerCase_unfold : forall c rest,
  toLowerCase (String c rest)
  = let plain := String (lowerAscii c) (toLowerCase rest) in
    match rest with
    | String d rest' =>
        let lead := nat_of_ascii c in
        let second := nat_of_ascii d in
        if (lead =? 195)%nat && isUpperLatin1Tail d
        then String c (String (ascii_of_nat (second + 32)) (toLowerCase rest'))
        else if (lead =? 196)%nat && (second =? 176)%nat
        then bytes [105; 204; 135]%nat ++ toLowerCase rest'
        else if (lead =? 197)%nat && (second =? 184)%nat
        then bytes [195; 191]%nat ++ toLowerCase rest'
        else
          match rest' with
          | String e rest'' =>
              let third := nat_of_ascii e in
              if (lead =? 226)%nat && (second =? 132)%nat && (third =? 170)%nat
              then bytes [107]%nat ++ toLowerCase rest''
              else if (lead =? 226)%nat && (second =? 132)%nat && (third =? 171)%nat
              then bytes [195; 165]%nat ++ toLowerCase rest''
              else if (lead =? 225)%nat && (second =? 186)%nat && (third =? 158)%nat
              then bytes [195; 159]%nat ++ toLowerCase rest''
              else plain
          | EmptyString => plain
          end
    | EmptyString => plain
    end.
Proof. intros c rest. destruct rest as [|d [|e rest'']]; reflexivity. Qed.

(** A Basic Latin character is lower-cased on its own. *)
Lemma toLowerCase_cons : forall c rest,
  (nat_of_ascii c <? 128)%nat = true ->
  toLowerCase (String c rest) = String (lowerAscii c) (toLowerCase rest).
Proof.
  intros c rest H. apply Nat.ltb_lt in H. rewrite toLowerCase_unfold. cbv zeta.
  assert (E1 : (nat_of_ascii c =? 195)%nat = false) by (apply Nat.eqb_neq; lia).
  assert (E2 : (nat_of_ascii c =? 196)%nat = false) by (apply Nat.eqb_neq; lia).
  assert (E3 : (nat_of_ascii c =? 197)%nat = false) by (apply Nat.eqb_neq; lia).
  assert (E4 : (nat_of_ascii c =? 226)%nat = false) by (apply Nat.eqb_neq; lia).
  assert (E5 : (nat_of_ascii c =? 225)%nat = false) by (apply Nat.eqb_neq; lia).
  destruct rest as [|d [|e rest'']]; rewrite ?E1, ?E2, ?E3, ?E4, ?E5; reflexivity.
Qed.

Lemma digit_lower : forall c,
  isDigit c = true -> lowerAscii c = c /\ (nat_of_ascii c <? 128)%nat = true.
Proof. intros c. each_ascii c; vm_compute; intros H; try discriminate; auto. Qed.

Lemma toLowerCase_digit_head : forall c rest,
  isDigit c = true -> exists rest', toLowerCase (String c rest) = String c rest'.
Proof.
  intros c rest H. destruct (digit_lower c H) as [Hl Hn].
  rewrite toLowerCase_cons by assumption. rewrite Hl. eauto.
Qed.

(** No key of the value tables and no member of [Object.prototype] starts
    with a digit. *)
Lemma digit_head_no_entry : forall table c rest,
  In table valueTables -> isDigit c = true ->
  truthyEntry (Some table) (String c rest) = None.
Proof.
  assert (Hkeys : forall (names : list string) c rest,
             isDigit c = true ->
             forallb (fun k => match k with
                               | String k0 _ => negb (isDigit k0)
                               | EmptyString => true
                               end) names = true ->
             arrayIncludes names (String c rest) = false).
  { induction names as [|k names IH]; intros c rest Hc Hall; [reflexivity|].
    cbn [forallb] in Hall. apply andb_true_iff in Hall. destruct Hall as [Hk Hall].
    unfold arrayIncludes. cbn [existsb]. apply orb_false_iff. split; [|now apply IH].
    destruct k as [|k0 k]; [reflexivity|]. simpl.
    destruct (Ascii.eqb c k0) eqn:E; [|reflexivity].
    apply Ascii.eqb_eq in E. subst. rewrite Hc in Hk. discriminate. }
  intros table c rest Hin Hc. unfold truthyEntry, read.
  assert (Ht : get table (String c rest) = None).
  { apply get_keys_includes. apply Hkeys; [exact Hc|].
    assert (H : forallb (fun t => forallb (fun k => match k with
                                 | String k0 _ => negb (isDigit k0)
                                 | EmptyString => true
                                 end) (keys t)) valueTables = true) by (vm_compute; reflexivity).
    rewrite forallb_forall in H. now apply H. }
  rewrite Ht. rewrite Hkeys; [reflexivity|exact Hc|vm_compute; reflexivity].
Qed.

(** The compact monthly token a YYYY-MM value is rewritten to. *)
Lemma yearMonth_rewritten : forall v,
  matchesYearMonth v = true ->
  exists a b c d e f,
    v = String a (String b (String c (String d (String "-" (String e (String f EmptyString))))))
    /\ isDigit a = true
    /\ replaceFirst "-" "M" v
       = String a (String b (String c (String d (String "M" (String e (String f EmptyString)))))).
Proof.
  intros v H. unfold matchesYearMonth in H.
  destruct v as [|a [|b [|c [|d [|h [|e [|f [|]]]]]]]]; try discriminate.
  apply andb_true_iff in H; destruct H as [H Hf].
  apply andb_true_iff in H; destruct H as [H He].
  apply andb_true_iff in H; destruct H as [H Hh].
  apply andb_true_iff in H; destruct H as [H Hd].
  apply andb_true_iff in H; destruct H as [H Hc].
  apply andb_true_iff in H; destruct H as [Ha Hb].
  apply Ascii.eqb_eq in Hh; subst h.
  exists a, b, c, d, e, f. split; [reflexivity|]. split; [assumption|].
  cbn [replaceFirst]. rewrite !digit_not_hyphen by assumption. reflexivity.
Qed.

Lemma yearMonth_settled : forall v,
  matchesYearMonth v = true -> settled (replaceFirst "-" "M" v) = true.
Proof.
  intros v H. destruct (yearMonth_rewritten v H) as (a & b & c & d & e & f & -> & Ha & ->).
  unfold settled. apply andb_true_iff. split.
  - apply forallb_forall. intros table Hin.
    destruct (toLowerCase_digit_head a
                (String b (String c (String d (String "M" (String e (String f EmptyString))))))
                Ha) as [rest' ->].
    now rewrite digit_head_no_entry.
  - simpl. now rewrite !andb_false_r.
Qed.

(** A string that a translation returned is translated to itself. *)
Lemma translateText_idempotent : forall variableName value translated,
  translateText variableName value = Text translated ->
  translateText variableName translated = Text translated.
Proof.
  intros variableName value translated H. unfold translateText in H.
  destruct (truthyEntry (get valueMapping variableName) (toLowerCase value)) as [v|] eqn:E1.
  { subst v. apply settled_fixed. eapply truthyEntry_settled; eauto. }
  destruct (truthyEntry (get valueMapping "*") (toLowerCase value)) as [v|] eqn:E2.
  { subst v. apply settled_fixed. eapply truthyEntry_settled; eauto. }
  destruct (String.eqb variableName "Tid" && matchesYear value) eqn:E3.
  { injection H as <-. unfold translateText. now rewrite E1, E2, E3. }
  destruct (String.eqb variableName "Tid" && matchesYearMonth value) eqn:E4.
  { injection H as <-. apply settled_fixed. apply yearMonth_settled.
    apply andb_true_iff in E4. tauto. }
  injection H as <-. unfold translateText. now rewrite E1, E2, E3, E4.
Qed.

(** On strings the value translation returns a value for each. *)
Lemma translateCommonValues_texts : forall (values : list string) variableName,
  translateCommonValues (map Text values) variableName
  = Normal (map (translateText variableName) values).
Proof.
  intros values variableName. unfold translateCommonValues.
  induction values as [|v values IH]; simpl; [reflexivity|]. now rewrite IH.
Qed.


(** The resolved selection is the translated selection with each value
    list translated under its canonical code. *)
Lemma resolveSelection_map : forall (selection : Selection) lang,
  resolveSelection selection lang
  = Normal (map (fun '(code, values) => (code, map (translateText code) values))
                (translateCommonVariables selection lang)).
Proof.
  intros selection lang. unfold resolveSelection, entries.
  assert (H : forall (o : Selection) (acc : Translated),
             foldM (fun finalSelection '(varName, values) =>
                      match translateCommonValues (map Text values) varName with
                      | Normal translatedValues =>
                          Normal (set finalSelection varName translatedValues)
                      | Throw e => Throw e
                      end) o acc
             = Normal (fold_left (fun r '(k, v) => set r k (map (translateText k) v)) o acc)).
  { induction o as [|[k v] o IH]; intros acc; simpl; [reflexivity|].
    rewrite translateCommonValues_texts. apply IH. }
  rewrite H. f_equal.
  rewrite (rebuild_with _ _ (fun code values => map (translateText code) values)).
  apply rebuild. rewrite keys_map_values. apply translated_keys_NoDup. constructor.
Qed.

Lemma resolveSelection_keys : forall (selection : Selection) lang,
  exists translated,
    resolveSelection selection lang = Normal translated
    /\ keys translated = keys (translateCommonVariables selection lang).
Proof.
  intros. eexists. split; [apply resolveSelection_map|apply keys_map_values].
Qed.

End Translation.

Section TranslationClaims.




(** C9.  When two distinct keys of a selection are translated to the same
    canonical code, the translated selection has a single entry for that
    code, and its value list is that of the key enumerated later: the
    values of the earlier key are dropped. *)
Theorem later_key_overwrites_earlier :
  forall (k1 k2 : string) (v1 v2 : list string) (lang : string),
    k1 <> k2 ->
    mappedKey k1 = mappedKey k2 ->
    translateCommonVariables [(k1, v1); (k2, v2)] lang = [(mappedKey k1, v2)].
Proof.
  intros k1 k2 v1 v2 lang _ H. unfold translateCommonVariables. simpl.
  rewrite <- H. now rewrite String.eqb_refl.
Qed.

Lemma later_key_overwrites_witness :
  translateCommonVariables countyAndMunicipality "en" = [("Region", ["0180"; "1480"])].
Proof.
  apply (later_key_overwrites_earlier "county" "municipality").
  - discriminate.
  - reflexivity.
Defined.

End TranslationClaims.

(** ** Selection validation *)

Section Validation.






(** The loops of [validateSelection] only push: the messages gathered
    before stay where they are. *)
Lemma checkText_extends : forall tableId varCode availableValues value es ss,
  exists es' ss',
    checkText tableId varCode availableValues (es, ss) value
    = ((es ++ es')%list, (ss ++ ss')%list).
Proof.
  intros tableId varCode availableValues v es ss. unfold checkText, push.
  destruct (String.eqb v "*" || startsWith v "TOP(" || startsWith v "BOTTOM("
            || startsWith v "RANGE(").
  - exists [], []. now rewrite !app_nil_r.
  - destruct (negb (arrayIncludes availableValues v)).
    + eexists _, _. reflexivity.
    + exists [], []. now rewrite !app_nil_r.
Qed.

Lemma checkTexts_extend : forall tableId varCode availableValues values es ss,
  exists es' ss',
    fold_left (checkText tableId varCode availableValues) values (es, ss)
    = ((es ++ es')%list, (ss ++ ss')%list).
Proof.
  intros tableId varCode availableValues values.
  induction values as [|v values IH]; intros es ss; cbn [fold_left].
  - exists [], []. now rewrite !app_nil_r.
  - destruct (checkText_extends tableId varCode availableValues v es ss) as (e1 & s1 & ->).
    destruct (IH (es ++ e1)%list (ss ++ s1)%list) as (e2 & s2 & ->).
    exists (e1 ++ e2)%list, (s1 ++ s2)%list. now rewrite !app_assoc.
Qed.

Lemma texts_isText : forall values,
  match texts values with
  | Some ss => values = map Text ss /\ forallb isText values = true
  | None => forallb isText values = false
  end.
Proof.
  induction values as [|[s|member] values IH]; simpl; auto.
  destruct (texts values) as [ss|]; [|exact IH].
  destruct IH as [-> H]. auto.
Qed.

(** The value loop runs to its end on strings, and throws at the first
    value that is none. *)
Lemma checkValues_cases : forall tableId varCode availableValues values m,
  foldM (checkValue tableId varCode availableValues) values m
  = match texts values with
    | Some ss => Normal (fold_left (checkText tableId varCode availableValues) ss m)
    | None => Throw (ErrorObject "value.startsWith is not a function")
    end.
Proof.
  intros tableId varCode availableValues values.
  induction values as [|[s|member] values IH]; intros m; simpl; [reflexivity| |reflexivity].
  rewrite IH. destruct (texts values); reflexivity.
Qed.

Lemma checkVariable_cases : forall tableId dims varCode values es ss,
  (negb (arrayIncludes (keys dims) varCode) || forallb isText values = true
   /\ exists es' ss',
        checkVariable tableId dims (es, ss) (varCode, values)
        = Normal ((es ++ es')%list, (ss ++ ss')%list))
  \/ (negb (arrayIncludes (keys dims) varCode) || forallb isText values = false
      /\ checkVariable tableId dims (es, ss) (varCode, values)
         = Throw (ErrorObject "value.startsWith is not a function")).
Proof.
  intros tableId dims varCode values es ss. unfold checkVariable, push.
  destruct (get dims varCode) as [varDef|] eqn:E.
  - assert (Hk : arrayIncludes (keys dims) varCode = true).
    { destruct (arrayIncludes (keys dims) varCode) eqn:Ei; [reflexivity|].
      apply get_keys_includes in Ei. congruence. }
    rewrite Hk, checkValues_cases. simpl.
    pose proof (texts_isText values) as Ht.
    destruct (texts values) as [texts|].
    + left. destruct Ht as [_ ->]. split; [reflexivity|].
      destruct (checkTexts_extend tableId varCode (keys (index (category varDef))) texts es ss)
        as (es' & ss' & ->). eauto.
    + right. auto.
  - left. apply get_keys_includes in E. rewrite E. split; [reflexivity|].
    eexists _, _. reflexivity.
Qed.

Lemma checkVariables_cases : forall tableId dims (sel : Translated) es ss,
  (checkable dims sel = true
   /\ exists es' ss',
        foldM (checkVariable tableId dims) sel (es, ss)
        = Normal ((es ++ es')%list, (ss ++ ss')%list))
  \/ (checkable dims sel = false
      /\ foldM (checkVariable tableId dims) sel (es, ss)
         = Throw (ErrorObject "value.startsWith is not a function")).
Proof.
  intros tableId dims sel. induction sel as [|[varCode values] sel IH]; intros es ss.
  - left. split; [reflexivity|]. exists [], []. now rewrite !app_nil_r.
  - cbn [foldM checkable forallb].
    destruct (checkVariable_cases tableId dims varCode values es ss)
      as [[Hc (e1 & s1 & ->)]|[Hc ->]]; rewrite Hc; simpl.
    + destruct (IH (es ++ e1)%list (ss ++ s1)%list) as [[Hr (e2 & s2 & ->)]|[Hr ->]].
      * left. split; [exact Hr|]. exists (e1 ++ e2)%list, (s1 ++ s2)%list.
        now rewrite !app_assoc.
      * right. auto.
    + right. auto.
Qed.

Lemma missingVariables_In : forall available selected code,
  In code (missingVariables available selected) <-> In code available /\ ~ In code selected.
Proof.
  intros available selected code. unfold missingVariables.
  rewrite filter_In, negb_true_iff.
  pose proof (arrayIncludes_In selected code) as Hi.
  destruct (arrayIncludes selected code); split; intros [H1 H2]; split; auto.
  - discriminate.
  - exfalso. apply H2. now apply Hi.
  - intros H. apply Hi in H. discriminate.
Qed.

(** [checkSelection] returns the translated selection when the checks run
    to their end, and throws when a value of a variable of the table is no
    string. *)
Lemma checkSelection_cases : forall tableId dims translated,
  (checkable dims translated = true
   /\ exists r, checkSelection tableId dims translated = Normal r
                /\ translatedSelection r = Some translated)
  \/ (checkable dims translated = false
      /\ checkSelection tableId dims translated
         = Throw (ErrorObject "value.startsWith is not a function")).
Proof.
  intros tableId dims translated. unfold checkSelection, entries.
  match goal with
  | |- context [foldM ?f ?l ?m] =>
      destruct m as [e0 s0] eqn:Em;
      destruct (checkVariables_cases tableId dims l e0 s0) as [[Hc (e' & s' & E)]|[Hc E]]
  end; rewrite E.
  - left. split; [exact Hc|]. eexists. split; reflexivity.
  - right. auto.
Qed.


(** The body of [validateSelection] throws when the metadata request does,
    and when a check does after the metadata has arrived with its
    dimensions. *)
Lemma validateBody_throws : forall tableId selection lang w f c e c1,
  validateBody tableId selection lang w f c = (Throw e, c1) <->
  getTableMetadata tableId lang w f c = (Throw e, c1)
  \/ exists md dims translated,
       getTableMetadata tableId lang w f c = (Normal md, c1)
       /\ dimension md = Some dims
       /\ resolveSelection selection lang = Normal translated
       /\ checkSelection tableId dims translated = Throw e.
Proof.
  intros. unfold validateBody, bind, local. rewrite resolveSelection_map.
  destruct (getTableMetadata tableId lang w f c) as [[md|e'] c'].
  - destruct (dimension md) as [dims|] eqn:Ed; unfold ret.
    + split.
      * intros H. injection H as H ->. right. eexists md, dims, _.
        split; [reflexivity|]. split; [exact Ed|]. split; [reflexivity|exact H].
      * intros [H|(md' & dims' & translated & H1 & H2 & H3 & H4)]; [discriminate|].
        injection H1 as <- <-. rewrite Ed in H2. injection H2 as <-.
        injection H3 as <-. now rewrite H4.
    + split; [discriminate|].
      intros [H|(md' & dims' & translated & H1 & H2 & _)]; [discriminate|].
      injection H1 as <- <-. congruence.
  - split.
    + intros H. injection H as -> ->. now left.
    + intros [H|(md' & dims' & translated & H1 & _)]; [|discriminate].
      injection H as -> ->. reflexivity.
Qed.

Lemma validateSelection_cases : forall tableId selection lang w f c,
  exists translated,
    resolveSelection selection lang = Normal translated
    /\ keys translated = keys (translateCommonVariables selection lang)
    /\ match getTableMetadata tableId lang w f c with
       | (Normal md, c1) =>
           match dimension md with
           | Some dims =>
               validateSelection tableId selection lang w f c
               = (match checkSelection tableId dims translated with
                  | Normal r => Normal r
                  | Throw e => Normal (caught e)
                  end, c1)
           | None =>
               validateSelection tableId selection lang w f c
               = (Normal {| isValid := false;
                            errors := ["Table metadata not available for validation"];
                            suggestions := ["Try using scb_get_table_info first"];
                            translatedSelection := None |}, c1)
           end
       | (Throw e, c1) =>
           validateSelection tableId selection lang w f c = (Normal (caught e), c1)
       end.
Proof.
  intros. destruct (resolveSelection_keys selection lang) as (translated & Hr & Hk).
  exists translated. split; [exact Hr|]. split; [exact Hk|].
  unfold validateSelection, tryCatch, validateBody, bind, local. rewrite Hr.
  destruct (getTableMetadata tableId lang w f c) as [[md|e] c1].
  - destruct (dimension md); [|reflexivity].
    destruct (checkSelection tableId o translated); reflexivity.
  - reflexivity.
Qed.

End Validation.

(** ** The operations of the client as histories of the window *)

Section Operations.

Lemma sequential_app : forall c evs1 evs2,
  sequential c evs1 -> sequential (run evs1 c) evs2 -> sequential c (evs1 ++ evs2)%list.
Proof.
  intros c evs1 evs2 H1. revert evs2.
  induction H1 as [c|c w evs Hs IH|c w evs Hadm Hs IH]; intros evs2 H2; simpl in *.
  - exact H2.
  - apply sequential_check. now apply IH.
  - apply sequential_call; [assumption|]. now apply IH.
Qed.

Lemma run_app : forall evs1 evs2 c, run (evs1 ++ evs2)%list c = run evs2 (run evs1 c).
Proof. intros. unfold run. apply fold_left_app. Qed.

Lemma historyOf_sequential : forall T w (f : FetchOutcome T) c,
  sequential c (historyOf w f c).
Proof.
  intros T w f c. unfold historyOf. destruct (admits w c) eqn:E.
  - destruct f.
    + apply sequential_check, sequential_nil.
    + apply sequential_call; [exact E|apply sequential_nil].
  - apply sequential_check, sequential_nil.
Qed.

Lemma historyOf_capacity : forall T w (f : FetchOutcome T) c,
  capacityNonNegative (AdmissionCheck w) -> Forall capacityNonNegative (historyOf w f c).
Proof.
  intros T w f c H. unfold historyOf.
  destruct (admits w c); [destruct f|]; repeat constructor; exact H.
Qed.

(** A metered step: the admission check, the transport, the recording. *)
Lemma metered_state : forall T A w (f : FetchOutcome T) (k : Response T -> Op A) c,
  (forall r c', snd (k r c') = c') ->
  snd ((checkRateLimit w ;;; response <- awaitFetch f ;; modify recordCall ;;; k response) c)
  = run (historyOf w f c) c.
Proof.
  intros T A w f k c Hk. unfold bind, historyOf, admits, run.
  destruct (checkRateLimit w c) as [[[]|e] c1] eqn:E; simpl.
  - destruct f as [e|r]; simpl.
    + now rewrite E.
    + rewrite E. simpl. unfold modify. apply Hk.
  - now rewrite E.
Qed.

Lemma makeRequest_history : forall T w (f : FetchOutcome T) c,
  snd (makeRequest w f c) = run (historyOf w f c) c.
Proof.
  intros T w f c. unfold makeRequest. apply metered_state.
  intros r c'.
  destruct (negb (ok r)).
  - destruct (status r =? 429); reflexivity.
  - match goal with |- context [if ?b then _ else _] => destruct b end.
    + unfold bind, await. destruct (text r); reflexivity.
    + reflexivity.
Qed.

Lemma validateSelection_history : forall tableId selection lang w f c,
  snd (validateSelection tableId selection lang w f c) = run (historyOf w f c) c.
Proof.
  intros. rewrite <- makeRequest_history.
  destruct (validateSelection_cases tableId selection lang w f c) as (translated & _ & _ & H).
  unfold getTableMetadata in H.
  destruct (makeRequest w f c) as [[md|e] c1].
  - destruct (dimension md); now rewrite H.
  - now rewrite H.
Qed.

Lemma readDataResponse_state : forall r c, snd (readDataResponse r c) = c.
Proof.
  intros r c. unfold readDataResponse.
  destruct (negb (ok r)); [|reflexivity].
  destruct (status r =? 429); [reflexivity|].
  destruct (status r =? 403); [reflexivity|].
  destruct (status r =? 400); reflexivity.
Qed.

Lemma perform_history : forall call c,
  exists evs,
    sequential c evs
    /\ perform c call = run evs c
    /\ (clocksNonNegative call -> Forall capacityNonNegative evs).
Proof.
  intros [T w f|tableId selection lang w f|tableId selection lang wv fv wd fd] c; simpl.
  - exists (historyOf w f c). split; [apply historyOf_sequential|].
    split; [apply makeRequest_history|apply historyOf_capacity].
  - exists (historyOf w f c). split; [apply historyOf_sequential|].
    split; [apply validateSelection_history|apply historyOf_capacity].
  - destruct selection as [sel|].
    + unfold getTableData.
      pose proof (validateSelection_history tableId sel lang wv fv c) as Hv.
      unfold bind at 1.
      destruct (validateSelection tableId sel lang wv fv c) as [[validation|e] c1] eqn:E;
        simpl in Hv; subst c1.
      * destruct (negb (isValid validation)).
        -- exists (historyOf wv fv c). split; [apply historyOf_sequential|].
           split; [reflexivity|]. intros [H _]. now apply historyOf_capacity.
        -- exists (historyOf wv fv c ++ historyOf wd fd (run (historyOf wv fv c) c))%list.
           split; [apply sequential_app; apply historyOf_sequential|].
           split.
           ++ rewrite run_app. apply metered_state. apply readDataResponse_state.
           ++ intros [H1 H2]. apply Forall_app. split; now apply historyOf_capacity.
      * exists (historyOf wv fv c). split; [apply historyOf_sequential|].
        split; [reflexivity|]. intros [H _]. now apply historyOf_capacity.
    + exists (historyOf wd fd c). split; [apply historyOf_sequential|].
      split; [apply makeRequest_history|]. intros [_ H]. now apply historyOf_capacity.
Qed.

(** Calls run one after the other leave a history in which each recorded
    call directly follows its admission check, and so stay within the
    quota. *)
Lemma calls_history : forall calls c,
  exists evs,
    sequential c evs
    /\ fold_left perform calls c = run evs c
    /\ (Forall clocksNonNegative calls -> Forall capacityNonNegative evs).
Proof.
  induction calls as [|call calls IH]; intros c; simpl.
  - exists []. split; [apply sequential_nil|]. split; [reflexivity|]. constructor.
  - destruct (perform_history call c) as (evs1 & Hs1 & Hr1 & Hc1).
    destruct (IH (perform c call)) as (evs2 & Hs2 & Hr2 & Hc2).
    exists (evs1 ++ evs2)%list. split.
    + apply sequential_app; [exact Hs1|]. now rewrite <- Hr1.
    + split.
      * now rewrite run_app, <- Hr1.
      * intros H. inversion H; subst. apply Forall_app. auto.
Qed.

Lemma calls_withinQuota : forall calls c,
  withinQuota c -> Forall clocksNonNegative calls ->
  withinQuota (fold_left perform calls c).
Proof.
  intros calls c Hq Hc.
  destruct (calls_history calls c) as (evs & Hs & Hr & Hcap).
  rewrite Hr. apply (sequential_prefix c evs Hs Hq (Hcap Hc) evs []).
  now rewrite app_nil_r.
Qed.

End Operations.

Section ValidationClaims.




(** C4.  [validateSelection] always completes normally.  When its body
    throws, the exception becomes a result with [isValid = false], one
    error string made from the exception and one suggestion; otherwise the
    result is the one the body returned.  The body throws when the
    metadata request throws, and when a check of the selection throws
    after the metadata has arrived with its dimensions. *)
Theorem validateSelection_never_throws :
  forall tableId (selection : Selection) lang w f c,
    (exists r c',
        validateSelection tableId selection lang w f c = (Normal r, c')
        /\ match validateBody tableId selection lang w f c with
           | (Throw e, c1) =>
               c' = c1
               /\ r = {| isValid := false;
                         errors := ["Validation failed: " ++ describe e];
                         suggestions :=
                           ["Try checking if the table ID is correct with scb_get_table_info"];
                         translatedSelection := None |}
           | (Normal r0, c1) => c' = c1 /\ r = r0
           end)
    /\ (forall e c1,
          validateBody tableId selection lang w f c = (Throw e, c1) <->
          getTableMetadata tableId lang w f c = (Throw e, c1)
          \/ exists md dims translated,
               getTableMetadata tableId lang w f c = (Normal md, c1)
               /\ dimension md = Some dims
               /\ resolveSelection selection lang = Normal translated
               /\ checkSelection tableId dims translated = Throw e).
Proof.
  intros. split; [|intros e c1; apply validateBody_throws].
  unfold validateSelection, tryCatch.
  destruct (validateBody tableId selection lang w f c) as [[r0|e] c1] eqn:E.
  - exists r0, c1. auto.
  - eexists _, c1. split; [reflexivity|]. auto.
Qed.

(** Ways the body throws: the transport fails, the quota is used up, the
    server answers with an error page, the answer does not parse, a value
    of the selection is translated to an inherited member. *)
Example validation_when_network_down :
  fst (validateSelection "TAB638" regionSelection "en" fallbackClock networkDown (newClient 0))
  = Normal {| isValid := false;
              errors := ["Validation failed: request to https://api.scb.se failed"];
              suggestions := ["Try checking if the table ID is correct with scb_get_table_info"];
              translatedSelection := None |}.
Proof. reflexivity. Qed.

Example validation_when_quota_used_up :
  fst (validateSelection "TAB638" regionSelection "en"
         {| configFetch := ConfigParsed 0 10; initNow := 0; checkNow := 2500 |}
         metadataArrives (newClient 0))
  = Normal {| isValid := false;
              errors := ["Validation failed: Rate limit exceeded. Try again in 8 seconds. Current usage: 0/0"];
              suggestions := ["Try checking if the table ID is correct with scb_get_table_info"];
              translatedSelection := None |}.
Proof. vm_compute. reflexivity. Qed.

Example validation_when_server_fails :
  fst (validateSelection "TAB638" regionSelection "en" fallbackClock
         (Resolved {| ok := false; status := 500; statusText := "Internal Server Error";
                      contentType := Some "text/html";
                      text := Normal "<html><body>Error</body></html>";
                      parsed := Throw (ErrorObject "Unexpected token <") |})
         (newClient 0))
  = Normal {| isValid := false;
              errors := ["Validation failed: API request failed: 500 Internal Server Error (Server returned HTML error page)"];
              suggestions := ["Try checking if the table ID is correct with scb_get_table_info"];
              translatedSelection := None |}.
Proof. vm_compute. reflexivity. Qed.

Example validation_when_schema_rejects :
  fst (validateSelection "TAB638" regionSelection "en" fallbackClock
         (jsonResponse (Throw (ErrorObject "Required"))) (newClient 0))
  = Normal {| isValid := false;
              errors := ["Validation failed: Required"];
              suggestions := ["Try checking if the table ID is correct with scb_get_table_info"];
              translatedSelection := None |}.
Proof. reflexivity. Qed.

Example validation_when_value_is_inherited :
  fst (validateSelection "TAB638" [("region", ["0180"; "__proto__"]); ("Tid", ["2023"])] "en"
         fallbackClock metadataArrives (newClient 0))
  = Normal {| isValid := false;
              errors := ["Validation failed: value.startsWith is not a function"];
              suggestions := ["Try checking if the table ID is correct with scb_get_table_info"];
              translatedSelection := None |}.
Proof. vm_compute. reflexivity. Qed.

(** C6 (as amended).  [validateSelection] returns the translated selection
    when the metadata has arrived with its dimensions and the checks ran to
    their end, whether the selection is valid or not; on the early return
    for metadata without dimensions and on the caught-exception path
    (which a value that is no string under a variable of the table leads
    to as well) the result has no [translatedSelection]. *)
Theorem translatedSelection_on_checked_results :
  forall tableId (selection : Selection) lang w f c,
    exists translated r c',
      resolveSelection selection lang = Normal translated
      /\ validateSelection tableId selection lang w f c = (Normal r, c')
      /\ match fst (getTableMetadata tableId lang w f c) with
         | Normal md =>
             match dimension md with
             | Some dims =>
                 translatedSelection r
                 = if checkable dims translated then Some translated else None
             | None => translatedSelection r = None
             end
         | Throw _ => translatedSelection r = None
         end.
Proof.
  intros. destruct (validateSelection_cases tableId selection lang w f c)
    as (translated & Hr & _ & Hv).
  exists translated.
  destruct (getTableMetadata tableId lang w f c) as [[md|e] c1]; simpl.
  - destruct (dimension md) as [dims|].
    + destruct (checkSelection_cases tableId dims translated) as [[Hc (r & Hs & Ht)]|[Hc Hs]];
        rewrite Hs in Hv; rewrite Hc; eexists _, _; (split; [exact Hr|]);
        (split; [exact Hv|]); [exact Ht|reflexivity].
    + eexists _, _. split; [exact Hr|]. split; [exact Hv|reflexivity].
  - eexists _, _. split; [exact Hr|]. split; [exact Hv|reflexivity].
Qed.

(** C6 (as stated) fails: when the metadata request fails, the result has
    no [translatedSelection], although the selection translates to
    [{Region: ["0180"]}]. *)
Lemma translatedSelection_absent_on_failure :
  resolveSelection regionSelection "en" = Normal [("Region", [Text "0180"])]
  /\ validateSelection "TAB638" regionSelection "en" fallbackClock networkDown (newClient 0)
     = (Normal {| isValid := false;
                  errors := ["Validation failed: request to https://api.scb.se failed"];
                  suggestions := ["Try checking if the table ID is correct with scb_get_table_info"];
                  translatedSelection := None |},
        {| rateLimitInfo := Some (defaultRateLimit 0);
           requestCount := 0;
           windowStartTime := 0 |}).
Proof. split; reflexivity. Qed.

(** A valid selection comes back translated as well, and so does an
    invalid one whose checks ran to their end. *)
Example translatedSelection_when_valid :
  fst (validateSelection "TAB638" completeSelection "en" fallbackClock metadataArrives (newClient 0))
  = Normal {| isValid := true; errors := []; suggestions := [];
              translatedSelection := Some [("Region", [Text "0180"]); ("Tid", [Text "*"])] |}.
Proof. vm_compute. reflexivity. Qed.

Example translatedSelection_when_invalid :
  exists r,
    fst (validateSelection "TAB638" unknownRegion "en" fallbackClock metadataArrives
           (newClient 0)) = Normal r
    /\ isValid r = false
    /\ translatedSelection r = Some [("Region", [Text "9999"])].
Proof. eexists. split; [vm_compute; reflexivity|]. split; reflexivity. Qed.

End ValidationClaims.


(** ** Decoding *)

Section Decoding.

Lemma recordAt_writeAt : forall dims f v,
  recordAt dims f v
  = set (fold_left (writeAt dims f) (rev (seq 0 (List.length dims))) []) "value" (JNumber v).
Proof. reflexivity. Qed.

Lemma nonNullFrom_In : forall values k f v,
  In (f, v) (nonNullFrom k values)
  <-> (k <= f)%nat /\ nth_error values (f - k) = Some (Some v).
Proof.
  induction values as [|x values IH]; intros k f v; simpl.
  - split; [intros []|]. intros [_ H]. destruct (f - k)%nat; discriminate.
  - assert (Hstep : (S k <= f)%nat /\ nth_error values (f - S k) = Some (Some v)
                    <-> (k < f)%nat /\ nth_error (x :: values) (f - k) = Some (Some v)).
    { split; intros [H1 H2]; split; try lia.
      - replace (f - k)%nat with (S (f - S k)) by lia. exact H2.
      - replace (f - k)%nat with (S (f - S k)) in H2 by lia. exact H2. }
    destruct x as [x|].
    + simpl. rewrite IH, Hstep. split.
      * intros [H|[H1 H2]]; [|split; [lia|assumption]].
        injection H as -> ->. split; [lia|]. now rewrite Nat.sub_diag.
      * intros [H1 H2]. destruct (Nat.eq_dec k f) as [->|Hne].
        -- rewrite Nat.sub_diag in H2. simpl in H2. injection H2 as ->. now left.
        -- right. split; [lia|assumption].
    + rewrite IH, Hstep. split.
      * intros [H1 H2]. split; [lia|assumption].
      * intros [H1 H2]. destruct (Nat.eq_dec k f) as [->|Hne].
        -- rewrite Nat.sub_diag in H2. discriminate.
        -- split; [lia|assumption].
Qed.


Lemma decodeFrom_nonNull : forall dims values k,
  decodeFrom dims k values
  = map (fun '(f, v) => decodeRecord dims f v) (nonNullFrom k values).
Proof.
  intros dims. induction values as [|x values IH]; intros k; simpl; [reflexivity|].
  destruct x as [x|]; simpl; now rewrite IH.
Qed.

Lemma nonNullFrom_length : forall values k,
  List.length (nonNullFrom k values)
  = List.length (filter (fun x => match x with Some _ => true | None => false end) values).
Proof.
  induction values as [|x values IH]; intros k; simpl; [reflexivity|].
  destruct x; simpl; now rewrite IH.
Qed.

Lemma product_positive : forall sizes,
  product sizes <> 0%nat -> Forall (fun s => s <> 0%nat) sizes.
Proof.
  induction sizes as [|s sizes IH]; intros H; constructor; simpl in H.
  - intros ->. now apply H.
  - apply IH. intros E. rewrite E in H. apply H. lia.
Qed.

Lemma skipn_cons_nth_error : forall (A : Type) (l : list A) k x rest,
  skipn k l = x :: rest -> nth_error l k = Some x /\ skipn (S k) l = rest.
Proof.
  intros A l. induction l as [|y l IH]; intros k x rest H.
  - destruct k; discriminate.
  - destruct k as [|k].
    + simpl in H. injection H as -> ->. auto.
    + simpl in H. apply IH in H. exact H.
Qed.

Lemma dimensionSizes_skipn : forall dims k,
  skipn k (dimensionSizes dims) = dimensionSizes (skipn k dims).
Proof. intros. unfold dimensionSizes. apply skipn_map. Qed.

Lemma dimensionSizes_nth : forall dims k dimName dimDef,
  nth_error dims k = Some (dimName, dimDef) ->
  nth k (dimensionSizes dims) 1%nat = List.length (keys (index (category dimDef))).
Proof.
  intros dims k dimName dimDef H. unfold dimensionSizes.
  apply nth_error_nth. rewrite nth_error_map, H. reflexivity.
Qed.

(** The loop over a suffix of the dimensions, started on [f]: [temp] ends
    as [f] divided by the product of the suffix's sizes, and each dimension
    has written the code at its coordinate. *)
Lemma decode_suffix : forall dims f,
  Forall (fun s => s <> 0%nat) (dimensionSizes dims) ->
  forall suffix k record,
    skipn k dims = suffix ->
    fold_left decodeStep (rev (combine suffix (dimensionSizes suffix))) (Some f, record)
    = (Some (f / product (dimensionSizes suffix))%nat,
       fold_left (writeAt dims f) (rev (seq k (List.length suffix))) record).
Proof.
  intros dims f Hpos suffix.
  induction suffix as [|[dimName dimDef] suffix IH]; intros k record Hk.
  - unfold dimensionSizes, product.
    cbn [map combine rev fold_left fold_right List.length seq].
    now rewrite Nat.div_1_r.
  - destruct (skipn_cons_nth_error _ _ _ _ _ Hk) as [Hnth Hrest].
    change (dimensionSizes ((dimName, dimDef) :: suffix))
      with (List.length (keys (index (category dimDef))) :: dimensionSizes suffix).
    cbn [combine rev List.length seq].
    rewrite !fold_left_app. rewrite (IH (S k) record Hrest).
    cbn [fold_left].
    assert (Hsize : List.length (keys (index (category dimDef))) <> 0%nat).
    { rewrite Forall_forall in Hpos. apply Hpos.
      erewrite <- dimensionSizes_nth by exact Hnth.
      apply nth_In. unfold dimensionSizes. rewrite length_map.
      apply nth_error_Some. congruence. }
    unfold decodeStep, jsMod, jsFloorDiv.
    apply Nat.eqb_neq in Hsize. rewrite Hsize.
    rewrite Nat.Div0.div_div.
    change (product (List.length (keys (index (category dimDef))) :: dimensionSizes suffix))
      with (List.length (keys (index (category dimDef))) * product (dimensionSizes suffix))%nat.
    rewrite (Nat.mul_comm (product (dimensionSizes suffix))).
    f_equal.
    unfold writeAt at 2. rewrite Hnth. unfold codeAt. rewrite Hnth.
    unfold coordinate, stride.
    rewrite dimensionSizes_skipn, Hrest.
    erewrite dimensionSizes_nth by exact Hnth.
    reflexivity.
Qed.

Lemma decodeRecord_recordAt : forall dims f v,
  Forall (fun s => s <> 0%nat) (dimensionSizes dims) ->
  decodeRecord dims f v = recordAt dims f v.
Proof.
  intros dims f v Hpos.
  pose proof (decode_suffix dims f Hpos dims 0%nat [] eq_refl) as H.
  unfold decodeRecord. unfold JsRecord, object in *. rewrite H.
  apply recordAt_writeAt.
Qed.

(** With no empty dimension, every coordinate names a code. *)
Lemma codeAt_defined : forall dims i f dimName dimDef,
  Forall (fun s => s <> 0%nat) (dimensionSizes dims) ->
  nth_error dims i = Some (dimName, dimDef) ->
  (coordinate (dimensionSizes dims) i f < List.length (keys (index (category dimDef))))%nat
  /\ exists code, codeAt dims i f = Some code.
Proof.
  intros dims i f dimName dimDef Hpos Hnth.
  assert (Hlt : (coordinate (dimensionSizes dims) i f
                 < List.length (keys (index (category dimDef))))%nat).
  { unfold coordinate. erewrite dimensionSizes_nth by exact Hnth.
    apply Nat.mod_upper_bound.
    rewrite Forall_forall in Hpos. apply Hpos.
    erewrite <- dimensionSizes_nth by exact Hnth.
    apply nth_In. unfold dimensionSizes. rewrite length_map.
    apply nth_error_Some. congruence. }
  split; [exact Hlt|].
  unfold codeAt. rewrite Hnth.
  destruct (nth_error (keys (index (category dimDef)))
                      (coordinate (dimensionSizes dims) i f)) eqn:E; [eauto|].
  apply nth_error_None in E. lia.
Qed.

End Decoding.

(** ** Mixed-radix positions *)

Section MixedRadix.

Lemma product_split : forall sizes j,
  (j < List.length sizes)%nat ->
  product sizes
  = (product (firstn j sizes) * (nth j sizes 1 * product (skipn (S j) sizes)))%nat.
Proof.
  induction sizes as [|s sizes IH]; intros j Hj; simpl in Hj; [lia|].
  destruct j as [|j].
  - simpl. lia.
  - change (product (s :: sizes)) with (s * product sizes)%nat.
    rewrite (IH j) by lia. simpl. lia.
Qed.

Lemma coordinate_tail : forall s sizes j f,
  coordinate (s :: sizes) (S j) f = coordinate sizes j f.
Proof. reflexivity. Qed.

(** Flat indices that differ by a multiple of the product of the sizes have
    the same coordinates. *)
Lemma coordinate_periodic : forall sizes j m e,
  (j < List.length sizes)%nat ->
  coordinate sizes j (m * product sizes + e) = coordinate sizes j e.
Proof.
  intros sizes j m e Hj. unfold coordinate, stride.
  rewrite (product_split sizes j Hj).
  set (A := product (firstn j sizes)). set (sz := nth j sizes 1%nat).
  set (St := product (skipn (S j) sizes)).
  destruct (Nat.eq_dec St 0) as [E|E].
  - rewrite E. now rewrite !Nat.div_0_r.
  - replace (m * (A * (sz * St)) + e)%nat with ((m * A * sz) * St + e)%nat by lia.
    rewrite Nat.div_add_l by assumption.
    rewrite Nat.add_comm. apply Nat.Div0.mod_add.
Qed.



End MixedRadix.

(** ** The fields of a decoded record *)

Section RecordFields.

Lemma length_append : forall a b : string,
  String.length (a ++ b) = (String.length a + String.length b)%nat.
Proof. induction a as [|x a IH]; intros b; simpl; [reflexivity|]. now rewrite IH. Qed.

Lemma append_same_suffix_length : forall a b s t : string,
  (a ++ s = b ++ t)%string -> String.length s = String.length t -> a = b /\ s = t.
Proof.
  induction a as [|x a IH]; intros [|y b] s t H Hl; simpl in H.
  - auto.
  - subst s. simpl in Hl. rewrite length_append in Hl. lia.
  - subst t. simpl in Hl. rewrite length_append in Hl. lia.
  - injection H as -> H. destruct (IH b s t H Hl) as [-> ->]. auto.
Qed.

Lemma code_key_not_name_key : forall a b : string, (a ++ "_code" <> b ++ "_name")%string.
Proof.
  intros a b H. apply append_same_suffix_length in H; [|reflexivity].
  destruct H as [_ H]. discriminate.
Qed.

Lemma code_key_injective : forall a b : string, (a ++ "_code" = b ++ "_code")%string -> a = b.
Proof. intros a b H. now apply append_same_suffix_length in H. Qed.

Lemma name_key_injective : forall a b : string, (a ++ "_name" = b ++ "_name")%string -> a = b.
Proof. intros a b H. now apply append_same_suffix_length in H. Qed.

Lemma code_key_not_value : forall a : string, (a ++ "_code" <> "value")%string.
Proof.
  intros a H. change "value" with (EmptyString ++ "value")%string in H.
  apply append_same_suffix_length in H; [|reflexivity]. destruct H as [_ H]. discriminate.
Qed.

Lemma name_key_not_value : forall a : string, (a ++ "_name" <> "value")%string.
Proof.
  intros a H. change "value" with (EmptyString ++ "value")%string in H.
  apply append_same_suffix_length in H; [|reflexivity]. destruct H as [_ H]. discriminate.
Qed.

Lemma writeDimension_get_own : forall dimName dimDef code record,
  get (writeDimension dimName dimDef code record) (getDimensionBaseName dimName ++ "_code")
  = Some (ofCode code)
  /\ get (writeDimension dimName dimDef code record) (getDimensionBaseName dimName ++ "_name")
     = Some (labelOrCode (labelOf dimDef code) code).
Proof.
  intros. unfold writeDimension. split.
  - rewrite get_set_other by (intros H; symmetry in H; revert H; apply code_key_not_name_key).
    apply get_set_same.
  - apply get_set_same.
Qed.

Lemma writeDimension_get_other : forall dimName dimDef code record base,
  getDimensionBaseName dimName <> base ->
  get (writeDimension dimName dimDef code record) (base ++ "_code")
  = get record (base ++ "_code")
  /\ get (writeDimension dimName dimDef code record) (base ++ "_name")
     = get record (base ++ "_name").
Proof.
  intros dimName dimDef code record base Hne. unfold writeDimension. split.
  - rewrite get_set_other by (intros H; symmetry in H; revert H; apply code_key_not_name_key).
    apply get_set_other. intros H. apply Hne. now apply code_key_injective.
  - rewrite get_set_other by (intros H; apply Hne; now apply name_key_injective).
    apply get_set_other. apply code_key_not_name_key.
Qed.

(** After the loop, the fields of a dimension whose base name no other
    dimension shares hold that dimension's code and name. *)
Lemma writes_get : forall dims f indices record i dimName dimDef,
  In i indices ->
  nth_error dims i = Some (dimName, dimDef) ->
  (forall j otherName otherDef,
     In j indices -> j <> i -> nth_error dims j = Some (otherName, otherDef) ->
     getDimensionBaseName otherName <> getDimensionBaseName dimName) ->
  let final := fold_left (writeAt dims f) indices record in
  get final (getDimensionBaseName dimName ++ "_code") = Some (ofCode (codeAt dims i f))
  /\ get final (getDimensionBaseName dimName ++ "_name")
     = Some (labelOrCode (labelOf dimDef (codeAt dims i f)) (codeAt dims i f)).
Proof.
  intros dims f indices. induction indices as [|j indices IH] using rev_ind;
    intros record i dimName dimDef Hin Hnth Hother; [destruct Hin|].
  cbv zeta. rewrite fold_left_app. cbn [fold_left].
  set (before := fold_left (writeAt dims f) indices record).
  destruct (Nat.eq_dec j i) as [->|Hne].
  - unfold writeAt. rewrite Hnth. apply writeDimension_get_own.
  - assert (Hin' : In i indices).
    { apply in_app_or in Hin. destruct Hin as [H|[H|[]]]; [exact H|congruence]. }
    assert (IH' : get before (getDimensionBaseName dimName ++ "_code")
                  = Some (ofCode (codeAt dims i f))
                  /\ get before (getDimensionBaseName dimName ++ "_name")
                     = Some (labelOrCode (labelOf dimDef (codeAt dims i f)) (codeAt dims i f))).
    { apply (IH record i dimName dimDef Hin' Hnth).
      intros k n d Hk. apply Hother. apply in_or_app. now left. }
    unfold writeAt.
    destruct (nth_error dims j) as [[otherName otherDef]|] eqn:Ej; [|exact IH'].
    assert (Hb : getDimensionBaseName otherName <> getDimensionBaseName dimName).
    { apply (Hother j otherName otherDef); auto. apply in_or_app. right. now left. }
    destruct (writeDimension_get_other otherName otherDef (codeAt dims j f) before _ Hb)
      as [-> ->].
    exact IH'.
Qed.

Lemma recordAt_fields : forall dims f v,
  get (recordAt dims f v) "value" = Some (JNumber v)
  /\ forall i dimName dimDef,
       nth_error dims i = Some (dimName, dimDef) ->
       (forall j otherName otherDef,
          j <> i -> nth_error dims j = Some (otherName, otherDef) ->
          getDimensionBaseName otherName <> getDimensionBaseName dimName) ->
       get (recordAt dims f v) (getDimensionBaseName dimName ++ "_code")
       = Some (ofCode (codeAt dims i f))
       /\ get (recordAt dims f v) (getDimensionBaseName dimName ++ "_name")
          = Some (labelOrCode (labelOf dimDef (codeAt dims i f)) (codeAt dims i f)).
Proof.
  intros dims f v. rewrite recordAt_writeAt. split; [apply get_set_same|].
  intros i dimName dimDef Hnth Hother.
  rewrite !get_set_other
    by (intros H; symmetry in H; revert H;
        first [apply code_key_not_value | apply name_key_not_value]).
  apply writes_get with (i := i); try assumption.
  - rewrite <- in_rev. apply in_seq. split; [lia|]. simpl.
    apply nth_error_Some. congruence.
  - intros j n d _. apply Hother.
Qed.

End RecordFields.

Section DecodingClaims.



(** The decoder on a payload with a value array and dimensions, whatever
    the length of the array: it completes normally with one record per
    non-null entry, and with no empty dimension each record is the one the
    mixed-radix positions describe. *)
Lemma transform_present : forall (jsonStat2Data : Dataset) selection requestedAt values dims,
  value jsonStat2Data = Some values ->
  dimension jsonStat2Data = Some dims ->
  exists r,
    transformToStructuredData jsonStat2Data selection requestedAt = Normal r
    /\ data r = decodeFrom dims 0 values
    /\ List.length (data r) = List.length (nonNullFrom 0 values)
    /\ total_records (summary r) = List.length (nonNullFrom 0 values)
    /\ (Forall (fun s => s <> 0%nat) (dimensionSizes dims) ->
        data r = map (fun '(f, v) => recordAt dims f v) (nonNullFrom 0 values)).
Proof.
  intros jsonStat2Data selection requestedAt values dims Hv Hd.
  unfold transformToStructuredData. rewrite Hv, Hd. eexists. split; [reflexivity|].
  cbn [data summary total_records]. unfold entries.
  rewrite decodeFrom_nonNull, length_map. repeat split.
  intros Hpos. apply map_ext. intros [f v]. now apply decodeRecord_recordAt.
Qed.




(** C5 (as amended).  The decoder does not compare the length of the value
    array with the product of the dimension sizes and has no error for a
    mismatch: on every payload that has a value array and dimensions, of
    matching length or not, it completes normally with one record per
    non-null entry of the array.  With no empty dimension the record of
    flat index [f] is the one at the mixed-radix coordinates of [f], so that
    an index at or beyond the product of the sizes is decoded like the
    index reduced modulo the product. *)
Theorem decoder_checks_no_length :
  forall (jsonStat2Data : Dataset) selection requestedAt values dims,
    value jsonStat2Data = Some values ->
    dimension jsonStat2Data = Some dims ->
    exists r,
      transformToStructuredData jsonStat2Data selection requestedAt = Normal r
      /\ List.length (data r)
         = List.length (filter (fun x => match x with Some _ => true | None => false end) values)
      /\ total_records (summary r) = List.length (data r)
      /\ (Forall (fun s => s <> 0%nat) (dimensionSizes dims) ->
          data r = map (fun '(f, v) => recordAt dims f v) (nonNullFrom 0 values)
          /\ forall i m f, (i < List.length dims)%nat ->
               codeAt dims i (m * product (dimensionSizes dims) + f) = codeAt dims i f).
Proof.
  intros jsonStat2Data selection requestedAt values dims Hv Hd.
  destruct (transform_present jsonStat2Data selection requestedAt values dims Hv Hd)
    as (r & Hr & _ & Hlen & Htotal & Hspec).
  exists r. split; [exact Hr|]. split; [now rewrite Hlen, nonNullFrom_length|].
  split; [congruence|]. intros Hpos. split; [now apply Hspec|].
  intros i m f Hi. unfold codeAt.
  destruct (nth_error dims i) as [[dimName dimDef]|]; [|reflexivity].
  rewrite coordinate_periodic; [reflexivity|].
  unfold dimensionSizes. now rewrite length_map.
Qed.

Lemma decoder_checks_no_length_witness :
  exists r,
    transformToStructuredData tooShortPayload None "2024-05-01T00:00:00.000Z" = Normal r
    /\ List.length (data r) = 2%nat.
Proof.
  destruct (decoder_checks_no_length tooShortPayload None "2024-05-01T00:00:00.000Z"
              [Some 10%float; None; Some 30%float] exampleDimensions eq_refl eq_refl)
    as (r & Hr & Hlen & _).
  exists r. split; [exact Hr|exact Hlen].
Defined.

(** C5 (as stated) fails: the value array has five entries where the
    dimensions have four positions, and the decoder completes normally with
    four records, the last one for the entry past the end, decoded as
    (1484, 2023) like the first. *)
Lemma mismatch_is_not_flagged :
  List.length [Some 10%float; None; Some 30%float; Some 40%float; Some 50%float]
    <> product (dimensionSizes exampleDimensions)
  /\ exists r,
       transformToStructuredData tooLongPayload None "2024-05-01T00:00:00.000Z" = Normal r
       /\ data r = [ exampleRecord "1484" "Lysekil" "2023" 10%float;
                     exampleRecord "0180" "Stockholm" "2023" 30%float;
                     exampleRecord "0180" "Stockholm" "2024" 40%float;
                     exampleRecord "1484" "Lysekil" "2023" 50%float ].
Proof.
  split; [discriminate|]. eexists. split; reflexivity.
Qed.

(** C10.  When the value array is null or absent, or the dimensions are
    absent, the decoder completes normally with no records, and the summary
    says so. *)
Theorem decoder_without_values_or_dimensions :
  forall (jsonStat2Data : Dataset) selection requestedAt,
    value jsonStat2Data = None \/ dimension jsonStat2Data = None ->
    exists r,
      transformToStructuredData jsonStat2Data selection requestedAt = Normal r
      /\ data r = []
      /\ total_records (summary r) = 0%nat
      /\ has_data (summary r) = false.
Proof.
  intros jsonStat2Data selection requestedAt H. unfold transformToStructuredData.
  destruct (value jsonStat2Data) as [values|];
    destruct (dimension jsonStat2Data) as [dims|];
    try (destruct H; discriminate); eexists; repeat split.
Qed.

Lemma decoder_without_values_witness :
  exists r,
    transformToStructuredData exampleMetadata (Some regionSelection) "2024-05-01T00:00:00.000Z"
    = Normal r
    /\ data r = [] /\ total_records (summary r) = 0%nat /\ has_data (summary r) = false.
Proof.
  apply (decoder_without_values_or_dimensions exampleMetadata). left. reflexivity.
Defined.

End DecodingClaims.

(* ================================================================== *)
(** * Further properties *)
(* ================================================================== *)

(** ** The usage window under the client's operations *)

Section WindowExtras.

(** X1.  Calls of [makeRequest], [validateSelection] and [getTableData] run
    one after the other, whatever the transport answers and whatever the
    clock shows, never take [requestCount] above [maxCalls], provided no
    advertised capacity is negative. *)
Theorem operations_stay_within_quota : forall calls c,
  withinQuota c -> Forall clocksNonNegative calls ->
  withinQuota (fold_left perform calls c).
Proof.
  intros calls c Hq Hc.
  destruct (calls_history calls c) as (evs & Hs & Hr & Hcap).
  rewrite Hr. apply (sequential_prefix c evs Hs Hq (Hcap Hc) evs []).
  now rewrite app_nil_r.
Qed.

Lemma operations_stay_within_quota_witness :
  withinQuota (fold_left perform exampleCalls (newClient 0)).
Proof.
  apply operations_stay_within_quota.
  - reflexivity.
  - unfold exampleCalls. repeat constructor.
Defined.

Lemma afterInit_remaining : forall w c,
  remainingAccurate c -> remainingAccurate (afterInit w c).
Proof.
  intros w c H. unfold afterInit, remainingAccurate in *.
  destruct (rateLimitInfo c) eqn:E.
  - rewrite E. exact H.
  - unfold initializeRateLimit. rewrite E. simpl in *. rewrite H.
    destruct (configFetch w); unfold defaultRateLimit; simpl; lia.
Qed.

Lemma checkRateLimit_remaining : forall w c,
  remainingAccurate c -> remainingAccurate (snd (checkRateLimit w c)).
Proof.
  intros w c H. pose proof (afterInit_remaining w c H) as H1.
  destruct (rateLimitInfo (afterInit w c)) as [info|] eqn:E;
    [|exfalso; eapply afterInit_known; eauto].
  rewrite (checkRateLimit_unfold w c info E). cbv zeta.
  unfold remainingAccurate in H1. rewrite E in H1.
  destruct (resetTime info <=? checkNow w).
  - simpl. destruct (maxCalls info <=? 0); simpl; unfold remainingAccurate; simpl; lia.
  - rewrite E. destruct (maxCalls info <=? requestCount (afterInit w c)); simpl;
      unfold remainingAccurate; rewrite E; lia.
Qed.

Lemma recordCall_remaining : forall c,
  withinQuota (recordCall c) -> remainingAccurate (recordCall c).
Proof.
  intros c H. unfold withinQuota, remainingAccurate, recordCall in *. simpl in *.
  destruct (rateLimitInfo c); simpl in *; lia.
Qed.

Lemma sequential_remaining : forall c evs,
  sequential c evs -> withinQuota c -> remainingAccurate c ->
  Forall capacityNonNegative evs ->
  remainingAccurate (run evs c).
Proof.
  intros c evs Hs.
  induction Hs as [c|c w evs Hs IH|c w evs Hadm Hs IH]; intros Hq Hr Hcap.
  - exact Hr.
  - inversion Hcap; subst. simpl. apply IH; [| |assumption].
    + apply checkRateLimit_withinQuota; assumption.
    + now apply checkRateLimit_remaining.
  - inversion Hcap as [|? ? Hw Hrest]; subst. inversion Hrest; subst.
    simpl. pose proof (admitted_has_room w c Hq Hw Hadm) as Hroom.
    apply IH; [exact Hroom| |assumption].
    now apply recordCall_remaining.
Qed.

(** X2.  On a client that starts fresh, after any calls run one after the
    other, [remaining] is exactly [maxCalls] minus [requestCount] (with no
    negative advertised capacity). *)
Theorem remaining_is_capacity_minus_used : forall calls constructedAt,
  Forall clocksNonNegative calls ->
  remainingAccurate (fold_left perform calls (newClient constructedAt)).
Proof.
  intros calls t Hc.
  destruct (calls_history calls (newClient t)) as (evs & Hs & Hr & Hcap).
  rewrite Hr. apply sequential_remaining; auto; reflexivity.
Qed.

Lemma remaining_is_capacity_minus_used_witness :
  remainingAccurate (fold_left perform exampleCalls (newClient 0)).
Proof.
  apply remaining_is_capacity_minus_used. unfold exampleCalls. repeat constructor.
Defined.

Lemma ceilDiv_positive : forall a, 0 < a -> 0 < ceilDiv a 1000.
Proof.
  intros a Ha. unfold ceilDiv.
  assert (H : (- a) / 1000 < 0) by (apply Z.div_lt_upper_bound; lia).
  lia.
Qed.

(** X3.  Once the quota of the window is used up, a request made before
    [resetTime] is rejected with the rate-limit error, whose wait is a
    positive number of seconds; the client is left as it was, and the
    outcome does not depend on the transport: nothing is sent and nothing
    is counted. *)
Theorem exhausted_quota_rejects_untouched :
  forall T (w : Clock) (f : FetchOutcome T) (c : Client) (info : RateLimitInfo),
    rateLimitInfo c = Some info ->
    maxCalls info <= requestCount c ->
    checkNow w < resetTime info ->
    makeRequest w f c
    = (Throw (ErrorObject (rateLimitMessage (resetTime info - checkNow w)
                             (requestCount c) (maxCalls info))), c)
    /\ 0 < ceilDiv (resetTime info - checkNow w) 1000.
Proof.
  intros T w f c info Hi Hfull Hnow. split; [|apply ceilDiv_positive; lia].
  unfold makeRequest, bind, checkRateLimit. rewrite Hi. rewrite Hi.
  apply Z.leb_gt in Hnow. rewrite Hnow. rewrite Hi.
  apply Z.leb_le in Hfull. rewrite Hfull. reflexivity.
Qed.

Lemma exhausted_quota_witness :
  makeRequest midWindowClock metadataArrives exhaustedClient
  = (Throw (ErrorObject
       "Rate limit exceeded. Try again in 8 seconds. Current usage: 30/30"),
     exhaustedClient).
Proof.
  refine (eq_trans
            (proj1 (exhausted_quota_rejects_untouched Dataset midWindowClock metadataArrives
                      exhaustedClient _ eq_refl _ _)) _).
  - simpl. lia.
  - simpl. lia.
  - reflexivity.
Defined.

(** X4.  [makeRequest] returns data only from an admitted call whose
    response is ok, has a JSON content type and passes the schema, and
    then returns what the schema parsed.  Every response that arrives,
    whatever its status, is counted once; a rejected admission check and a
    transport failure are not counted. *)
Theorem makeRequest_returns_only_parsed_json :
  forall T (w : Clock) (f : FetchOutcome T) (c : Client),
    (forall d c',
        makeRequest w f c = (Normal d, c') <->
        admits w c = true
        /\ exists r,
             f = Resolved r /\ ok r = true
             /\ (exists ct, contentType r = Some ct /\ includes ct "application/json" = true)
             /\ parsed r = Normal d
             /\ c' = recordCall (snd (checkRateLimit w c)))
    /\ snd (makeRequest w f c)
       = match admits w c, f with
         | true, Resolved _ => recordCall (snd (checkRateLimit w c))
         | _, _ => snd (checkRateLimit w c)
         end.
Proof.
  intros T w f c. split.
  - intros d c'. unfold makeRequest, bind, admits.
    destruct (checkRateLimit w c) as [[[]|e] c1]; simpl.
    + destruct f as [e|r]; simpl.
      * split; [discriminate|]. intros [_ (r & Hr & _)]. discriminate.
      * unfold modify. destruct (ok r) eqn:Hok; simpl.
        -- destruct (contentType r) as [ct|] eqn:Hct; simpl.
           ++ destruct (String.eqb ct EmptyString) eqn:Hempty; simpl.
              ** apply String.eqb_eq in Hempty. subst ct.
                 unfold await. destruct (text r); simpl;
                   (split; [discriminate|]);
                   intros [_ (r' & Hr & _ & (ct & Hc & Hinc) & _)];
                   injection Hr as <-; rewrite Hct in Hc; injection Hc as <-;
                   discriminate.
              ** destruct (includes ct "application/json") eqn:Hinc; simpl.
                 --- unfold await. split.
                     +++ intros H. injection H as Hp <-. split; [reflexivity|].
                         exists r. repeat split; eauto.
                     +++ intros [_ (r' & Hr & _ & _ & Hp & ->)].
                         injection Hr as <-. now rewrite Hp.
                 --- unfold await. destruct (text r); simpl;
                       (split; [discriminate|]);
                       intros [_ (r' & Hr & _ & (ct' & Hc & Hinc') & _)];
                       injection Hr as <-; rewrite Hct in Hc; injection Hc as <-;
                       congruence.
           ++ unfold await. destruct (text r); simpl;
                (split; [discriminate|]);
                intros [_ (r' & Hr & _ & (ct' & Hc & _) & _)];
                injection Hr as <-; congruence.
        -- destruct (status r =? 429); simpl;
             (split; [discriminate|]);
             intros [_ (r' & Hr & Hok' & _)]; injection Hr as <-; congruence.
    + split; [discriminate|]. intros [H _]. discriminate.
  - rewrite makeRequest_history. unfold historyOf.
    destruct (admits w c); [destruct f|]; reflexivity.
Qed.

Lemma run_keeps_limits : forall evs c,
  rateLimitInfo c <> None ->
  knownLimits (run evs c) = knownLimits c /\ rateLimitInfo (run evs c) <> None.
Proof.
  induction evs as [|ev evs IH]; intros c Hk; simpl; [auto|].
  destruct (rateLimitInfo c) as [info|] eqn:E; [|congruence].
  assert (Hstep : knownLimits (step c ev) = knownLimits c /\ rateLimitInfo (step c ev) <> None).
  { destruct ev as [w|]; simpl.
    - assert (E' : rateLimitInfo (afterInit w c) = Some info)
        by (unfold afterInit; rewrite E; exact E).
      rewrite (checkRateLimit_unfold w c info E'). cbv zeta.
      unfold afterInit. rewrite E.
      destruct (resetTime info <=? checkNow w).
      + simpl. destruct (maxCalls info <=? 0);
          (simpl; unfold knownLimits; simpl; rewrite E; split; [reflexivity|discriminate]).
      + rewrite E. destruct (maxCalls info <=? requestCount c);
          (simpl; rewrite E; split; [reflexivity|discriminate]).
    - unfold knownLimits, recordCall. simpl. rewrite E. simpl.
      split; [reflexivity|discriminate]. }
  destruct Hstep as [H1 H2]. destruct (IH (step c ev) H2) as [H3 H4].
  split; [congruence|assumption].
Qed.

(** After its first admission check a client knows the limits of that
    check's config answer, and no later event of the history changes
    them. *)
Lemma first_check_fixes_limits : forall (w : Clock) (evs : list Event) (constructedAt : Z),
  knownLimits (run (AdmissionCheck w :: evs) (newClient constructedAt))
  = Some match configFetch w with
         | ConfigParsed maxCallsPerTimeWindow timeWindowSeconds =>
             (maxCallsPerTimeWindow, timeWindowSeconds)
         | _ => (30, 10)
         end.
Proof.
  intros w evs t. simpl.
  assert (Hk : rateLimitInfo (snd (checkRateLimit w (newClient t))) <> None
               /\ knownLimits (snd (checkRateLimit w (newClient t)))
                  = Some match configFetch w with
                         | ConfigParsed m s => (m, s)
                         | _ => (30, 10)
                         end).
  { assert (E : exists info,
               rateLimitInfo (afterInit w (newClient t)) = Some info
               /\ (maxCalls info, timeWindow info)
                  = match configFetch w with
                    | ConfigParsed m s => (m, s)
                    | _ => (30, 10)
                    end).
    { unfold afterInit, initializeRateLimit. simpl.
      destruct (configFetch w); eexists; split; reflexivity. }
    destruct E as (info & E & Hl).
    rewrite (checkRateLimit_unfold w (newClient t) info E). cbv zeta.
    destruct (resetTime info <=? checkNow w).
    - simpl. destruct (maxCalls info <=? 0);
        (simpl; unfold knownLimits; simpl; split; [discriminate|now rewrite Hl]).
    - rewrite E. destruct (maxCalls info <=? requestCount (afterInit w (newClient t)));
        (simpl; unfold knownLimits; rewrite E; split; [discriminate|now rewrite Hl]). }
  destruct Hk as [Hk1 Hk2].
  destruct (run_keeps_limits evs _ Hk1) as [H _]. now rewrite H.
Qed.

Lemma historyOf_first : forall T w (f : FetchOutcome T) c,
  exists rest, historyOf w f c = AdmissionCheck w :: rest.
Proof.
  intros T w f c. unfold historyOf. destruct (admits w c); [destruct f|]; eauto.
Qed.

(** The history of calls run one after the other starts with the first
    admission check of the first call. *)
Lemma calls_history_first : forall first calls c,
  exists evs,
    fold_left perform (first :: calls) c = run (AdmissionCheck (firstClock first) :: evs) c.
Proof.
  intros first calls c. cbn [fold_left].
  destruct (calls_history calls (perform c first)) as (evs2 & _ & Hr2 & _).
  assert (H1 : exists evs1, perform c first = run (AdmissionCheck (firstClock first) :: evs1) c).
  { destruct first as [T w f|tableId selection lang w f|tableId selection lang wv fv wd fd];
      cbn [perform firstClock].
    - rewrite makeRequest_history. destruct (historyOf_first T w f c) as [rest ->].
      now exists rest.
    - rewrite validateSelection_history.
      destruct (historyOf_first Dataset w f c) as [rest ->]. now exists rest.
    - destruct selection as [sel|]; cbn [firstClock].
      + unfold getTableData.
        pose proof (validateSelection_history tableId sel lang wv fv c) as Hv.
        unfold bind at 1.
        destruct (validateSelection tableId sel lang wv fv c) as [[validation|e] c1];
          simpl in Hv; subst c1.
        * destruct (historyOf_first Dataset wv fv c) as [rest Hrest].
          destruct (negb (isValid validation)).
          -- cbn [snd throw]. rewrite Hrest. now exists rest.
          -- rewrite metered_state by apply readDataResponse_state.
             rewrite <- run_app, Hrest.
             now exists (rest ++ historyOf wd fd (run (AdmissionCheck wv :: rest) c))%list.
        * cbn [snd]. destruct (historyOf_first Dataset wv fv c) as [rest ->].
          now exists rest.
      + unfold getTableData. rewrite makeRequest_history.
        destruct (historyOf_first Dataset wd fd c) as [rest ->]. now exists rest. }
  destruct H1 as [evs1 H1]. exists (evs1 ++ evs2)%list.
  rewrite Hr2, H1. change (AdmissionCheck (firstClock first) :: evs1 ++ evs2)%list
    with ((AdmissionCheck (firstClock first) :: evs1) ++ evs2)%list.
  now rewrite run_app.
Qed.

(** X5.  The limits are learned once.  When calls of [makeRequest],
    [validateSelection] and [getTableData] are run one after the other on
    a fresh client, the client knows from the first call on the capacity
    and the window length that call's config answer gave (30 calls per 10
    seconds when the config request failed), and no later call, whatever
    its config answer would say, changes them. *)
Theorem limits_are_learned_once :
  forall (first : Call) (calls : list Call) (constructedAt : Z),
    knownLimits (fold_left perform (first :: calls) (newClient constructedAt))
    = Some match configFetch (firstClock first) with
           | ConfigParsed maxCallsPerTimeWindow timeWindowSeconds =>
               (maxCallsPerTimeWindow, timeWindowSeconds)
           | _ => (30, 10)
           end.
Proof.
  intros first calls t.
  destruct (calls_history_first first calls (newClient t)) as [evs ->].
  apply first_check_fixes_limits.
Qed.

Lemma run_keeps_alignment : forall evs c,
  rateLimitInfo c <> None -> windowAligned c -> windowAligned (run evs c).
Proof.
  induction evs as [|ev evs IH]; intros c Hk Ha; simpl; [exact Ha|].
  destruct (run_keeps_limits [ev] c Hk) as [_ Hk'].
  apply IH; [exact Hk'|].
  destruct ev as [w|]; simpl.
  - now apply check_keeps_alignment.
  - now apply recordCall_keeps_alignment.
Qed.

(** X6.  When a call whose first admission check starts a new window is
    followed by calls run one after the other, [resetTime] is
    [windowStartTime] plus [timeWindow] seconds after every one of
    them. *)
Theorem window_stays_aligned_after_reset :
  forall (first : Call) (calls : list Call) (c : Client) (info : RateLimitInfo),
    rateLimitInfo (afterInit (firstClock first) c) = Some info ->
    resetTime info <= checkNow (firstClock first) ->
    windowAligned (fold_left perform (first :: calls) c).
Proof.
  intros first calls c info E Hle.
  destruct (calls_history_first first calls c) as [evs ->].
  simpl. apply run_keeps_alignment.
  - destruct (checkRateLimit_resets (firstClock first) c info E Hle) as (_ & _ & Hi & _).
    change (step c (AdmissionCheck (firstClock first)))
      with (snd (checkRateLimit (firstClock first) c)).
    rewrite Hi. discriminate.
  - eapply reset_aligns_window; eauto.
Qed.

Lemma window_stays_aligned_witness :
  windowAligned
    (fold_left perform
       (RequestCall Dataset {| configFetch := ConfigThrows; initNow := 0; checkNow := 12000 |}
          metadataArrives :: exampleCalls)
       (newClient 0)).
Proof.
  eapply window_stays_aligned_after_reset.
  - reflexivity.
  - simpl. lia.
Defined.

End WindowExtras.

(** ** What the validator accepts *)

Section ValidationExtras.

Lemma checkText_counts : forall tableId varCode availableValues token es ss,
  let m := checkText tableId varCode availableValues (es, ss) token in
  let n := if acceptableValue availableValues (Text token) then 0%nat else 1%nat in
  List.length (fst m) = (List.length es + n)%nat
  /\ List.length (snd m) = (List.length ss + n)%nat.
Proof.
  intros tableId varCode availableValues token es ss. cbv zeta.
  unfold checkText, acceptableValue, isExpression, push.
  destruct (String.eqb token "*" || startsWith token "TOP(" || startsWith token "BOTTOM("
            || startsWith token "RANGE("); simpl.
  - split; lia.
  - destruct (arrayIncludes availableValues token); simpl.
    + split; lia.
    + rewrite !length_app. simpl. split; lia.
Qed.

Lemma checkTexts_counts : forall tableId varCode availableValues tokens es ss,
  let m := fold_left (checkText tableId varCode availableValues) tokens (es, ss) in
  let n := List.length (filter (fun token => negb (acceptableValue availableValues token))
                               (map Text tokens)) in
  List.length (fst m) = (List.length es + n)%nat
  /\ List.length (snd m) = (List.length ss + n)%nat.
Proof.
  intros tableId varCode availableValues tokens.
  induction tokens as [|token tokens IH]; intros es ss; cbv zeta; cbn [fold_left filter map].
  - simpl. split; lia.
  - destruct (checkText_counts tableId varCode availableValues token es ss) as [H1 H2].
    destruct (checkText tableId varCode availableValues (es, ss) token) as [es1 ss1].
    cbn [fst snd] in H1, H2. destruct (IH es1 ss1) as [H3 H4]. cbv zeta in H3, H4.
    rewrite H3, H4, H1, H2.
    destruct (acceptableValue availableValues (Text token));
      cbn [negb List.length]; split; lia.
Qed.

Lemma checkVariable_counts : forall tableId dims entry es ss m,
  checkVariable tableId dims (es, ss) entry = Normal m ->
  List.length (fst m) = (List.length es + entryErrors dims entry)%nat
  /\ List.length (snd m) = (List.length ss + entryErrors dims entry)%nat.
Proof.
  intros tableId dims [varCode tokens] es ss m H.
  unfold checkVariable, push in H. unfold entryErrors. simpl fst. simpl snd.
  destruct (get dims varCode) as [varDef|].
  - rewrite checkValues_cases in H. pose proof (texts_isText tokens) as Ht.
    destruct (texts tokens) as [strings|]; [|discriminate].
    destruct Ht as [-> _]. injection H as <-. apply checkTexts_counts.
  - injection H as <-. simpl. rewrite !length_app. simpl. split; lia.
Qed.

Lemma checkVariables_counts : forall tableId dims (sel : Translated) es ss m,
  foldM (checkVariable tableId dims) sel (es, ss) = Normal m ->
  List.length (fst m) = (List.length es + list_sum (map (entryErrors dims) sel))%nat
  /\ List.length (snd m) = (List.length ss + list_sum (map (entryErrors dims) sel))%nat.
Proof.
  intros tableId dims sel. induction sel as [|entry sel IH]; intros es ss m H;
    cbn [foldM map] in *.
  - injection H as <-. simpl. split; lia.
  - change (list_sum (entryErrors dims entry :: map (entryErrors dims) sel))
      with (entryErrors dims entry + list_sum (map (entryErrors dims) sel))%nat.
    destruct (checkVariable tableId dims (es, ss) entry) as [[es1 ss1]|e] eqn:E;
      [|discriminate].
    destruct (checkVariable_counts tableId dims entry es ss _ E) as [H1 H2].
    simpl in H1, H2. destruct (IH es1 ss1 m H) as [H3 H4].
    rewrite H3, H4, H1, H2. split; lia.
Qed.

(** The numbers of errors and suggestions of a selection whose checks ran
    to their end. *)
Lemma checkSelection_counts : forall tableId dims (sel : Translated) r,
  checkSelection tableId dims sel = Normal r ->
  let missing := match missingVariables (keys dims) (keys sel) with
                 | [] => 0%nat
                 | _ :: _ => 1%nat
                 end in
  List.length (errors r) = (missing + list_sum (map (entryErrors dims) sel))%nat
  /\ List.length (suggestions r) = (List.length (errors r) + missing)%nat
  /\ isValid r = (List.length (errors r) =? 0)%nat
  /\ translatedSelection r = Some sel.
Proof.
  intros tableId dims sel r H. cbv zeta. unfold checkSelection in H.
  set (m0 := checkMissing (missingVariables (keys dims) (keys sel)) ([], [])) in *.
  assert (H0 : List.length (fst m0)
               = match missingVariables (keys dims) (keys sel) with
                 | [] => 0%nat | _ :: _ => 1%nat end
               /\ List.length (snd m0) = (2 * List.length (fst m0))%nat).
  { unfold m0, checkMissing, push.
    destruct (missingVariables (keys dims) (keys sel)); simpl; auto. }
  destruct m0 as [es0 ss0]. simpl in H0. destruct H0 as [H0 H0'].
  unfold entries in H.
  destruct (foldM (checkVariable tableId dims) sel (es0, ss0)) as [[es ss]|e] eqn:E;
    [|discriminate].
  destruct (checkVariables_counts tableId dims sel es0 ss0 _ E) as [H1 H2].
  injection H as <-. simpl in *.
  split; [lia|]. split; [lia|]. split; reflexivity.
Qed.

Lemma entryErrors_zero : forall dims entry,
  entryErrors dims entry = 0%nat <-> acceptableEntry dims entry.
Proof.
  intros dims [varCode tokens]. unfold entryErrors, acceptableEntry. simpl.
  destruct (get dims varCode) as [varDef|].
  - rewrite length_zero_iff_nil. split.
    + intros H. exists varDef. split; [reflexivity|]. intros token Hin.
      destruct (acceptableValue (keys (index (category varDef))) token) eqn:E; [reflexivity|].
      assert (Hf : In token (filter (fun token => negb (acceptableValue
                     (keys (index (category varDef))) token)) tokens)).
      { apply filter_In. split; [assumption|]. now rewrite E. }
      rewrite H in Hf. destruct Hf.
    + intros (d & Hd & Hall). injection Hd as <-.
      destruct (filter _ tokens) as [|x l] eqn:E; [reflexivity|].
      assert (Hx : In x (x :: l)) by now left.
      rewrite <- E in Hx. apply filter_In in Hx. destruct Hx as [Hin Hx].
      rewrite (Hall x Hin) in Hx. discriminate.
  - split; [discriminate|]. intros (d & Hd & _). discriminate.
Qed.

Lemma list_sum_zero : forall l, list_sum l = 0%nat <-> Forall (fun n => n = 0%nat) l.
Proof.
  induction l as [|n l IH]; simpl.
  - split; [constructor|reflexivity].
  - split.
    + intros H. constructor; [lia|]. apply IH. lia.
    + intros H. inversion H; subst. apply IH in H3. lia.
Qed.

Lemma missing_none : forall (dims : object Dimension) (sel : Translated),
  missingVariables (keys dims) (keys sel) = []
  <-> forall code, In code (keys dims) -> In code (keys sel).
Proof.
  intros dims sel. split.
  - intros H code Hin.
    destruct (in_dec string_dec code (keys sel)) as [Hs|Hs]; [assumption|].
    assert (Hx : In code (missingVariables (keys dims) (keys sel)))
      by (apply missingVariables_In; auto).
    rewrite H in Hx. destruct Hx.
  - intros H. destruct (missingVariables (keys dims) (keys sel)) as [|x l] eqn:E;
      [reflexivity|].
    assert (Hx : In x (missingVariables (keys dims) (keys sel)))
      by (rewrite E; now left).
    apply missingVariables_In in Hx. destruct Hx as [H1 H2]. exfalso. auto.
Qed.

(** Entries the validator lets through hold strings only, so that the
    checks run to their end. *)
Lemma acceptable_checkable : forall (dims : object Dimension) (sel : Translated),
  Forall (acceptableEntry dims) sel -> checkable dims sel = true.
Proof.
  intros dims sel H. unfold checkable. apply forallb_forall. intros [varCode values] Hin.
  rewrite Forall_forall in H. destruct (H _ Hin) as (varDef & _ & Hok). simpl in Hok.
  apply orb_true_iff. right. apply forallb_forall. intros [s|member] Hv; [reflexivity|].
  specialize (Hok _ Hv). discriminate.
Qed.

Lemma checkSelection_valid_iff : forall tableId dims (sel : Translated) r,
  checkSelection tableId dims sel = Normal r ->
  (isValid r = true <->
   (forall code, In code (keys dims) -> In code (keys sel))
   /\ Forall (acceptableEntry dims) sel).
Proof.
  intros tableId dims sel r Hr.
  destruct (checkSelection_counts tableId dims sel r Hr) as (He & _ & Hv & _). cbv zeta in *.
  rewrite Hv, Nat.eqb_eq, He.
  pose proof (missing_none dims sel) as Hm.
  assert (Hs : list_sum (map (entryErrors dims) sel) = 0%nat
               <-> Forall (acceptableEntry dims) sel).
  { rewrite list_sum_zero, Forall_map. split; intros H; eapply Forall_impl; try exact H;
      intros entry; apply entryErrors_zero. }
  rewrite <- Hm, <- Hs.
  destruct (missingVariables (keys dims) (keys sel)); split.
  - intros H. split; [reflexivity|lia].
  - intros [_ H]. lia.
  - intros H. lia.
  - intros [H _]. discriminate.
Qed.

(** What [validateSelection] returns once the metadata has arrived with
    its dimensions: the result of the checks, or the result of the catch
    clause when a value loop throws. *)
Lemma validateSelection_checked :
  forall tableId (selection : Selection) lang w f c md c1 dims,
    getTableMetadata tableId lang w f c = (Normal md, c1) ->
    dimension md = Some dims ->
    exists translated r,
      resolveSelection selection lang = Normal translated
      /\ keys translated = keys (translateCommonVariables selection lang)
      /\ validateSelection tableId selection lang w f c = (Normal r, c1)
      /\ ((checkable dims translated = true
           /\ checkSelection tableId dims translated = Normal r)
          \/ (checkable dims translated = false
              /\ r = caught (ErrorObject "value.startsWith is not a function"))).
Proof.
  intros tableId selection lang w f c md c1 dims Hfetch Hdims.
  destruct (validateSelection_cases tableId selection lang w f c) as (translated & Hr & Hk & Hv).
  rewrite Hfetch, Hdims in Hv. exists translated.
  destruct (checkSelection_cases tableId dims translated) as [[Hc (r & Hs & _)]|[Hc Hs]];
    rewrite Hs in Hv; eexists; (split; [exact Hr|]); (split; [exact Hk|]);
    (split; [exact Hv|]); [left|right]; auto.
Qed.

(** X7.  When the metadata has arrived with its dimensions, the selection
    is valid exactly when the translated selection names every dimension
    of the table and each of its entries is a dimension of the table whose
    values are codes of that dimension, the wildcard, or tokens starting
    with [TOP(], [BOTTOM(] or [RANGE(]. *)
Theorem valid_exactly_for_complete_known_selections :
  forall tableId (selection : Selection) lang w f c md c1 dims,
    getTableMetadata tableId lang w f c = (Normal md, c1) ->
    dimension md = Some dims ->
    exists translated r,
      resolveSelection selection lang = Normal translated
      /\ validateSelection tableId selection lang w f c = (Normal r, c1)
      /\ (isValid r = true <->
          (forall code, In code (keys dims) -> In code (keys translated))
          /\ Forall (acceptableEntry dims) translated).
Proof.
  intros tableId selection lang w f c md c1 dims Hfetch Hdims.
  destruct (validateSelection_checked tableId selection lang w f c md c1 dims Hfetch Hdims)
    as (translated & r & Hr & _ & Hv & [[_ Hs]|[Hc ->]]);
    exists translated; eexists; (split; [exact Hr|]); (split; [exact Hv|]).
  - now apply (checkSelection_valid_iff tableId).
  - split; [discriminate|]. intros [_ Hall].
    apply acceptable_checkable in Hall. congruence.
Qed.

Lemma valid_selection_witness :
  exists r,
    validateSelection "TAB638" completeSelection "en" fallbackClock metadataArrives
      (newClient 0)
    = (Normal r, recordCall (snd (checkRateLimit fallbackClock (newClient 0))))
    /\ isValid r = true.
Proof.
  destruct (valid_exactly_for_complete_known_selections "TAB638" completeSelection "en"
              fallbackClock metadataArrives (newClient 0) exampleMetadata
              (recordCall (snd (checkRateLimit fallbackClock (newClient 0))))
              exampleDimensions eq_refl eq_refl) as (translated & r & Ht & Hr & Hiff).
  exists r. split; [exact Hr|]. apply Hiff.
  vm_compute in Ht. injection Ht as <-. split.
  - intros code [<-|[<-|[]]]; simpl; auto.
  - repeat constructor; eexists; (split; [reflexivity|]);
      intros token [<-|[]]; reflexivity.
Defined.

(** X8.  A selection whose checks ran to their end has a suggestion for
    every error: as many suggestions as errors, and one more when
    dimensions are missing (the missing-dimension error comes with two).
    The number of errors is one for the missing dimensions, if any, one
    per unknown variable and one per unknown value of a known variable.
    When a value of a variable of the table is no string, the value loop
    throws, and the result has the one error and the one suggestion of
    the catch clause. *)
Theorem every_error_has_a_suggestion :
  forall tableId (selection : Selection) lang w f c md c1 dims,
    getTableMetadata tableId lang w f c = (Normal md, c1) ->
    dimension md = Some dims ->
    exists translated r,
      resolveSelection selection lang = Normal translated
      /\ validateSelection tableId selection lang w f c = (Normal r, c1)
      /\ (checkable dims translated = true ->
          List.length (errors r)
          = ((match missingVariables (keys dims) (keys translated) with
              | [] => 0 | _ :: _ => 1 end)
             + list_sum (map (entryErrors dims) translated))%nat
          /\ List.length (suggestions r)
             = (List.length (errors r)
                + match missingVariables (keys dims) (keys translated) with
                  | [] => 0 | _ :: _ => 1 end)%nat)
      /\ (checkable dims translated = false ->
          errors r = ["Validation failed: value.startsWith is not a function"]
          /\ List.length (suggestions r) = 1%nat).
Proof.
  intros tableId selection lang w f c md c1 dims Hfetch Hdims.
  destruct (validateSelection_checked tableId selection lang w f c md c1 dims Hfetch Hdims)
    as (translated & r & Hr & _ & Hv & [[Hc Hs]|[Hc ->]]);
    exists translated; eexists; (split; [exact Hr|]); (split; [exact Hv|]).
  - split; [|congruence]. intros _.
    destruct (checkSelection_counts tableId dims translated r Hs) as (H1 & H2 & _).
    split; assumption.
  - split; [congruence|]. intros _. split; reflexivity.
Qed.

Lemma every_error_has_a_suggestion_witness :
  exists r,
    validateSelection "TAB638" unknownRegion "en" fallbackClock metadataArrives (newClient 0)
    = (Normal r, recordCall (snd (checkRateLimit fallbackClock (newClient 0))))
    /\ List.length (errors r) = 2%nat /\ List.length (suggestions r) = 3%nat.
Proof.
  destruct (every_error_has_a_suggestion "TAB638" unknownRegion "en"
              fallbackClock metadataArrives (newClient 0) exampleMetadata
              (recordCall (snd (checkRateLimit fallbackClock (newClient 0))))
              exampleDimensions eq_refl eq_refl) as (translated & r & Ht & Hr & Hc & _).
  vm_compute in Ht. injection Ht as <-.
  destruct (Hc eq_refl) as [He Hs].
  exists r. split; [exact Hr|]. split; [exact He|]. rewrite Hs, He. reflexivity.
Defined.

End ValidationExtras.

(** ** Translation of whole selections *)

Section TranslationExtras.

Lemma startsWith_split : forall p s,
  startsWith s p = true -> exists rest, s = (p ++ rest)%string.
Proof.
  unfold startsWith. induction p as [|c p IH]; intros s H.
  - exists s. reflexivity.
  - destruct s as [|d s]; simpl in H; [discriminate|].
    destruct (ascii_dec c d) as [->|Hne]; [|discriminate].
    destruct (IH s H) as [rest ->]. now exists rest.
Qed.

Lemma matchesYearMonth_letter : forall c s,
  isDigit c = false -> matchesYearMonth (String c s) = false.
Proof.
  intros c s H. unfold matchesYearMonth.
  destruct s as [|b [|c' [|d [|h [|e [|f [|]]]]]]]; try reflexivity.
  now rewrite H.
Qed.

(** The lower-case form of an expression token is the key of no value
    table, and the token is no year or month. *)
Lemma expression_settled : forall token, isExpression token = true -> settled token = true.
Proof.
  intros token H. unfold isExpression in H.
  repeat (apply orb_true_iff in H; destruct H as [H|H]).
  - apply String.eqb_eq in H. subst. reflexivity.
  - apply startsWith_split in H. destruct H as [rest ->].
    unfold settled. simpl append.
    rewrite !toLowerCase_cons by reflexivity.
    rewrite matchesYearMonth_letter by reflexivity.
    rewrite andb_true_r. vm_compute. reflexivity.
  - apply startsWith_split in H. destruct H as [rest ->].
    unfold settled. simpl append.
    rewrite !toLowerCase_cons by reflexivity.
    rewrite matchesYearMonth_letter by reflexivity.
    rewrite andb_true_r. vm_compute. reflexivity.
  - apply startsWith_split in H. destruct H as [rest ->].
    unfold settled. simpl append.
    rewrite !toLowerCase_cons by reflexivity.
    rewrite matchesYearMonth_letter by reflexivity.
    rewrite andb_true_r. vm_compute. reflexivity.
Qed.

(** X9.  The wildcard and the expression tokens ([TOP(...], [BOTTOM(...],
    [RANGE(...]) pass through the value translation unchanged under every
    variable name, and the validator raises no error for them under a known
    variable: a value list made of such tokens comes back as it is and adds
    no message. *)
Theorem expression_tokens_pass_unexamined :
  forall (tokens : list string) (variableName tableId : string)
         (availableValues : list string) (m : Messages),
    Forall (fun token => isExpression token = true) tokens ->
    translateCommonValues (map Text tokens) variableName = Normal (map Text tokens)
    /\ foldM (checkValue tableId variableName availableValues) (map Text tokens) m
       = Normal m.
Proof.
  intros tokens variableName tableId availableValues m H. split.
  - rewrite translateCommonValues_texts. f_equal. apply map_ext_in. intros token Hin.
    rewrite Forall_forall in H. apply settled_fixed. now apply expression_settled, H.
  - induction H as [|token tokens Hx H IH]; simpl; [reflexivity|].
    replace (checkText tableId variableName availableValues m token) with m; [exact IH|].
    unfold checkText. destruct m as [es ss]. unfold isExpression in Hx. now rewrite Hx.
Qed.

Lemma expression_tokens_witness :
  translateCommonValues [Text "*"; Text "TOP(5)"; Text "RANGE(2020,2023)"; Text "BOTTOM(2)"]
    "Tid"
  = Normal [Text "*"; Text "TOP(5)"; Text "RANGE(2020,2023)"; Text "BOTTOM(2)"].
Proof.
  apply (expression_tokens_pass_unexamined ["*"; "TOP(5)"; "RANGE(2020,2023)"; "BOTTOM(2)"]
           "Tid" "TAB638" [] ([], [])).
  repeat constructor.
Defined.

Lemma translate_get : forall (sel acc : Selection) code,
  get (fold_left (fun t '(key, values) => set t (mappedKey key) values) sel acc) code
  = match get (translatedEntries sel) code with
    | Some values => Some values
    | None => get acc code
    end.
Proof.
  unfold translatedEntries.
  induction sel as [|[key values] sel IH]; intros acc code; simpl; [reflexivity|].
  rewrite IH. clear IH.
  assert (Happ : forall (o1 o2 : Selection) k,
             get (o1 ++ o2)%list k = match get o1 k with
                                     | Some v => Some v
                                     | None => get o2 k
                                     end).
  { induction o1 as [|[k1 v1] o1 IH1]; intros o2 k; simpl; [reflexivity|].
    destruct (String.eqb k1 k); [reflexivity|apply IH1]. }
  rewrite Happ. destruct (get (rev _) code) as [v|]; [reflexivity|].
  simpl. destruct (String.eqb (mappedKey key) code) eqn:E.
  - apply String.eqb_eq in E. subst. apply get_set_same.
  - apply String.eqb_neq in E. now apply get_set_other.
Qed.

(** X10.  The translated selection has one entry per canonical code that
    some key of the selection translates to, and the entry holds the
    values of the last such key; codes no key translates to are absent. *)
Theorem translated_selection_holds_last_values : forall (selection : Selection) lang,
  NoDup (keys (translateCommonVariables selection lang))
  /\ (forall code,
        In code (keys (translateCommonVariables selection lang))
        <-> exists key, In key (keys selection) /\ mappedKey key = code)
  /\ (forall code,
        get (translateCommonVariables selection lang) code
        = get (translatedEntries selection) code).
Proof.
  intros selection lang.
  assert (Hget : forall code,
             get (translateCommonVariables selection lang) code
             = get (translatedEntries selection) code).
  { intros code. unfold translateCommonVariables, entries. rewrite translate_get.
    now destruct (get (translatedEntries selection) code). }
  split; [apply translated_keys_NoDup; constructor|]. split; [|exact Hget].
  intros code.
  assert (Hk : In code (keys (translateCommonVariables selection lang))
               <-> get (translateCommonVariables selection lang) code <> None).
  { rewrite get_None_keys. destruct (in_dec string_dec code
                                       (keys (translateCommonVariables selection lang)));
      tauto. }
  rewrite Hk, Hget, get_None_keys. unfold translatedEntries, keys.
  rewrite map_rev, map_map, <- in_rev. split.
  - intros H. destruct (in_dec string_dec code
        (map (fun x => fst (let '(key, values) := x in (mappedKey key, values))) selection))
      as [Hin|Hin]; [|tauto].
    apply in_map_iff in Hin. destruct Hin as ([key values] & Hc & Hin).
    exists key. split; [|exact Hc]. apply in_map_iff. now exists (key, values).
  - intros (key & Hin & Hc) Hn. apply Hn. apply in_map_iff in Hin.
    destruct Hin as ([key' values] & Hk' & Hin). simpl in Hk'. subst key'.
    apply in_map_iff. exists (key, values). auto.
Qed.

Lemma fixed_keys_translate : forall (o : Selection) lang,
  NoDup (keys o) -> (forall k, In k (keys o) -> mappedKey k = k) ->
  translateCommonVariables o lang = o.
Proof.
  intros o lang Hnd Hfix. unfold translateCommonVariables, entries.
  rewrite (fold_left_ext_in _ _ _ (fun r '(k, v) => set r k v)).
  - now apply rebuild.
  - intros a [k v] Hin. f_equal. apply Hfix. now apply (in_map fst) in Hin.
Qed.

(** X11.  Resolving a selection (names, then values under the translated
    names) returns a selection with exactly the keys of the name
    translation.  When the resolved selection holds strings only, so that
    it is a selection a caller could have typed, resolving that selection
    returns it unchanged. *)
Theorem resolved_selection_is_stable : forall (selection : Selection) lang,
  exists translated,
    resolveSelection selection lang = Normal translated
    /\ keys translated = keys (translateCommonVariables selection lang)
    /\ forall typed : Selection,
         asTranslated typed = translated ->
         resolveSelection typed lang = Normal translated.
Proof.
  intros selection lang.
  destruct (resolveSelection_keys selection lang) as (translated & Hr & Hk).
  exists translated. split; [exact Hr|]. split; [exact Hk|].
  intros typed Ht.
  assert (Hkeys : keys typed = keys (translateCommonVariables selection lang)).
  { rewrite <- Hk, <- Ht. unfold asTranslated. symmetry.
    apply (keys_map_values _ _ (fun _ values => map Text values)). }
  rewrite resolveSelection_map in Hr. injection Hr as Hr.
  rewrite resolveSelection_map, fixed_keys_translate.
  - rewrite <- Ht. unfold asTranslated. apply f_equal. apply map_ext_in.
    intros [code values] Hin. f_equal. apply map_ext_in. intros s Hs.
    assert (Hin' : In (code, map Text values) translated).
    { rewrite <- Ht. unfold asTranslated.
      apply (in_map (fun '(key, values) => (key, map Text values)) _ _ Hin). }
    rewrite <- Hr in Hin'. apply in_map_iff in Hin'.
    destruct Hin' as ([code' values'] & E & _). injection E as -> E.
    assert (Hs' : In (Text s) (map (translateText code) values'))
      by (rewrite E; now apply in_map).
    apply in_map_iff in Hs'. destruct Hs' as (original & Ho & _).
    eapply translateText_idempotent; eauto.
  - rewrite Hkeys. apply translated_keys_NoDup. constructor.
  - rewrite Hkeys. intros k Hin.
    apply (translated_keys_fixed selection []); [intros ? []|exact Hin].
Qed.

Lemma resolved_selection_witness :
  resolveSelection [("Region", ["1484"]); ("Tid", ["2024"; "2023M07"])] "en"
  = Normal [ ("Region", [Text "1484"]); ("Tid", [Text "2024"; Text "2023M07"]) ].
Proof.
  destruct (resolved_selection_is_stable informalSelection "en") as (translated & Hr & _ & H).
  vm_compute in Hr. injection Hr as <-.
  apply H. reflexivity.
Defined.

(** X12.  For a table whose dimension codes the name table leaves as they
    are, the selection that gives every dimension the wildcard is
    unchanged by resolution and valid, with no error and no suggestion. *)
Theorem wildcard_selection_is_valid : forall tableId lang (dims : object Dimension),
  NoDup (keys dims) ->
  (forall code, In code (keys dims) -> mappedKey code = code) ->
  resolveSelection (wildcardSelection dims) lang
  = Normal (asTranslated (wildcardSelection dims))
  /\ checkSelection tableId dims (asTranslated (wildcardSelection dims))
     = Normal {| isValid := true; errors := []; suggestions := [];
                 translatedSelection := Some (asTranslated (wildcardSelection dims)) |}.
Proof.
  intros tableId lang dims Hnd Hfix.
  set (sel := asTranslated (wildcardSelection dims)).
  assert (Hkeys : keys (wildcardSelection dims) = keys dims).
  { unfold wildcardSelection, keys. rewrite map_map. simpl. apply map_id. }
  assert (Hkeys' : keys sel = keys dims).
  { rewrite <- Hkeys. apply (keys_map_values _ _ (fun _ values => map Text values)). }
  split.
  - rewrite resolveSelection_map, fixed_keys_translate; try (rewrite Hkeys; assumption).
    unfold sel, asTranslated, wildcardSelection. rewrite !map_map.
    apply f_equal. apply map_ext. intros code. f_equal. simpl. f_equal.
    now apply settled_fixed.
  - assert (Hall : Forall (acceptableEntry dims) sel).
    { unfold sel, asTranslated, wildcardSelection. rewrite map_map.
      apply Forall_forall. intros entry Hin.
      apply in_map_iff in Hin. destruct Hin as (code & <- & Hin).
      destruct (get dims code) as [varDef|] eqn:E.
      - exists varDef. split; [exact E|]. intros token [<-|[]]. reflexivity.
      - apply get_None_keys in E. contradiction. }
    destruct (checkSelection_cases tableId dims sel) as [[_ (r & Hr & _)]|[Hc _]];
      [|rewrite (acceptable_checkable dims sel Hall) in Hc; discriminate].
    rewrite Hr. f_equal.
    assert (Hvalid : isValid r = true).
    { apply (checkSelection_valid_iff tableId dims sel r Hr). split; [now rewrite Hkeys'|].
      exact Hall. }
    destruct (checkSelection_counts tableId dims sel r Hr) as (_ & Hs & Hv & Ht).
    cbv zeta in Hs, Hv. rewrite Hvalid in Hv. symmetry in Hv. apply Nat.eqb_eq in Hv.
    assert (Hm : missingVariables (keys dims) (keys sel) = []).
    { apply missing_none. now rewrite Hkeys'. }
    rewrite Hm, Hv in Hs. simpl in Hs.
    apply length_zero_iff_nil in Hv. apply length_zero_iff_nil in Hs.
    destruct r as [v es ss t]. simpl in *. now subst.
Qed.

Lemma wildcard_selection_witness :
  checkSelection "TAB638" exampleDimensions [("Region", [Text "*"]); ("Tid", [Text "*"])]
  = Normal {| isValid := true; errors := []; suggestions := [];
              translatedSelection := Some [("Region", [Text "*"]); ("Tid", [Text "*"])] |}.
Proof.
  apply (proj2 (wildcard_selection_is_valid "TAB638" "en" exampleDimensions
                  ltac:(repeat constructor; simpl; intuition discriminate)
                  ltac:(intros code [<-|[<-|[]]]; reflexivity))).
Defined.

(** X13.  A table with a dimension whose code the name table rewrites
    (such as [year], [region] or [age]) accepts no selection: that code is
    never a key of a translated selection, so whatever the caller writes
    the dimension is missing and the selection is not valid. *)
Theorem rewritten_dimension_code_is_always_missing :
  forall tableId (selection : Selection) lang w f c md c1 dims code,
    getTableMetadata tableId lang w f c = (Normal md, c1) ->
    dimension md = Some dims ->
    In code (keys dims) ->
    mappedKey code <> code ->
    exists translated r,
      resolveSelection selection lang = Normal translated
      /\ ~ In code (keys translated)
      /\ In code (missingVariables (keys dims) (keys translated))
      /\ (forall checked, checkSelection tableId dims translated = Normal checked ->
                          isValid checked = false)
      /\ validateSelection tableId selection lang w f c = (Normal r, c1)
      /\ isValid r = false.
Proof.
  intros tableId selection lang w f c md c1 dims code Hfetch Hdims Hin Hne.
  destruct (validateSelection_checked tableId selection lang w f c md c1 dims Hfetch Hdims)
    as (translated & r & Hr & Hk & Hv & Hcases).
  assert (Hout : ~ In code (keys translated)).
  { rewrite Hk. intros H.
    apply Hne. apply (translated_keys_fixed selection []); [intros ? []|exact H]. }
  assert (Hchecked : forall checked, checkSelection tableId dims translated = Normal checked ->
                                     isValid checked = false).
  { intros checked Hs. destruct (isValid checked) eqn:E; [|reflexivity].
    apply (checkSelection_valid_iff tableId dims translated checked Hs) in E.
    destruct E as [E _]. exfalso. auto. }
  exists translated, r. split; [exact Hr|]. split; [exact Hout|].
  split; [apply missingVariables_In; auto|]. split; [exact Hchecked|]. split; [exact Hv|].
  destruct Hcases as [[_ Hs]|[_ ->]]; [now apply Hchecked|reflexivity].
Qed.

Lemma rewritten_dimension_code_witness :
  exists r,
    validateSelection "TAB640" [("Region", ["*"]); ("year", ["*"])] "en" fallbackClock
      (jsonResponse (Normal {| id := Some ["TAB640"]; label := "Population"; source := None;
                               updated := None; size := [2; 2];
                               dimension := Some yearDimensions; value := None |}))
      (newClient 0)
    = (Normal r, recordCall (snd (checkRateLimit fallbackClock (newClient 0))))
    /\ isValid r = false.
Proof.
  destruct (rewritten_dimension_code_is_always_missing "TAB640"
              [("Region", ["*"]); ("year", ["*"])] "en" fallbackClock
              (jsonResponse (Normal {| id := Some ["TAB640"]; label := "Population";
                                       source := None; updated := None; size := [2; 2];
                                       dimension := Some yearDimensions; value := None |}))
              (newClient 0) _ _ yearDimensions "year" eq_refl eq_refl
              ltac:(simpl; auto) ltac:(discriminate))
    as (translated & r & _ & _ & _ & _ & Hv & Hvalid).
  exists r. split; [exact Hv|exact Hvalid].
Defined.

End TranslationExtras.

(** ** Data requests *)

Section DataRequestExtras.

(** X14.  When the metadata request of the validation fails for any reason
    (the quota is used up, the transport fails, the server answers with an
    error, the answer is no JSON or does not pass the schema),
    [getTableData] with a selection throws the validation failure that
    wraps the reason together with the advice to check the table id; it
    does not go on to the data request, whose clock and transport have no
    influence, and the client is left as the metadata request left it. *)
Theorem data_request_stops_at_failed_metadata :
  forall tableId (selection : Selection) lang wv fv wd fd c e c1,
    getTableMetadata tableId lang wv fv c = (Throw e, c1) ->
    getTableData tableId (Some selection) lang wv fv wd fd c
    = (Throw (ErrorObject
                ("Selection validation failed:" ++ newline
                 ++ "Validation failed: " ++ describe e
                 ++ newline ++ newline ++ "Suggestions:" ++ newline
                 ++ "Try checking if the table ID is correct with scb_get_table_info")),
       c1).
Proof.
  intros tableId selection lang wv fv wd fd c e c1 H.
  destruct (validateSelection_cases tableId selection lang wv fv c) as (translated & _ & _ & Hv).
  rewrite H in Hv. unfold getTableData, bind. rewrite Hv. reflexivity.
Qed.

Lemma data_request_stops_witness :
  getTableData "TAB638" (Some regionSelection) "en" fallbackClock networkDown
    fallbackClock (jsonResponse (Normal examplePayload)) (newClient 0)
  = (Throw (ErrorObject
              ("Selection validation failed:" ++ newline
               ++ "Validation failed: request to https://api.scb.se failed"
               ++ newline ++ newline ++ "Suggestions:" ++ newline
               ++ "Try checking if the table ID is correct with scb_get_table_info")),
     {| rateLimitInfo := Some (defaultRateLimit 0); requestCount := 0; windowStartTime := 0 |}).
Proof.
  apply (data_request_stops_at_failed_metadata "TAB638" regionSelection "en"
           fallbackClock networkDown fallbackClock (jsonResponse (Normal examplePayload))
           (newClient 0) (ErrorObject "request to https://api.scb.se failed")).
  reflexivity.
Defined.

(** X15.  [getTableData] with a selection returns data exactly when the
    selection validated, the second admission check admitted the data
    request, the response is ok and its body passes the schema (the content
    type is not looked at); the data are what the schema parsed, and the
    client has recorded the data request.  An invalid selection throws the
    validation failure and leaves the client as the validation left it. *)
Theorem data_request_returns_only_after_validation :
  forall tableId (selection : Selection) lang wv fv wd fd c,
    exists validation c1,
      validateSelection tableId selection lang wv fv c = (Normal validation, c1)
      /\ (isValid validation = false ->
          getTableData tableId (Some selection) lang wv fv wd fd c
          = (Throw (validationFailure validation), c1))
      /\ (forall d c2,
            getTableData tableId (Some selection) lang wv fv wd fd c = (Normal d, c2)
            <-> isValid validation = true
                /\ admits wd c1 = true
                /\ exists r,
                     fd = Resolved r /\ ok r = true /\ parsed r = Normal d
                     /\ c2 = recordCall (snd (checkRateLimit wd c1))).
Proof.
  intros tableId selection lang wv fv wd fd c.
  assert (Hn : exists validation c1,
             validateSelection tableId selection lang wv fv c = (Normal validation, c1)).
  { unfold validateSelection, tryCatch.
    destruct (validateBody tableId selection lang wv fv c) as [[r|e] c1];
      eexists _, _; reflexivity. }
  destruct Hn as (validation & c1 & Hv). exists validation, c1.
  split; [exact Hv|]. unfold getTableData, bind. rewrite Hv. split.
  - intros Hf. rewrite Hf. reflexivity.
  - intros d c2. destruct (isValid validation); simpl.
    + unfold admits. destruct (checkRateLimit wd c1) as [[[]|e] c1']; simpl.
      * destruct fd as [e|r]; simpl.
        -- split; [discriminate|]. intros (_ & _ & r & Hr & _). discriminate.
        -- unfold modify, readDataResponse. destruct (ok r) eqn:Hok; simpl.
           ++ unfold await. split.
              ** intros H. injection H as Hp <-. repeat split. exists r. auto.
              ** intros (_ & _ & r' & Hr & _ & Hp & ->). injection Hr as <-.
                 now rewrite Hp.
           ++ destruct (status r =? 429); [|destruct (status r =? 403);
                                            [|destruct (status r =? 400)]];
                (split; [discriminate|]);
                intros (_ & _ & r' & Hr & Hok' & _); injection Hr as <-; congruence.
      * split; [discriminate|]. intros (_ & H & _). discriminate.
    + split; [discriminate|]. intros (H & _). discriminate.
Qed.

Lemma data_request_witness :
  getTableData "TAB638" (Some unknownRegion) "en" fallbackClock metadataArrives
    fallbackClock (jsonResponse (Normal examplePayload)) (newClient 0)
  = (Throw (ErrorObject
              ("Selection validation failed:" ++ newline
               ++ "Missing mandatory variables: Tid" ++ newline
               ++ "Value " ++ quoted "9999" ++ " not found for variable " ++ quoted "Region"
               ++ newline ++ newline ++ "Suggestions:" ++ newline
               ++ "SCB tables require all dimensions to be specified. Add these variables to your selection: Tid"
               ++ newline
               ++ "Use " ++ quoted "*" ++ " as value to select all values for a dimension, e.g. {"
               ++ quoted "Tid" ++ ": [" ++ quoted "*" ++ "]}"
               ++ newline
               ++ "Use scb_get_table_variables with tableId=" ++ quoted "TAB638"
               ++ " and variableName=" ++ quoted "Region" ++ " to see all values")),
     recordCall (snd (checkRateLimit fallbackClock (newClient 0)))).
Proof.
  destruct (data_request_returns_only_after_validation "TAB638" unknownRegion "en"
              fallbackClock metadataArrives
              fallbackClock (jsonResponse (Normal examplePayload)) (newClient 0))
    as (validation & c1 & Hv & Hinvalid & _).
  vm_compute in Hv. injection Hv as <- <-.
  rewrite (Hinvalid eq_refl). vm_compute. reflexivity.
Defined.

End DataRequestExtras.

(** ** Decoded summaries and flat indices *)

Section DecoderExtras.

Lemma decodeRecord_value : forall dims f v,
  get (decodeRecord dims f v) "value" = Some (JNumber v).
Proof.
  intros dims f v. unfold decodeRecord.
  destruct (fold_left decodeStep _ _) as [temp record]. apply get_set_same.
Qed.

(** [record.value || 0] on a number. *)
Lemma decodeFrom_summary : forall dims values k,
  let records := decodeFrom dims k values in
  filter hasValue records = records
  /\ forall a, fold_left (fun sum record => (sum + valueOrZero record)%float) records a
               = fold_left (fun sum v => (sum + (if falsyNumber v then 0 else v))%float)
                           (map snd (nonNullFrom k values)) a.
Proof.
  intros dims values. induction values as [|x values IH]; intros k; cbv zeta.
  - simpl. split; reflexivity.
  - destruct (IH (S k)) as [H1 H2]. cbv zeta in H1, H2.
    destruct x as [v|]; cbn [decodeFrom nonNullFrom]; [|split; assumption].
    assert (Hh : hasValue (decodeRecord dims k v) = true)
      by (unfold hasValue; now rewrite decodeRecord_value).
    assert (Hz : valueOrZero (decodeRecord dims k v) = if falsyNumber v then 0%float else v)
      by (unfold valueOrZero; now rewrite decodeRecord_value).
    cbn [filter fold_left map snd]. rewrite Hh, Hz.
    split; [now rewrite H1|]. intros a. apply H2.
Qed.

(** X16.  For a payload with a value array and dimensions, the summary
    counts the non-null entries of the array ([total_records] and
    [non_null_records] are the same number), [total_value] is the
    floating-point sum of these entries, added one by one from left to
    right starting from 0 (an entry that is 0 or NaN adds 0), and
    [has_data] holds exactly when some entry is not null. *)
Theorem decoder_summary_counts_present_values :
  forall (jsonStat2Data : Dataset) selection requestedAt values dims,
    value jsonStat2Data = Some values ->
    dimension jsonStat2Data = Some dims ->
    exists r,
      transformToStructuredData jsonStat2Data selection requestedAt = Normal r
      /\ total_records (summary r) = List.length (presentValues values)
      /\ non_null_records (summary r) = Some (List.length (presentValues values))
      /\ total_value (summary r)
         = Some (fold_left (fun sum v => (sum + (if falsyNumber v then 0 else v))%float)
                           (presentValues values) 0%float)
      /\ (has_data (summary r) = true <->
          exists f v, nth_error values f = Some (Some v)).
Proof.
  intros jsonStat2Data selection requestedAt values dims Hv Hd.
  unfold transformToStructuredData. rewrite Hv, Hd. eexists. split; [reflexivity|].
  cbn [summary total_records non_null_records total_value has_data]. unfold entries.
  destruct (decodeFrom_summary dims values 0) as [H1 H2]. cbv zeta in H1, H2.
  rewrite H1, H2, decodeFrom_nonNull, length_map. unfold presentValues. rewrite length_map.
  repeat split.
  - intros H. apply Nat.ltb_lt in H.
    destruct (nonNullFrom 0 values) as [|[f v] l] eqn:E; [simpl in H; lia|].
    exists f, v. assert (Hin : In (f, v) (nonNullFrom 0 values)) by (rewrite E; now left).
    apply nonNullFrom_In in Hin. now rewrite Nat.sub_0_r in Hin.
  - intros (f & v & H). apply Nat.ltb_lt.
    assert (Hin : In (f, v) (nonNullFrom 0 values)).
    { apply nonNullFrom_In. rewrite Nat.sub_0_r. split; [lia|assumption]. }
    destruct (nonNullFrom 0 values); [destruct Hin|simpl; lia].
Qed.

Lemma decoder_summary_witness :
  exists r,
    transformToStructuredData roundingPayload None "2024-05-01T00:00:00.000Z" = Normal r
    /\ total_records (summary r) = 3%nat
    /\ total_value (summary r) = Some 9007199254740992%float.
Proof.
  destruct (decoder_summary_counts_present_values roundingPayload None
              "2024-05-01T00:00:00.000Z"
              [Some 9007199254740992%float; None; Some 1%float; Some 1%float]
              exampleDimensions eq_refl eq_refl) as (r & Hr & Ht & _ & Hs & _).
  exists r. split; [exact Hr|]. split; [exact Ht|exact Hs].
Defined.

Lemma coordinates_tail : forall s sizes f,
  coordinates (s :: sizes) f
  = coordinate (s :: sizes) 0 f :: coordinates sizes f.
Proof.
  intros s sizes f. unfold coordinates. cbn [List.length seq map]. f_equal.
  rewrite <- seq_shift, map_map. apply map_ext. intros i. apply coordinate_tail.
Qed.

Lemma coordinates_periodic : forall sizes m e,
  coordinates sizes (m * product sizes + e) = coordinates sizes e.
Proof.
  intros sizes m e. unfold coordinates. apply map_ext_in. intros i Hi.
  apply in_seq in Hi. apply coordinate_periodic. lia.
Qed.

(** Below the product of the sizes, a flat index is the encoding of its
    own coordinates, each coordinate lies below the size of its dimension,
    and two flat indices with the same coordinates are the same index. *)
Lemma flat_index_is_encoding_of_its_coordinates : forall (sizes : list nat) (f : nat),
  (f < product sizes)%nat ->
  encode sizes (coordinates sizes f) = f
  /\ Forall2 lt (coordinates sizes f) sizes
  /\ forall g, (g < product sizes)%nat -> coordinates sizes g = coordinates sizes f -> g = f.
Proof.
  assert (Henc : forall sizes f, (f < product sizes)%nat ->
             encode sizes (coordinates sizes f) = f
             /\ Forall2 lt (coordinates sizes f) sizes).
  { induction sizes as [|s sizes IH]; intros f Hf.
    - simpl in Hf. split; [simpl; lia|constructor].
    - change (product (s :: sizes)) with (s * product sizes)%nat in Hf.
      assert (Hp : product sizes <> 0%nat) by (intros E; rewrite E in Hf; lia).
      rewrite coordinates_tail.
      assert (Hc0 : coordinate (s :: sizes) 0 f = (f / product sizes)%nat).
      { unfold coordinate, stride. simpl skipn. simpl nth.
        apply Nat.mod_small. apply Nat.Div0.div_lt_upper_bound. lia. }
      assert (Hrest : coordinates sizes f = coordinates sizes (f mod product sizes)).
      { rewrite (Nat.div_mod_eq f (product sizes)) at 1.
        rewrite (Nat.mul_comm (product sizes)). apply coordinates_periodic. }
      destruct (IH (f mod product sizes)%nat) as [He Hr];
        [now apply Nat.mod_upper_bound|].
      rewrite Hc0, Hrest. split.
      + cbn [encode]. rewrite He.
        rewrite (Nat.div_mod_eq f (product sizes)) at 3. lia.
      + constructor; [|exact Hr]. apply Nat.Div0.div_lt_upper_bound. lia. }
  intros sizes f Hf. destruct (Henc sizes f Hf) as [He Hr].
  split; [exact He|]. split; [exact Hr|].
  intros g Hg Heq. destruct (Henc sizes g Hg) as [Hg' _]. congruence.
Qed.

(** X17.  Distinct positions decode to distinct records.  For dimensions
    whose base names differ and whose codes are distinct within each
    dimension, two flat indices below the product of the dimension sizes
    that the decoder turns into the same record (for the same value) are
    the same index: the codes of a record identify its position in the
    flat array. *)
Theorem decoded_record_identifies_its_position :
  forall (dims : list (string * Dimension)) (f g : nat) (v : number),
    NoDup (map getDimensionBaseName (keys dims)) ->
    (forall dimName dimDef, In (dimName, dimDef) dims ->
                            NoDup (keys (index (category dimDef)))) ->
    (f < product (dimensionSizes dims))%nat ->
    (g < product (dimensionSizes dims))%nat ->
    decodeRecord dims f v = decodeRecord dims g v ->
    f = g.
Proof.
  intros dims f g v Hbase Hcodes Hf Hg Heq.
  assert (Hpos : Forall (fun s => s <> 0%nat) (dimensionSizes dims))
    by (apply product_positive; lia).
  rewrite !decodeRecord_recordAt in Heq by assumption.
  assert (Hlen : List.length (dimensionSizes dims) = List.length dims)
    by (unfold dimensionSizes; apply length_map).
  symmetry.
  apply (proj2 (proj2 (flat_index_is_encoding_of_its_coordinates _ f Hf)) g Hg).
  unfold coordinates. apply map_ext_in. intros i Hi. apply in_seq in Hi.
  rewrite Hlen in Hi.
  destruct (nth_error dims i) as [[dimName dimDef]|] eqn:Hnth;
    [|apply nth_error_None in Hnth; lia].
  assert (Hother : forall j otherName otherDef,
             j <> i -> nth_error dims j = Some (otherName, otherDef) ->
             getDimensionBaseName otherName <> getDimensionBaseName dimName).
  { intros j otherName otherDef Hne Hj Hsame.
    apply Hne. rewrite NoDup_nth_error in Hbase. apply Hbase.
    - unfold keys. rewrite !length_map. apply nth_error_Some. congruence.
    - unfold keys. rewrite !nth_error_map, Hj, Hnth. simpl. now rewrite Hsame. }
  destruct (recordAt_fields dims f v) as [_ Hff].
  destruct (recordAt_fields dims g v) as [_ Hfg].
  destruct (Hff i dimName dimDef Hnth Hother) as [Hcf _].
  destruct (Hfg i dimName dimDef Hnth Hother) as [Hcg _].
  rewrite Heq in Hcf. rewrite Hcf in Hcg. injection Hcg as Hcode.
  destruct (codeAt_defined dims i f dimName dimDef Hpos Hnth) as [Hltf [cf Hdf]].
  destruct (codeAt_defined dims i g dimName dimDef Hpos Hnth) as [Hltg [cg Hdg]].
  rewrite Hdf, Hdg in Hcode. simpl in Hcode. injection Hcode as <-.
  unfold codeAt in Hdf, Hdg. rewrite Hnth in Hdf, Hdg.
  assert (Hnd : NoDup (keys (index (category dimDef)))).
  { apply (Hcodes dimName). eapply nth_error_In; eauto. }
  rewrite NoDup_nth_error in Hnd. apply Hnd; [exact Hltg|congruence].
Qed.

Lemma decoded_record_position_witness :
  NoDup (map getDimensionBaseName (keys exampleDimensions)) /\
  (2 < product (dimensionSizes exampleDimensions))%nat /\
  decodeRecord exampleDimensions 2 10%float = decodeRecord exampleDimensions 2 10%float /\
  2%nat = 2%nat.
Proof.
  assert (Hbase : NoDup (map getDimensionBaseName (keys exampleDimensions)))
    by (repeat constructor; simpl; intuition discriminate).
  assert (Hlt : (2 < product (dimensionSizes exampleDimensions))%nat)
    by (vm_compute; lia).
  split; [exact Hbase|]. split; [exact Hlt|]. split; [reflexivity|].
  apply (decoded_record_identifies_its_position exampleDimensions 2 2 10%float).
  - exact Hbase.
  - intros dimName dimDef [E|[E|[]]]; injection E as <- <-;
      repeat constructor; simpl; intuition discriminate.
  - exact Hlt.
  - exact Hlt.
  - reflexivity.
Defined.

End DecoderExtras.

(** ** The tool handlers *)

Section HandlerExtras.

Lemma sliceTo_firstn : forall (A : Type) (n : Z) (xs : list A),
  0 <= n -> sliceTo n xs = firstn (Z.to_nat n) xs.
Proof.
  intros A n xs Hn. unfold sliceTo.
  destruct (n <? 0) eqn:E; [apply Z.ltb_lt in E; lia|].
  destruct (Z_le_gt_dec n (Z.of_nat (List.length xs))) as [Hle|Hgt].
  - now rewrite Z.min_l.
  - rewrite Z.min_r by lia. rewrite Nat2Z.id.
    rewrite firstn_all. symmetry. apply firstn_all2. lia.
Qed.

Lemma sliceTo_prefix : forall (A : Type) (n : Z) (xs : list A),
  exists rest, xs = (sliceTo n xs ++ rest)%list.
Proof.
  intros A n xs. unfold sliceTo. eexists. symmetry. apply firstn_skipn.
Qed.

Lemma sliceTo_length : forall (A : Type) (n : Z) (xs : list A),
  0 <= n -> List.length (sliceTo n xs) = Nat.min (Z.to_nat n) (List.length xs).
Proof. intros A n xs Hn. rewrite sliceTo_firstn by assumption. apply length_firstn. Qed.

Lemma sliceTo_In : forall (A : Type) (n : Z) (xs : list A) x,
  In x (sliceTo n xs) -> In x xs.
Proof.
  intros A n xs x H. destruct (sliceTo_prefix A n xs) as [rest E].
  rewrite E. apply in_or_app. now left.
Qed.

Lemma firstn_In : forall (A : Type) (n : nat) (xs : list A) x,
  In x (firstn n xs) -> In x xs.
Proof.
  intros A n xs x H. rewrite <- (firstn_skipn n xs). apply in_or_app. now left.
Qed.

Lemma previewValues_cases : forall values,
  (existsb (fun v => String.eqb v "*" || startsWith v "TOP(" || startsWith v "BOTTOM(")
           values = true
   /\ previewValues values = map (fun v => if String.eqb v "*" then "TOP(3)" else v) values)
  \/ (Forall (fun v => (String.eqb v "*" || startsWith v "TOP(" || startsWith v "BOTTOM(")
                       = false) values
      /\ previewValues values = firstn 3 values).
Proof.
  intros values. unfold previewValues.
  destruct (existsb _ values) eqn:E.
  - left. auto.
  - right. split; [|now apply sliceTo_firstn].
    apply Forall_forall. intros v Hin.
    destruct (String.eqb v "*" || startsWith v "TOP(" || startsWith v "BOTTOM(") eqn:Ev;
      [|reflexivity].
    assert (Hx : existsb (fun v => String.eqb v "*" || startsWith v "TOP("
                                   || startsWith v "BOTTOM(") values = true)
      by (apply existsb_exists; eauto).
    congruence.
Qed.

Lemma previewValues_idempotent : forall values,
  previewValues (previewValues values) = previewValues values.
Proof.
  intros values. destruct (previewValues_cases values) as [[He ->]|[Hf ->]].
  - set (g := fun v : string => if String.eqb v "*" then "TOP(3)" else v).
    assert (Hg : forall v, g (g v) = g v).
    { intros v. unfold g. destruct (String.eqb v "*") eqn:E; [reflexivity|now rewrite E]. }
    destruct (previewValues_cases (map g values)) as [[_ ->]|[Hf _]].
    + rewrite map_map. apply map_ext. exact Hg.
    + exfalso. apply existsb_exists in He. destruct He as (v & Hin & Hv).
      rewrite Forall_forall in Hf. specialize (Hf (g v) (in_map g _ _ Hin)).
      unfold g in Hf. destruct (String.eqb v "*") eqn:E; [discriminate|].
      congruence.
  - destruct (previewValues_cases (firstn 3 values)) as [[He _]|[_ ->]].
    + exfalso. apply existsb_exists in He. destruct He as (v & Hin & Hv).
      rewrite Forall_forall in Hf. apply firstn_In in Hin. rewrite (Hf v Hin) in Hv.
      discriminate.
    + rewrite firstn_firstn. reflexivity.
Qed.

(** An assignment under the key [__proto__] adds no property: the preview
    is built from the other entries. *)
Lemma preview_fold : forall (g : list string -> list string) (sel acc : Selection),
  fold_left (fun preview '(key, values) => assign preview key (g values)) sel acc
  = fold_left (fun preview '(key, values) => set preview key (g values))
              (filter (fun '(key, _) => negb (String.eqb key "__proto__")) sel) acc.
Proof.
  intros g sel. induction sel as [|[key values] sel IH]; intros acc; simpl; [reflexivity|].
  unfold assign at 2. destruct (String.eqb key "__proto__"); simpl; apply IH.
Qed.

Lemma filter_all : forall (A : Type) (p : A -> bool) (l : list A),
  (forall x, In x l -> p x = true) -> filter p l = l.
Proof.
  intros A p l. induction l as [|x l IH]; intros H; simpl; [reflexivity|].
  rewrite (H x) by now left. f_equal. apply IH. intros y Hy. apply H. now right.
Qed.

Lemma NoDup_keys_filter : forall (A : Type) (p : string * A -> bool) (o : object A),
  NoDup (keys o) -> NoDup (keys (filter p o)).
Proof.
  intros A p o. unfold keys. induction o as [|[k v] o IH]; intros H; simpl; [constructor|].
  inversion H as [|? ? Hk Hrest]; subst.
  destruct (p (k, v)); simpl; [|now apply IH].
  constructor; [|now apply IH].
  intros Hin. apply Hk. apply in_map_iff in Hin. destruct Hin as (x & Hx & Hin).
  apply filter_In in Hin. apply in_map_iff. exists x. tauto.
Qed.

Lemma previewSelection_map : forall (selection : Selection),
  NoDup (keys selection) ->
  previewSelection (Some selection)
  = Some (map (fun '(key, values) => (key, previewValues values))
              (filter (fun '(key, _) => negb (String.eqb key "__proto__")) selection)).
Proof.
  intros selection Hnd. unfold previewSelection, entries. f_equal.
  rewrite preview_fold.
  rewrite (rebuild_with _ _ (fun _ values => previewValues values)).
  apply rebuild. rewrite keys_map_values. now apply NoDup_keys_filter.
Qed.

(** X18.  The selection a preview asks for has the keys of the caller's
    selection, in the same order, except the key [__proto__], under which
    an assignment adds no property.  Each value list is limited: no
    wildcard is left in it, every value of the preview is a value of the
    caller or [TOP(3)], no list gets longer, a list without wildcard and
    expression tokens is cut to its first three values, and limiting a
    limited list changes nothing. *)
Theorem preview_selection_is_limited : forall (selection : Selection),
  NoDup (keys selection) ->
  previewSelection (Some selection)
  = Some (map (fun '(key, values) => (key, previewValues values))
              (filter (fun '(key, _) => negb (String.eqb key "__proto__")) selection))
  /\ (~ In "__proto__" (keys selection) ->
      previewSelection (Some selection)
      = Some (map (fun '(key, values) => (key, previewValues values)) selection))
  /\ forall key values,
       In (key, values) selection ->
       ~ In "*" (previewValues values)
       /\ (forall v, In v (previewValues values) -> In v values \/ v = "TOP(3)")
       /\ (List.length (previewValues values) <= List.length values)%nat
       /\ (Forall (fun v => isExpression v = false) values ->
           previewValues values = firstn 3 values)
       /\ previewValues (previewValues values) = previewValues values.
Proof.
  intros selection Hnd. split; [now apply previewSelection_map|]. split.
  - intros Hp. rewrite previewSelection_map by assumption. do 2 f_equal.
    apply filter_all. intros [key values] Hin.
    apply negb_true_iff, String.eqb_neq. intros ->.
    apply Hp. apply in_map_iff. now exists ("__proto__", values).
  - intros key values _.
    destruct (previewValues_cases values) as [[He E]|[Hf E]].
    + split; [|split; [|split; [|split]]].
      * rewrite E. intros Hin. apply in_map_iff in Hin. destruct Hin as (v & Hv & _).
        destruct (String.eqb v "*") eqn:Es; [discriminate|].
        subst v. discriminate.
      * rewrite E. intros v Hin. apply in_map_iff in Hin. destruct Hin as (v' & Hv & Hin).
        destruct (String.eqb v' "*"); [now right|]. subst. now left.
      * rewrite E, length_map. lia.
      * intros Hall. exfalso. apply existsb_exists in He. destruct He as (v & Hin & Hv).
        rewrite Forall_forall in Hall. specialize (Hall v Hin). unfold isExpression in Hall.
        apply orb_false_iff in Hall. destruct Hall as [Hall _]. congruence.
      * apply previewValues_idempotent.
    + split; [|split; [|split; [|split]]].
      * rewrite E. intros Hin. apply firstn_In in Hin.
        rewrite Forall_forall in Hf. specialize (Hf "*" Hin). discriminate.
      * rewrite E. intros v Hin. left. now apply firstn_In in Hin.
      * rewrite E, length_firstn. lia.
      * intros _. exact E.
      * apply previewValues_idempotent.
Qed.

Lemma preview_selection_witness :
  previewSelection (Some longSelection)
  = Some [ ("Region", ["TOP(3)"; "TOP(2)"]);
           ("Tid", ["2019"; "2020"; "2021"]);
           ("Alder", ["RANGE(20,64)"; "tot"; "0"]) ].
Proof.
  apply (proj1 (proj2 (preview_selection_is_limited longSelection
                         ltac:(repeat constructor; simpl; intuition discriminate)))).
  simpl. intuition discriminate.
Defined.

Lemma set_map_values : forall (g : list string -> list string) (o : Selection) k v,
  set (map (fun '(key, values) => (key, g values)) o) k (g v)
  = map (fun '(key, values) => (key, g values)) (set o k v).
Proof.
  intros g o k v. induction o as [|[k0 v0] o IH]; simpl; [reflexivity|].
  destruct (String.eqb k0 k); simpl; [reflexivity|]. now rewrite IH.
Qed.

Lemma translate_map_values : forall (g : list string -> list string) (sel : Selection) lang,
  translateCommonVariables (map (fun '(key, values) => (key, g values)) sel) lang
  = map (fun '(key, values) => (key, g values)) (translateCommonVariables sel lang).
Proof.
  intros g sel lang. unfold translateCommonVariables, entries.
  change (@nil (string * list string))
    with (map (fun '(key, values) => (key, g values)) (@nil (string * list string))) at 1.
  generalize (@nil (string * list string)) as acc.
  induction sel as [|[k v] sel IH]; intros acc; simpl; [reflexivity|].
  rewrite set_map_values. apply IH.
Qed.

(** X19.  If a selection with no key [__proto__] validates against a
    table, so does the selection its preview asks for: limiting the value
    lists keeps the keys, and every value it keeps or puts in ([TOP(3)])
    is one the validator accepts. *)
Theorem preview_of_valid_selection_is_valid :
  forall tableId lang (dims : object Dimension) (selection limited : Selection)
         (translated : Translated) (r : ValidationResult),
    NoDup (keys selection) ->
    ~ In "__proto__" (keys selection) ->
    previewSelection (Some selection) = Some limited ->
    resolveSelection selection lang = Normal translated ->
    checkSelection tableId dims translated = Normal r ->
    isValid r = true ->
    exists limitedTranslated limitedResult,
      resolveSelection limited lang = Normal limitedTranslated
      /\ checkSelection tableId dims limitedTranslated = Normal limitedResult
      /\ isValid limitedResult = true.
Proof.
  intros tableId lang dims selection limited translated r Hnd Hproto Hp Ht Hr Hvalid.
  rewrite (proj1 (proj2 (preview_selection_is_limited selection Hnd)) Hproto) in Hp.
  injection Hp as <-.
  apply (checkSelection_valid_iff tableId dims translated r Hr) in Hvalid.
  destruct Hvalid as [Hkeys Hall].
  rewrite resolveSelection_map in Ht. injection Ht as <-.
  eexists. 
  assert (Hgoal : (forall code, In code (keys dims) ->
                     In code (keys (map (fun '(code, values) =>
                                           (code, map (translateText code) values))
                                        (translateCommonVariables
                                           (map (fun '(key, values) =>
                                                   (key, previewValues values)) selection)
                                           lang))))
                  /\ Forall (acceptableEntry dims)
                        (map (fun '(code, values) => (code, map (translateText code) values))
                             (translateCommonVariables
                                (map (fun '(key, values) => (key, previewValues values))
                                     selection) lang))).
  { rewrite translate_map_values. rewrite keys_map_values in *. rewrite map_map.
    split.
    - intros code Hin. specialize (Hkeys code Hin).
      unfold keys in *. rewrite map_map. rewrite in_map_iff in *.
      destruct Hkeys as ([k v] & Hk & Hin'). exists (k, v). auto.
    - rewrite Forall_map in *. eapply Forall_impl; [|exact Hall].
      intros [code values] (varDef & Hget & Hok). simpl in *.
      exists varDef. split; [exact Hget|]. simpl. intros token Hin.
      apply in_map_iff in Hin. destruct Hin as (u & <- & Hu).
      destruct (previewValues_cases values) as [[_ E]|[_ E]]; rewrite E in Hu.
      + apply in_map_iff in Hu. destruct Hu as (u0 & <- & Hu0).
        destruct (String.eqb u0 "*").
        * rewrite settled_fixed by reflexivity. reflexivity.
        * apply Hok. apply in_map_iff. eauto.
      + apply firstn_In in Hu. apply Hok. apply in_map_iff. eauto. }
  destruct Hgoal as [Hk' Hall'].
  destruct (checkSelection_cases tableId dims
              (map (fun '(code, values) => (code, map (translateText code) values))
                   (translateCommonVariables
                      (map (fun '(key, values) => (key, previewValues values)) selection)
                      lang)))
    as [[_ (r' & Hr' & _)]|[Hc _]];
    [|rewrite (acceptable_checkable _ _ Hall') in Hc; discriminate].
  exists r'. split; [apply resolveSelection_map|]. split; [exact Hr'|].
  apply (checkSelection_valid_iff tableId dims _ r' Hr'). auto.
Qed.

Lemma preview_of_valid_selection_witness :
  previewSelection (Some wideSelection)
  = Some [("municipality", ["TOP(3)"]); ("year", ["2023"; "2024"; "2023"])]
  /\ exists limitedTranslated limitedResult,
       resolveSelection [("municipality", ["TOP(3)"]); ("year", ["2023"; "2024"; "2023"])] "en"
       = Normal limitedTranslated
       /\ checkSelection "TAB638" exampleDimensions limitedTranslated = Normal limitedResult
       /\ isValid limitedResult = true.
Proof.
  split; [reflexivity|].
  refine (preview_of_valid_selection_is_valid "TAB638" "en" exampleDimensions
            wideSelection _
            [("Region", [Text "*"]); ("Tid", [Text "2023"; Text "2024"; Text "2023"; Text "2024"])]
            {| isValid := true; errors := []; suggestions := [];
               translatedSelection :=
                 Some [("Region", [Text "*"]);
                       ("Tid", [Text "2023"; Text "2024"; Text "2023"; Text "2024"])] |}
            _ _ _ _ _ _).
  - repeat constructor; simpl; intuition discriminate.
  - simpl. intuition discriminate.
  - reflexivity.
  - reflexivity.
  - reflexivity.
  - reflexivity.
Defined.

(** X20.  The search answer shows a page of the tables that pass the
    category filter: the tables shown are tables of the response that pass
    the filter, as many as the page size (20 when none or zero is given) if
    there are that many, never more than pass the filter; and with no
    category, an empty one, or one that is none of population, labour,
    economy and housing, every table of the response passes. *)
Theorem search_shows_a_page_of_filtered_tables :
  forall (args : SearchArgs) w f c (result : TablesResponse) c1,
    makeRequest w f c = (Normal result, c1) ->
    exists out,
      handleSearchTables args w f c = (Normal out, c1)
      /\ (List.length (so_tables out) <= total_filtered out <= total_unfiltered out)%nat
      /\ (0 <= page_size (so_query out) ->
          List.length (so_tables out)
          = Nat.min (Z.to_nat (page_size (so_query out))) (total_filtered out))
      /\ (sa_pageSize args = None \/ sa_pageSize args = Some 0 ->
          page_size (so_query out) = 20)
      /\ (forall shown, In shown (so_tables out) ->
            exists table,
              In table (tables result) /\ shown = summarize table
              /\ forall category, truthyString (sa_category args) = Some category ->
                   inCategory (toLowerCase category) table = true)
      /\ ((forall category, truthyString (sa_category args) = Some category ->
             ~ In (toLowerCase category) ["population"; "labour"; "economy"; "housing"]) ->
          total_filtered out = total_unfiltered out).
Proof.
  intros args w f c result c1 H. unfold handleSearchTables, bind. rewrite H.
  eexists. split; [reflexivity|]. cbn [so_tables total_filtered total_unfiltered so_query
                                       page_size searchOutput].
  assert (Hshown : forall t, In t (displayTables args result) ->
             In t (filteredTables args result))
    by (intros t; apply sliceTo_In).
  assert (Hfl : (List.length (filteredTables args result) <= List.length (tables result))%nat).
  { unfold filteredTables. destruct (truthyString (sa_category args)); [|lia].
    apply filter_length_le. }
  assert (Hdl : (List.length (displayTables args result)
                 <= List.length (filteredTables args result))%nat).
  { unfold displayTables, sliceTo. rewrite length_firstn. lia. }
  rewrite length_map. split; [lia|]. split.
  { intros Hp. unfold displayTables. now apply sliceTo_length. }
  split.
  { unfold pageSizeOrDefault. intros [->| ->]; reflexivity. }
  split.
  { intros shown Hin. apply in_map_iff in Hin. destruct Hin as (table & <- & Hin).
    apply Hshown in Hin. unfold filteredTables in Hin. exists table.
    destruct (truthyString (sa_category args)) as [category|].
    - apply filter_In in Hin. destruct Hin as [Hin Hc].
      split; [exact Hin|]. split; [reflexivity|]. intros ? E. now injection E as <-.
    - split; [exact Hin|]. split; [reflexivity|]. discriminate. }
  intros Hunknown. unfold filteredTables.
  destruct (truthyString (sa_category args)) as [category|]; [|reflexivity].
  specialize (Hunknown category eq_refl). f_equal.
  assert (Hall : forall t, inCategory (toLowerCase category) t = true).
  { intros t. unfold inCategory.
    destruct (String.eqb (toLowerCase category) "population") eqn:E1;
      [apply String.eqb_eq in E1; exfalso; apply Hunknown; rewrite E1; simpl; auto|].
    destruct (String.eqb (toLowerCase category) "labour") eqn:E2;
      [apply String.eqb_eq in E2; exfalso; apply Hunknown; rewrite E2; simpl; auto|].
    destruct (String.eqb (toLowerCase category) "economy") eqn:E3;
      [apply String.eqb_eq in E3; exfalso; apply Hunknown; rewrite E3; simpl; auto|].
    destruct (String.eqb (toLowerCase category) "housing") eqn:E4;
      [apply String.eqb_eq in E4; exfalso; apply Hunknown; rewrite E4; simpl; auto|].
    reflexivity. }
  clear - Hall. generalize (tables result). intros l.
  induction l as [|t l IH]; simpl; [reflexivity|].
  rewrite Hall. now rewrite IH.
Qed.

Lemma search_witness :
  exists out,
    handleSearchTables {| sa_query := Some "population"; sa_category := Some "Population";
                          sa_pageSize := Some 1; sa_language := None |}
      fallbackClock
      (Resolved {| ok := true; status := 200; statusText := "OK";
                   contentType := Some "application/json";
                   text := Normal "{}"; parsed := Normal searchAnswer |})
      (newClient 0)
    = (Normal out, recordCall (snd (checkRateLimit fallbackClock (newClient 0))))
    /\ List.length (so_tables out) = 1%nat
    /\ total_filtered out = 2%nat /\ total_unfiltered out = 3%nat.
Proof.
  destruct (search_shows_a_page_of_filtered_tables
              {| sa_query := Some "population"; sa_category := Some "Population";
                 sa_pageSize := Some 1; sa_language := None |}
              fallbackClock
              (Resolved {| ok := true; status := 200; statusText := "OK";
                           contentType := Some "application/json";
                           text := Normal "{}"; parsed := Normal searchAnswer |})
              (newClient 0) searchAnswer
              (recordCall (snd (checkRateLimit fallbackClock (newClient 0)))) eq_refl)
    as (out & Hout & _).
  exists out. split; [exact Hout|].
  vm_compute in Hout. injection Hout as <-. repeat split.
Defined.

End HandlerExtras.

(** ** Region search and table variables *)

Section RegionExtras.








(** X24.  A variable asked for by its code, in any letter case, is found:
    with the metadata of the table at hand the variables tool answers with
    descriptions that include the description of that variable, and every
    description it gives is of a variable of the table whose code equals
    the name or whose label contains it, ignoring case.  The count of
    filtered variables is the number of descriptions. *)
Theorem variable_asked_by_code_is_found :
  forall tableId language variableName wanted w f c md c1 dims code varDef,
    getTableMetadata tableId language w f c = (Normal md, c1) ->
    dimension md = Some dims ->
    truthyString variableName = Some wanted ->
    In (code, varDef) dims ->
    toLowerCase code = toLowerCase wanted ->
    exists described,
      handleGetTableVariables tableId language variableName w f c
      = (Normal (Variables (label md) (Some wanted) described
                   (List.length dims) (List.length described)), c1)
      /\ In (describeVariable (code, varDef)) described
      /\ forall info, In info described ->
            exists otherCode otherDef,
              In (otherCode, otherDef) dims
              /\ info = describeVariable (otherCode, otherDef)
              /\ (toLowerCase otherCode = toLowerCase wanted
                  \/ includes (toLowerCase (dim_label otherDef)) (toLowerCase wanted) = true).
Proof.
  intros tableId language variableName wanted w f c md c1 dims code varDef
         Hm Hd Hv Hin Hcode.
  unfold handleGetTableVariables, tryCatch, bind. rewrite Hm. unfold ret.
  unfold describeVariables. rewrite Hd, Hv. unfold entries.
  set (matches := fun '(code, def) =>
                    (String.eqb (toLowerCase code) (toLowerCase wanted)
                     || includes (toLowerCase (dim_label def)) (toLowerCase wanted))%bool).
  assert (Hfound : In (code, varDef) (filter matches dims)).
  { apply filter_In. split; [exact Hin|].
    unfold matches. rewrite Hcode, String.eqb_refl. reflexivity. }
  remember (filter matches dims) as found eqn:Efound.
  destruct found as [|m ms]; [destruct Hfound|].
  rewrite Efound in *.
  exists (map describeVariable (filter matches dims)).
  split; [now rewrite length_map|]. split; [now apply in_map|].
  intros info Hinfo. apply in_map_iff in Hinfo.
  destruct Hinfo as ([otherCode otherDef] & <- & Hother).
  exists otherCode, otherDef. apply filter_In in Hother.
  destruct Hother as [Hdim Hmatch]. split; [exact Hdim|]. split; [reflexivity|].
  unfold matches in Hmatch. apply orb_true_iff in Hmatch.
  destruct Hmatch as [Hmatch|Hmatch]; [left; now apply String.eqb_eq|now right].
Qed.

Lemma variable_asked_by_code_witness :
  exists described,
    handleGetTableVariables "TAB638" "en" (Some "REGION") fallbackClock metadataArrives
      (newClient 0)
    = (Normal (Variables "Population" (Some "REGION") described 2 (List.length described)),
       recordCall (snd (checkRateLimit fallbackClock (newClient 0))))
    /\ In (describeVariable ("Region", regionDimension)) described.
Proof.
  destruct (variable_asked_by_code_is_found "TAB638" "en" (Some "REGION") "REGION"
              fallbackClock metadataArrives (newClient 0) exampleMetadata
              (recordCall (snd (checkRateLimit fallbackClock (newClient 0))))
              exampleDimensions "Region" regionDimension
              eq_refl eq_refl eq_refl ltac:(simpl; auto) eq_refl)
    as (described & Hd & Hin & _).
  exists described. split; [exact Hd|exact Hin].
Defined.

End RegionExtras.
